(** * gswap-interesting-trader-bot: a shallow embedding of the trading engine

    Part I follows the TypeScript sources, one module for each class:

    - [BalanceManager]      balance-manager.ts
    - [CircularPathFinder]  circular-path-finder.ts
    - [OfflineQuote]        offline-quote.ts
    - [ProfitCalculator]    profit-calculator.ts
    - [ArbitrageDetector]   arbitrage-detector.ts
    - [TradingStrategy]     trading-strategy.ts
    - [PoolDataManager]     pool-data-manager.ts
    - [TokenRegistry]       token-registry.ts

    after [Js], [Double] and [BigNumber] for the values of JavaScript and
    of bignumber.js, and followed by the scenarios of the specification
    and the predicates of the statements.  Part II holds the properties,
    module by module.

    Conventions of the embedding.

    - A JavaScript [number] is a rational ([Q]) and the tests [>], [<],
      [>=], [<=] are the boolean comparisons of [Js].  [NaN] and the
      infinities have no counterpart: every statement is about finite
      quantities, and amounts are compared with [==].  The arithmetic that
      decides the scenarios is repeated on binary64 floats in [Binary64].
    - The minimum output of a swap, the comparison of the liquidities
      of pools, the success rate and the profit percentage of an
      opportunity are computed as the program computes them: [Double]
      has the rounding of binary64 ([parseFloat], the arithmetic
      operations and [toString]), [BigNumber] the division of
      bignumber.js; the other operations on a [BigNumber] are exact.
    - A JavaScript string is a [string]; [===] on strings is [String.eqb]
      and [<] is [String.ltb].
    - [a || b] takes [b] when [a] is missing, the empty string or zero.
    - A call that may throw returns a [Js.result]; [Throw] carries the
      message of the error.
    - An object compared by identity carries its identity ([ref]).
    - A [Map] that is read with [get] and written with [set] is a [gmap]
      keyed by strings.
    - Code that talks to the gateway runs in a state monad over the trade
      history and the trace of the calls made so far; the answers of the
      gateway are functions of that trace.
    - A time is a number of milliseconds ([Z]). *)

From Stdlib Require Import QArith Qabs Qround Qpower Lqa Lia List String Ascii ZArith DecimalString.
From Stdlib Require Import Sorting.Sorted Sorting.Permutation Floats.
From stdpp Require Import gmap strings list.

Open Scope Q_scope.

(* ===================================================================== *)
(** * Part I: the embedding                                               *)
(* ===================================================================== *)

(** ** JavaScript values *)

Module Js.

(** [a > b], [a < b], [a >= b] and [a <= b] on numbers. *)
Definition gt (a b : Q) : bool := negb (Qle_bool a b).
Definition lt (a b : Q) : bool := gt b a.
Definition ge (a b : Q) : bool := Qle_bool b a.
Definition le (a b : Q) : bool := Qle_bool a b.

(** [a || d] for an optional string: missing and [""] are falsy. *)
Definition or_str (a : option string) (d : string) : string :=
  match a with
  | Some s => if String.eqb s "" then d else s
  | None => d
  end.

(** [a || d] for an optional number: missing and [0] are falsy. *)
Definition or_num (a : option Q) (d : Q) : Q :=
  match a with
  | Some q => if Qeq_bool q 0 then d else q
  | None => d
  end.

(** Truthiness of an optional number: missing and [0] are falsy. *)
Definition truthy_num (a : option Q) : bool :=
  match a with
  | Some q => negb (Qeq_bool q 0)
  | None => false
  end.

(** [Array.prototype.sort(compareFn)].  ECMAScript requires the sort to be
    stable, so for a consistent comparator the sorted array is determined:
    it is the one this insertion sort builds.  [x] precedes the elements
    of [l] in the array; it moves behind [y] only when [compareFn(x, y)]
    is positive. *)
Fixpoint insert {A : Type} (compareFn : A -> A -> Q) (x : A) (l : list A) : list A :=
  match l with
  | [] => [x]
  | y :: l' => if gt (compareFn x y) 0 then y :: insert compareFn x l' else x :: l
  end.

Definition sort {A : Type} (compareFn : A -> A -> Q) (l : list A) : list A :=
  fold_right (insert compareFn) [] l.

(** The outcome of a call that may throw. *)
Inductive result (A : Type) : Type :=
| Ok (a : A)
| Throw (message : string).
Arguments Ok {A} a.
Arguments Throw {A} message.

End Js.

(** ** Numbers in binary64

    A finite JavaScript number is the rational that it is.  [round q] is
    the number nearest to the rational [q], a tie going to the even
    significand: what [parseFloat] and [Number] read from the decimal
    [q], and what an arithmetic operation returns when its exact result
    is [q].  A number has a significand of 53 bits, and its last bit has
    an exponent of -1074 at least (the subnormal numbers).  Beyond the
    largest number, where JavaScript goes to [Infinity], [round] keeps 53
    bits: the infinities and [NaN] have no counterpart. *)

Module Double.

Definition pow2 (e : Z) : Q := Qpower 2 e.
Definition pow10 (e : Z) : Q := Qpower 10 e.

(** The exponent [e] with [2^e <= a < 2^(e+1)], for a positive [a]. *)
Definition ilog2 (a : Q) : Z :=
  let e0 := (Z.log2 (Qnum a) - Z.log2 (Zpos (Qden a)))%Z in
  if Qle_bool (pow2 e0) a then e0 else (e0 - 1)%Z.

(** The integer nearest to [m], the even one when two are as near. *)
Definition roundHalfEven (m : Q) : Z :=
  let f := Qfloor m in
  match Qcompare (m - inject_Z f) (1 # 2) with
  | Lt => f
  | Gt => (f + 1)%Z
  | Eq => if Z.even f then f else (f + 1)%Z
  end.

Definition round (q : Q) : Q :=
  let q := Qred q in
  if Qeq_bool q 0 then 0
  else
    let a := Qabs q in
    let x := Z.max (ilog2 a - 52) (-1074) in
    let r := Qred (inject_Z (roundHalfEven (a / pow2 x)) * pow2 x) in
    if Qle_bool 0 q then r else Qred (- r).

(** [parseFloat(s)] for the decimal that the string [s] writes. *)
Definition parseFloat (q : Q) : Q := round q.

(** The arithmetic operations: the operands are numbers, and rounding
    them changes nothing then. *)
Definition add (a b : Q) : Q := round (round a + round b).
Definition sub (a b : Q) : Q := round (round a - round b).
Definition mul (a b : Q) : Q := round (round a * round b).
Definition div (a b : Q) : Q := round (round a / round b).

(** The exponent [p] with [10^p <= a < 10^(p+1)], for a positive [a]; it
    is looked for around [ilog2 a * log10 2]. *)
Definition ilog10 (a : Q) : Z :=
  let p0 := (ilog2 a * 30103 / 100000)%Z in
  let fits (p : Z) := Qle_bool (pow10 p) a in
  if fits (p0 + 2)%Z then (p0 + 2)%Z
  else if fits (p0 + 1)%Z then (p0 + 1)%Z
  else if fits p0 then p0
  else if fits (p0 - 1)%Z then (p0 - 1)%Z
  else (p0 - 2)%Z.

(** [Number.prototype.toString]: the decimal with the fewest digits that
    reads back as the number, and of those with that many digits the one
    nearest to the number, the even one when two are as near.  [digits x k]
    is that decimal when one of [k] digits reads back as the positive
    number [x]: it is the decimal of [k] digits just below [x] or the one
    just above. *)
Definition digits (x : Q) (k : nat) : option Q :=
  let scale := pow10 (ilog10 x - (Z.of_nat k - 1)) in
  let s := Qfloor (x / scale) in
  let below := Qred (inject_Z s * scale) in
  let above := Qred (inject_Z (s + 1) * scale) in
  let readsBack (c : Q) := Qeq_bool (round c) x in
  match readsBack below, readsBack above with
  | true, true =>
      match Qcompare (x - below) (above - x) with
      | Lt => Some below
      | Gt => Some above
      | Eq => if Z.even s then Some below else Some above
      end
  | true, false => Some below
  | false, true => Some above
  | false, false => None
  end.

(** Seventeen digits are enough for every number. *)
Fixpoint shortest (x : Q) (k fuel : nat) : Q :=
  match fuel with
  | O => x
  | S fuel' =>
      match digits x k with
      | Some d => d
      | None => shortest x (S k) fuel'
      end
  end.

(** [x.toString()], as the decimal that the string writes. *)
Definition toString (q : Q) : Q :=
  let x := round q in
  if Qeq_bool x 0 then 0
  else if Qle_bool 0 x then shortest x 1 17
  else Qred (- shortest (Qabs x) 1 17).

End Double.

(** ** bignumber.js

    A [BigNumber] is a decimal of any precision, here the rational that
    it is; [plus], [minus], [times] and [abs] are exact. *)

Module BigNumber.

(** [a.dividedBy(b)] with the settings that the program leaves at their
    defaults: 20 decimal places, and of two decimals as near the one away
    from zero ([ROUND_HALF_UP]).  For [b = 0] bignumber.js gives an
    infinity or [NaN], which have no counterpart. *)
Definition div (a b : Q) : Q :=
  let q := Qred (a / b) in
  let s := Qabs q * inject_Z (10 ^ 20) in
  let f := Qfloor s in
  let m := if Qle_bool (1 # 2) (s - inject_Z f) then (f + 1)%Z else f in
  let r := Qred (inject_Z m / inject_Z (10 ^ 20)) in
  if Qle_bool 0 q then r else Qred (- r).

(** [a.toNumber()] *)
Definition toNumber (a : Q) : Q := Double.round a.

(** [new BigNumber(n)] for a number [n]: the decimal that [n.toString()]
    writes. *)
Definition ofNumber (n : Q) : Q := Double.toString n.

End BigNumber.

Arguments Double.round : simpl never.
Arguments Double.parseFloat : simpl never.
Arguments Double.add : simpl never.
Arguments Double.sub : simpl never.
Arguments Double.mul : simpl never.
Arguments Double.div : simpl never.
Arguments Double.toString : simpl never.
Arguments BigNumber.div : simpl never.

(** ** config.ts: the options read by the embedded code *)

Record BotConfig : Type := {
  preferredTokenKey : string;
  galaTokenKey : string;
  minimumGalaBalance : Q;
  maxSlippage : Q;
  tradeAmountPercentage : Q;
  walletAddress : string;
  enableTrading : bool;
  arbitrageMinProfitPercent : Q
}.

(** ** balance-manager.ts *)

Module BalanceManager.

Record TokenBalance : Type := {
  tokenKey : string;
  symbol : string;
  quantity : Q;
  decimals : Q
}.

Record BalanceSummary : Type := {
  preferredTokenBalance : Q;
  galaTokenBalance : Q;
  otherTokens : list TokenBalance;
  totalTokens : nat
}.

(** The four optional fields read through [tokenClass?.field]. *)
Record ClassFields : Type := {
  collection : option string;
  category : option string;
  type : option string;
  additionalKey : option string
}.

(** One element of [assets.tokens].  The SDK types it loosely, and
    [constructTokenKey] reads it as [any]: a nested [tokenClassKey], a
    nested [tokenClass], or the class fields on the asset itself
    ([asset_flat]).  [asset_quantity] is the number that [parseBalance]
    yields for the asset's [quantity]. *)
Record AssetToken : Type := {
  asset_tokenClassKey : option ClassFields;
  asset_tokenClass : option ClassFields;
  asset_flat : ClassFields;
  asset_symbol : option string;
  asset_decimals : option Q;
  asset_quantity : Q
}.

Record UserAssets : Type := {
  tokens : list AssetToken;
  count : nat
}.

Definition constructTokenKey (token : AssetToken) : string :=
  let tokenClass :=
    match asset_tokenClassKey token with
    | Some c => c
    | None =>
        match asset_tokenClass token with
        | Some c => c
        | None => asset_flat token
        end
    end in
  let collection :=
    Js.or_str (collection tokenClass) (Js.or_str (asset_symbol token) "unknown") in
  let category := Js.or_str (category tokenClass) "Unit" in
  let type := Js.or_str (type tokenClass) "none" in
  let additionalKey := Js.or_str (additionalKey tokenClass) "none" in
  (collection ++ "|" ++ category ++ "|" ++ type ++ "|" ++ additionalKey)%string.

Definition parseBalance (quantity : Q) : Q := quantity.

(** The three locals of [getBalances] that the loop over [assets.tokens]
    updates. *)
Record Partition : Type := {
  acc_preferred : Q;
  acc_gala : Q;
  acc_others : list TokenBalance
}.

Definition processToken (config : BotConfig) (acc : Partition) (token : AssetToken)
  : Partition :=
  let tokenKey := constructTokenKey token in
  let balance := parseBalance (asset_quantity token) in
  if String.eqb tokenKey (preferredTokenKey config) then
    {| acc_preferred := balance;
       acc_gala := if String.eqb tokenKey (galaTokenKey config)
                   then balance else acc_gala acc;
       acc_others := acc_others acc |}
  else if String.eqb tokenKey (galaTokenKey config) then
    {| acc_preferred := acc_preferred acc;
       acc_gala := balance;
       acc_others := acc_others acc |}
  else
    {| acc_preferred := acc_preferred acc;
       acc_gala := acc_gala acc;
       acc_others := acc_others acc ++
         [ {| tokenKey := tokenKey;
              symbol := Js.or_str (asset_symbol token) "UNKNOWN";
              quantity := balance;
              decimals := Js.or_num (asset_decimals token) 8 |} ] |}.

Definition processTokens (config : BotConfig) (l : list AssetToken) : Partition :=
  fold_left (processToken config) l
    {| acc_preferred := 0; acc_gala := 0; acc_others := [] |}.

(** [getBalances]: the argument is the outcome of
    [gSwap.assets.getUserAssets(walletAddress, 1, 20)]; an error of the
    transport is logged and thrown again. *)
Definition getBalances (config : BotConfig) (fetched : Js.result UserAssets)
  : Js.result BalanceSummary :=
  match fetched with
  | Js.Ok assets =>
      let acc := processTokens config (tokens assets) in
      Js.Ok {| preferredTokenBalance := acc_preferred acc;
               galaTokenBalance := acc_gala acc;
               otherTokens := acc_others acc;
               totalTokens := count assets |}
  | Js.Throw e => Js.Throw e
  end.

Definition shouldTradeForPreferred (balance : BalanceSummary) : bool :=
  negb (Nat.eqb (length (otherTokens balance)) 0).

Definition shouldMaintainGalaBalance (config : BotConfig) (balance : BalanceSummary)
  : bool :=
  Js.lt (galaTokenBalance balance) (minimumGalaBalance config).

Definition canTradeExcessGala (config : BotConfig) (balance : BalanceSummary) : bool :=
  Js.gt (galaTokenBalance balance) (minimumGalaBalance config * 2).

Definition calculateTradeAmount (config : BotConfig) (tokenBalance : Q) (isGala : bool)
  : Q :=
  if isGala then
    let excess := tokenBalance - minimumGalaBalance config in
    if Js.le excess 0 then 0
    else excess * (tradeAmountPercentage config / 100) * 0.5
  else
    let amount := tokenBalance * (tradeAmountPercentage config / 100) in
    if Js.gt amount 0.000001 then amount else 0.

Record Trade : Type := {
  token : TokenBalance;
  targetToken : string;
  amount : Q
}.

(** The loop [for (const token of balance.otherTokens)] of
    [getTokensToTrade]; it runs twice, with the gas token and then with
    the preferred token as [target]. *)
Fixpoint tradesForOthers (config : BotConfig) (target : string)
    (others : list TokenBalance) : list Trade :=
  match others with
  | [] => []
  | tk :: rest =>
      let amount := calculateTradeAmount config (quantity tk) false in
      if Js.gt amount 0
      then {| token := tk; targetToken := target; amount := amount |}
             :: tradesForOthers config target rest
      else tradesForOthers config target rest
  end.

Definition getTokensToTrade (config : BotConfig) (balance : BalanceSummary)
  : list Trade :=
  let first :=
    if shouldMaintainGalaBalance config balance
    then tradesForOthers config (galaTokenKey config) (otherTokens balance)
    else [] in
  let second :=
    tradesForOthers config (preferredTokenKey config) (otherTokens balance) in
  let third :=
    if canTradeExcessGala config balance
       && negb (String.eqb (preferredTokenKey config) (galaTokenKey config))
    then
      let galaAmount :=
        calculateTradeAmount config (galaTokenBalance balance) true in
      if Js.gt galaAmount 0
      then [ {| token := {| tokenKey := galaTokenKey config;
                            symbol := "GALA";
                            quantity := galaTokenBalance balance;
                            decimals := 8 |};
                targetToken := preferredTokenKey config;
                amount := galaAmount |} ]
      else []
    else [] in
  first ++ second ++ third.

End BalanceManager.

(** ** pool-data-manager.ts: the pool snapshot handed to the path finder *)

(** [liquidity] is [compositePool.pool.liquidity]; the rest of the composite
    pool (ticks, balances) is read by the SDK's quoting function only.
    [ref] is the identity of the JavaScript object: two [PoolData] are the
    same object ([===]) exactly when their [ref] agree. *)
Record PoolData : Type := {
  token0 : string;
  token1 : string;
  fee : N;
  liquidity : Q;
  lastUpdated : Z;
  ref : nat
}.

Definition same_object (p q : PoolData) : bool := Nat.eqb (ref p) (ref q).

(** ** circular-path-finder.ts *)

Module CircularPathFinder.

Record CircularPath : Type := {
  tokens : list string;
  pools : list PoolData;
  fees : list N;
  hops : nat
}.

(** An entry of an adjacency list: [{ token, pool }]. *)
Record Edge : Type := {
  token : string;
  pool : PoolData
}.

(** [if (!adjacencyMap.has(k)) adjacencyMap.set(k, [])] *)
Definition ensureKey (k : string) (m : gmap string (list Edge))
  : gmap string (list Edge) :=
  match m !! k with
  | Some _ => m
  | None => <[k := []]> m
  end.

(** [adjacencyMap.get(k)?.push(e)] *)
Definition pushEdge (k : string) (e : Edge) (m : gmap string (list Edge))
  : gmap string (list Edge) :=
  match m !! k with
  | Some l => <[k := l ++ [e]]> m
  | None => m
  end.

Definition addPool (m : gmap string (list Edge)) (p : PoolData)
  : gmap string (list Edge) :=
  let m1 := pushEdge (token0 p) {| token := token1 p; pool := p |}
              (ensureKey (token0 p) m) in
  pushEdge (token1 p) {| token := token0 p; pool := p |}
    (ensureKey (token1 p) m1).

Definition buildAdjacencyMap (pools : list PoolData) : gmap string (list Edge) :=
  fold_left addPool pools ∅.

(** [adjacencyMap.get(t) || []] *)
Definition neighborsOf (adjacencyMap : gmap string (list Edge)) (t : string)
  : list Edge :=
  default [] (adjacencyMap !! t).

Definition findTwoHopCycles (baseToken : string)
    (adjacencyMap : gmap string (list Edge)) : list CircularPath :=
  flat_map (fun e1 =>
    flat_map (fun e2 =>
      if String.eqb (token e2) baseToken
         && negb (same_object (pool e1) (pool e2))
      then [ {| tokens := [baseToken; token e1; baseToken];
                pools := [pool e1; pool e2];
                fees := [fee (pool e1); fee (pool e2)];
                hops := 2 |} ]
      else [])
      (neighborsOf adjacencyMap (token e1)))
    (neighborsOf adjacencyMap baseToken).

Definition findThreeHopCycles (baseToken : string)
    (adjacencyMap : gmap string (list Edge)) : list CircularPath :=
  flat_map (fun e1 =>
    if String.eqb (token e1) baseToken then [] else
    flat_map (fun e2 =>
      if String.eqb (token e2) baseToken || String.eqb (token e2) (token e1)
      then [] else
      flat_map (fun e3 =>
        if String.eqb (token e3) baseToken
        then [ {| tokens := [baseToken; token e1; token e2; baseToken];
                  pools := [pool e1; pool e2; pool e3];
                  fees := [fee (pool e1); fee (pool e2); fee (pool e3)];
                  hops := 3 |} ]
        else [])
        (neighborsOf adjacencyMap (token e2)))
      (neighborsOf adjacencyMap (token e1)))
    (neighborsOf adjacencyMap baseToken).

Definition findFourHopCycles (baseToken : string)
    (adjacencyMap : gmap string (list Edge)) : list CircularPath :=
  flat_map (fun e1 =>
    if String.eqb (token e1) baseToken then [] else
    flat_map (fun e2 =>
      if String.eqb (token e2) baseToken || String.eqb (token e2) (token e1)
      then [] else
      flat_map (fun e3 =>
        if String.eqb (token e3) baseToken || String.eqb (token e3) (token e1)
           || String.eqb (token e3) (token e2)
        then [] else
        flat_map (fun e4 =>
          if String.eqb (token e4) baseToken
          then [ {| tokens := [baseToken; token e1; token e2; token e3; baseToken];
                    pools := [pool e1; pool e2; pool e3; pool e4];
                    fees := [fee (pool e1); fee (pool e2); fee (pool e3);
                             fee (pool e4)];
                    hops := 4 |} ]
          else [])
          (neighborsOf adjacencyMap (token e3)))
        (neighborsOf adjacencyMap (token e2)))
      (neighborsOf adjacencyMap (token e1)))
    (neighborsOf adjacencyMap baseToken).

Definition findCircularPaths (baseToken : string) (maxHops : Q)
    (availablePools : list PoolData) (minLiquidity : Q) : list CircularPath :=
  let liquidPools :=
    List.filter (fun p => Js.gt (liquidity p) minLiquidity) availablePools in
  let adjacencyMap := buildAdjacencyMap liquidPools in
  (if Js.ge maxHops 2 then findTwoHopCycles baseToken adjacencyMap else [])
  ++ (if Js.ge maxHops 3 then findThreeHopCycles baseToken adjacencyMap else [])
  ++ (if Js.ge maxHops 4 then findFourHopCycles baseToken adjacencyMap else []).

End CircularPathFinder.

(** ** Printing numbers inside template strings *)

Definition string_of_nat (n : nat) : string := NilZero.string_of_uint (Nat.to_uint n).
Definition string_of_N (n : N) : string := NilZero.string_of_uint (N.to_uint n).
Definition string_of_Z (z : Z) : string := NilZero.string_of_int (Z.to_int z).

(** ** offline-quote.ts *)

Module OfflineQuote.

(** What [quoteExactAmount] of [@gala-chain/dex] returns. *)
Record QuoteExactAmountRes : Type := {
  amount0 : Q;
  amount1 : Q;
  sdk_currentSqrtPrice : Q;
  sdk_newSqrtPrice : Q
}.

Record OfflineQuoteResult : Type := {
  amountIn : Q;
  amountOut : Q;
  currentSqrtPrice : Q;
  newSqrtPrice : Q;
  priceImpact : Q
}.

(** [s.split('|')] *)
Fixpoint split_bar (s : string) : list string :=
  match s with
  | EmptyString => [EmptyString]
  | String c r =>
      if Ascii.eqb c "|" then EmptyString :: split_bar r
      else match split_bar r with
           | h :: t => String c h :: t
           | [] => [String c EmptyString]
           end
  end.

Definition parseTokenKey (tokenKey : string) : Js.result (list string) :=
  let parts := split_bar tokenKey in
  if negb (Nat.eqb (length parts) 4)
  then Js.Throw ("Invalid token key format: " ++ tokenKey
                 ++ ". Expected format: SYMBOL|Category|Type|AdditionalKey")
  else Js.Ok parts.

Section Engine.

(** The SDK's offline quote: pool snapshot, amount, [zeroForOne]. *)
Variable quoteExactAmount : PoolData -> Q -> bool -> Js.result QuoteExactAmountRes.

Definition quoteExactInput (poolData : PoolData) (tokenIn tokenOut : string)
    (amountIn : Q) : Js.result OfflineQuoteResult :=
  let zeroForOne := String.eqb tokenIn (token0 poolData) in
  match parseTokenKey (token0 poolData) with
  | Js.Throw e => Js.Throw e
  | Js.Ok _ =>
  match parseTokenKey (token1 poolData) with
  | Js.Throw e => Js.Throw e
  | Js.Ok _ =>
  match quoteExactAmount poolData amountIn zeroForOne with
  | Js.Throw e => Js.Throw e
  | Js.Ok quoteResult =>
      let currentPrice := sdk_currentSqrtPrice quoteResult ^ 2 in
      let newPrice := sdk_newSqrtPrice quoteResult ^ 2 in
      let priceImpact :=
        if Qeq_bool currentPrice 0 then 0
        else BigNumber.toNumber
               (BigNumber.div (newPrice - currentPrice) currentPrice * 100) in
      Js.Ok {| amountIn := if zeroForOne then amount0 quoteResult
                           else amount1 quoteResult;
               amountOut := if zeroForOne then amount1 quoteResult
                            else amount0 quoteResult;
               currentSqrtPrice := sdk_currentSqrtPrice quoteResult;
               newSqrtPrice := sdk_newSqrtPrice quoteResult;
               priceImpact := Qabs priceImpact |}
  end end end.

End Engine.

Definition estimateGasCost : Q := 0.5.

End OfflineQuote.

(** ** profit-calculator.ts *)

Module ProfitCalculator.
Import CircularPathFinder.

Record ArbitrageOpportunity : Type := {
  path : CircularPath;
  inputAmount : Q;
  expectedOutputAmount : Q;
  grossProfit : Q;
  gasEstimate : Q;
  netProfit : Q;
  profitPercentage : Q;
  priceImpacts : list Q;
  timestamp : Z
}.

Section Calculator.

Variable quoteExactAmount : PoolData -> Q -> bool -> Js.result OfflineQuote.QuoteExactAmountRes.

(** The loop [for (let i = 0; i < path.hops; i++)]: [i] is the hop and
    [remaining] is [path.hops - i].  [!tokenIn] also holds for the empty
    string. *)
Fixpoint chainQuotes (path : CircularPath) (i remaining : nat)
    (currentAmount : Q) (priceImpacts : list Q) : Js.result (Q * list Q) :=
  match remaining with
  | O => Js.Ok (currentAmount, priceImpacts)
  | S remaining' =>
      match nth_error (pools path) i,
            nth_error (tokens path) i,
            nth_error (tokens path) (i + 1) with
      | Some pool, Some tokenIn, Some tokenOut =>
          if String.eqb tokenIn "" || String.eqb tokenOut ""
          then Js.Throw ("Invalid path at hop " ++ string_of_nat i
                         ++ ": missing pool or token data")
          else
            match OfflineQuote.quoteExactInput quoteExactAmount
                    pool tokenIn tokenOut currentAmount with
            | Js.Ok quote =>
                chainQuotes path (S i) remaining'
                  (Qabs (OfflineQuote.amountOut quote))
                  (priceImpacts ++ [OfflineQuote.priceImpact quote])
            | Js.Throw e =>
                Js.Throw ("Failed to quote hop " ++ string_of_nat (i + 1)
                          ++ ": " ++ e)
            end
      | _, _, _ =>
          Js.Throw ("Invalid path at hop " ++ string_of_nat i
                    ++ ": missing pool or token data")
      end
  end.

(** [calculateProfitability] of profit-calculator.ts; [now] is the
    [new Date()] of the result. *)
Definition calculateProfitability (path : CircularPath) (inputAmount : Q) (now : Z)
  : Js.result ArbitrageOpportunity :=
  match chainQuotes path 0 (hops path) inputAmount [] with
  | Js.Throw e => Js.Throw e
  | Js.Ok (currentAmount, priceImpacts) =>
      let expectedOutputAmount := currentAmount in
      let grossProfit := expectedOutputAmount - inputAmount in
      let gasEstimate := OfflineQuote.estimateGasCost * inject_Z (Z.of_nat (hops path)) in
      let netProfit := grossProfit - gasEstimate in
      let profitPercentage := (netProfit / inputAmount) * 100 in
      Js.Ok {| path := path;
               inputAmount := inputAmount;
               expectedOutputAmount := expectedOutputAmount;
               grossProfit := grossProfit;
               gasEstimate := gasEstimate;
               netProfit := netProfit;
               profitPercentage := profitPercentage;
               priceImpacts := priceImpacts;
               timestamp := now |}
  end.

(** [calculateProfitability] of the [ProfitCalculator] on [BigNumber]
    amounts (the second document of get_user_positions.ts), which
    replaces the one above: the subtraction of the gas estimate is
    commented out there, with the remark that it is incorrect without a
    conversion between GALA and the preferred token, and the net profit
    is [grossProfit.times(0.98)].  The amounts of the result are the
    strings of [BigNumber]s, here the decimals that they write;
    [profitPercentage] is a number,
    [netProfit.dividedBy(inputAmountBN).multipliedBy(100).toNumber()]. *)
Definition calculateProfitabilityRevised (path : CircularPath) (inputAmount : Q)
    (now : Z) : Js.result ArbitrageOpportunity :=
  match chainQuotes path 0 (hops path) inputAmount [] with
  | Js.Throw e => Js.Throw e
  | Js.Ok (currentAmount, priceImpacts) =>
      let expectedOutputAmount := currentAmount in
      let grossProfit := expectedOutputAmount - inputAmount in
      let gasEstimateBN := OfflineQuote.estimateGasCost * inject_Z (Z.of_nat (hops path)) in
      let netProfit := grossProfit * 0.98 in
      let profitPercentage :=
        BigNumber.toNumber (BigNumber.div netProfit inputAmount * 100) in
      Js.Ok {| path := path;
               inputAmount := inputAmount;
               expectedOutputAmount := expectedOutputAmount;
               grossProfit := grossProfit;
               gasEstimate := gasEstimateBN;
               netProfit := netProfit;
               profitPercentage := profitPercentage;
               priceImpacts := priceImpacts;
               timestamp := now |}
  end.

(** [calculateMultiplePaths]: a path whose quote throws is skipped.
    [clock k] is the time at which the [k]-th path is evaluated. *)
Fixpoint calculateMultiplePaths (paths : list CircularPath) (inputAmount : Q)
    (clock : nat -> Z) (k : nat) : list ArbitrageOpportunity :=
  match paths with
  | [] => []
  | p :: rest =>
      match calculateProfitability p inputAmount (clock k) with
      | Js.Ok opportunity =>
          opportunity :: calculateMultiplePaths rest inputAmount clock (S k)
      | Js.Throw _ => calculateMultiplePaths rest inputAmount clock (S k)
      end
  end.

End Calculator.

Definition filterProfitable (opportunities : list ArbitrageOpportunity)
    (minProfitPercent : Q) : list ArbitrageOpportunity :=
  List.filter (fun opp => Js.gt (netProfit opp) 0
                          && Js.ge (profitPercentage opp) minProfitPercent)
    opportunities.

(** [filterProfitable] of the calculator on [BigNumber] amounts:
    [new BigNumber(opp.netProfit).isGreaterThan(0)] and
    [new BigNumber(opp.profitPercentage).isGreaterThanOrEqualTo(minProfitPercent)]. *)
Definition filterProfitableRevised (opportunities : list ArbitrageOpportunity)
    (minProfitPercent : Q) : list ArbitrageOpportunity :=
  List.filter (fun opp => Js.gt (netProfit opp) 0
                          && Js.ge (BigNumber.ofNumber (profitPercentage opp))
                               minProfitPercent)
    opportunities.

Definition sortByProfitability (opportunities : list ArbitrageOpportunity)
  : list ArbitrageOpportunity :=
  Js.sort (fun a b => profitPercentage b - profitPercentage a) opportunities.

End ProfitCalculator.

(** ** arbitrage-detector.ts *)

Module ArbitrageDetector.
Import CircularPathFinder ProfitCalculator.

Section Detector.

Variable quoteExactAmount : PoolData -> Q -> bool -> Js.result OfflineQuote.QuoteExactAmountRes.

(** Steps 2 to 5 of [findArbitrageOpportunities] and the update of the
    detection history.  [availablePools] is what
    [poolDataManager.getAllCachedPools()] returns once the known pools are
    preloaded, [minLiquidity] and [minProfitPercent] are the options
    [arbitrageMinLiquidity] and [arbitrageMinProfitPercent], and [clock k]
    is the time at which the [k]-th path is evaluated.  The result is the
    ranked list and the new detection history. *)
Definition findArbitrageOpportunities (detectionHistory : list ArbitrageOpportunity)
    (baseToken : string) (amount : Q) (maxHops : Q) (availablePools : list PoolData)
    (minLiquidity minProfitPercent : Q) (clock : nat -> Z)
  : list ArbitrageOpportunity * list ArbitrageOpportunity :=
  let paths := findCircularPaths baseToken maxHops availablePools minLiquidity in
  match paths with
  | [] => ([], detectionHistory)
  | _ :: _ =>
      let opportunities := calculateMultiplePaths quoteExactAmount paths amount clock 0 in
      let profitableOpportunities := filterProfitable opportunities minProfitPercent in
      let sortedOpportunities := sortByProfitability profitableOpportunities in
      (sortedOpportunities, detectionHistory ++ sortedOpportunities)
  end.

End Detector.

End ArbitrageDetector.

(** ** trading-strategy.ts *)

Module TradingStrategy.

Record TradeResult : Type := {
  success : bool;
  fromToken : string;
  toToken : string;
  amountIn : Q;
  amountOut : option Q;
  transactionId : option string;
  error : option string;
  timestamp : Z
}.

Record PoolInfo : Type := {
  pi_token0 : string;
  pi_token1 : string;
  pi_fee : N;
  pi_liquidity : Q;
  pi_sqrtPrice : Q
}.

(** *** The collaborators *)

(** Answer of [gSwap.pools.getPoolData]; both fields may be missing. *)
Record PoolDataRes : Type := {
  pd_liquidity : option Q;
  pd_sqrtPrice : option Q
}.

(** Answer of [gSwap.quoting.quoteExactInput]: the output amount is under
    [amountOut] or under [outTokenAmount]; the SDK gives [BigNumber]
    objects, which are truthy whenever present. *)
Record QuoteRes : Type := {
  q_amountOut : option Q;
  q_outTokenAmount : option Q
}.

(** Every call that leaves the process is recorded, together with the
    answer of the quoting endpoint.  [Swap] is the submission endpoint. *)
Inductive Event : Type :=
| GetPoolData (tokenA tokenB : string) (fee : N)
| QuoteExactInput (fromToken toToken : string) (amount : Q) (fee : N)
    (answer : Js.result QuoteRes)
| EventSocketConnected
| ConnectEventSocket
| Swap (fromToken toToken : string) (fee : N) (exactIn amountOutMinimum : Q)
    (wallet : string)
| Wait (transactionId : string)
| Sleep (ms : Z).

(** The environment.  An answer may depend on everything that happened
    before, that is on the trace of earlier calls.  [findTradingPaths] is
    [tokenRegistry.findTradingPaths(from, to, 2)], a lookup in the static
    registry. *)
Record World : Type := {
  dateNow : list Event -> Z;
  getPoolData : list Event -> string -> string -> N -> Js.result PoolDataRes;
  quoteExactInput : list Event -> string -> string -> Q -> N -> Js.result QuoteRes;
  eventSocketConnected : list Event -> bool;
  connectEventSocket : list Event -> Js.result unit;
  swap : list Event -> string -> string -> N -> Q -> Q -> string -> Js.result string;
  wait : list Event -> string -> Js.result unit;
  findTradingPaths : string -> string -> list (list string)
}.

(** *** State and effects *)

Record State : Type := {
  tradeHistory : list TradeResult;
  trace : list Event
}.

Definition M (A : Type) : Type := State -> Js.result A * State.

Definition ret {A : Type} (a : A) : M A := fun s => (Js.Ok a, s).

Definition bind {A B : Type} (m : M A) (k : A -> M B) : M B :=
  fun s =>
    match m s with
    | (Js.Ok a, s') => k a s'
    | (Js.Throw e, s') => (Js.Throw e, s')
    end.

Definition throw {A : Type} (e : string) : M A := fun s => (Js.Throw e, s).

(** [try { m } catch (error) { ... }] with the outcome handed to the
    caller. *)
Definition attempt {A : Type} (m : M A) : M (Js.result A) :=
  fun s => let (r, s') := m s in (Js.Ok r, s').

(** A call to a collaborator: the answer is computed from the trace so
    far and the event built from the answer is appended. *)
Definition call {A : Type} (answer : list Event -> A) (ev : A -> Event) : M A :=
  fun s =>
    let a := answer (trace s) in
    (Js.Ok a, {| tradeHistory := tradeHistory s; trace := trace s ++ [ev a] |}).

Definition readTrace {A : Type} (f : list Event -> A) : M A :=
  fun s => (Js.Ok (f (trace s)), s).

Definition pushHistory (r : TradeResult) : M unit :=
  fun s => (Js.Ok tt, {| tradeHistory := tradeHistory s ++ [r]; trace := trace s |}).

(** A collaborator's rejection becomes an exception of the caller. *)
Definition liftResult {A : Type} (r : Js.result A) : M A :=
  match r with
  | Js.Ok a => ret a
  | Js.Throw e => throw e
  end.

Declare Scope trade_scope.
Delimit Scope trade_scope with trade.
Notation "x <- m ;; k" := (bind m (fun x => k))
  (at level 100, m at next level, right associativity) : trade_scope.
Notation "m ;; k" := (bind m (fun _ => k))
  (at level 100, right associativity) : trade_scope.
Open Scope trade_scope.

Section Strategy.

Variable config : BotConfig.
Variable world : World.

Definition feeTiers : list N := [500; 3000; 10000]%N.

(** The loop over the fee tiers of [findAvailablePools]; the body is in
    a [try] whose [catch] continues with the next tier.  The liquidity
    of a pool is a decimal, kept as a string in the [PoolInfo], and is
    compared as the number that [parseFloat] reads from it. *)
Fixpoint probeFeeTiers (tokenA tokenB : string) (tiers : list N)
    (pools : list PoolInfo) : M (list PoolInfo) :=
  match tiers with
  | [] => ret pools
  | fee :: rest =>
      r <- call (fun t => getPoolData world t tokenA tokenB fee)
                (fun _ => GetPoolData tokenA tokenB fee) ;;
      match r with
      | Js.Ok poolData =>
          let liquidity := Double.parseFloat (default 0 (pd_liquidity poolData)) in
          if Js.gt liquidity 0 then
            match pd_liquidity poolData, pd_sqrtPrice poolData with
            | Some l, Some sp =>
                probeFeeTiers tokenA tokenB rest
                  (pools ++ [ {| pi_token0 := tokenA; pi_token1 := tokenB;
                                 pi_fee := fee; pi_liquidity := l;
                                 pi_sqrtPrice := sp |} ])
            | _, _ => probeFeeTiers tokenA tokenB rest pools
            end
          else probeFeeTiers tokenA tokenB rest pools
      | Js.Throw _ => probeFeeTiers tokenA tokenB rest pools
      end
  end.

Definition findAvailablePools (tokenA tokenB : string) : M (list PoolInfo) :=
  pools <- probeFeeTiers tokenA tokenB feeTiers [] ;;
  ret (Js.sort (fun a b => Double.sub (Double.parseFloat (pi_liquidity b))
                                       (Double.parseFloat (pi_liquidity a)))
         pools).

(** [pools.reduce((prev, curr) =>
       parseFloat(curr.liquidity) > parseFloat(prev.liquidity) ? curr : prev)] *)
Definition bestPoolOf (first : PoolInfo) (others : list PoolInfo) : PoolInfo :=
  fold_left (fun prev curr =>
               if Js.gt (Double.parseFloat (pi_liquidity curr))
                        (Double.parseFloat (pi_liquidity prev))
               then curr else prev)
    others first.

(** [!poolFee]: no fee was given, or the fee is [0]. *)
Definition feeMissing (fee : option N) : bool :=
  match fee with
  | Some f => N.eqb f 0
  | None => true
  end.

Definition choosePoolFee (fromToken toToken : string) (fee : option N) : M N :=
  if feeMissing fee then
    pools <- findAvailablePools fromToken toToken ;;
    match pools with
    | [] => throw ("No liquid pools found for " ++ fromToken ++ " -> " ++ toToken)
    | first :: others => ret (pi_fee (bestPoolOf first others))
    end
  else ret (default 0%N fee).

(** [quote.amountOut || quote.outTokenAmount] *)
Definition outputAmountOf (quote : QuoteRes) : option Q :=
  match q_amountOut quote with
  | Some a => Some a
  | None => q_outTokenAmount quote
  end.

(** [result.success = true; result.amountOut = ...; result.transactionId = ...] *)
Definition markSuccess (result : TradeResult) (out : Q) (id : string)
  : TradeResult :=
  {| success := true;
     fromToken := fromToken result;
     toToken := toToken result;
     amountIn := amountIn result;
     amountOut := Some out;
     transactionId := Some id;
     error := error result;
     timestamp := timestamp result |}.

(** [result.error = ...] *)
Definition markError (result : TradeResult) (e : string) : TradeResult :=
  {| success := success result;
     fromToken := fromToken result;
     toToken := toToken result;
     amountIn := amountIn result;
     amountOut := amountOut result;
     transactionId := transactionId result;
     error := Some e;
     timestamp := timestamp result |}.

(** The body of the [try] block of [executeTrade] from the quote on,
    [poolFee] being known; it yields [result] as the block leaves it.
    The gateway is handed [amount.toString()] and [minOutput.toString()];
    the output of the quote is a [BigNumber], read as a number by
    [parseFloat(outputAmount.toString())], and [minOutput] is computed on
    numbers. *)
Definition quoteAndSubmit (result : TradeResult) (src dst : string) (amount : Q)
    (poolFee : N) : M TradeResult :=
  let exactIn := Double.toString amount in
  answer <- call (fun t => quoteExactInput world t src dst exactIn poolFee)
                 (QuoteExactInput src dst exactIn poolFee) ;;
  match answer with
  | Js.Throw e => throw ("Unable to get quote: " ++ e)
  | Js.Ok quote =>
      match outputAmountOf quote with
      | None => throw "Unable to get quote for trade"
      | Some outputAmount =>
          let expectedOutput := Qabs (Double.parseFloat outputAmount) in
          let minOutput :=
            Double.mul expectedOutput
              (Double.sub 1 (Double.div (maxSlippage config) 100)) in
          let amountOutMinimum := Double.toString minOutput in
          isConnected <- call (eventSocketConnected world)
                              (fun _ => EventSocketConnected) ;;
          (if (isConnected : bool) then ret tt
           else r <- call (connectEventSocket world) (fun _ => ConnectEventSocket) ;;
                liftResult r) ;;
          submitted <- call (fun t => swap world t src dst poolFee exactIn
                                        amountOutMinimum (walletAddress config))
                            (fun _ => Swap src dst poolFee exactIn
                                        amountOutMinimum (walletAddress config)) ;;
          pendingTx <- liftResult submitted ;;
          waited <- call (fun t => wait world t pendingTx) (fun _ => Wait pendingTx) ;;
          match waited with
          | Js.Ok _ => ret (markSuccess result expectedOutput pendingTx)
          | Js.Throw e => ret (markError result e)
          end
      end
  end.

(** The body of the [try] block of [executeTrade]. *)
Definition executeLive (result : TradeResult) (src dst : string) (amount : Q)
    (fee : option N) : M TradeResult :=
  poolFee <- choosePoolFee src dst fee ;;
  quoteAndSubmit result src dst amount poolFee.

Definition executeTrade (src dst : string) (amount : Q) (fee : option N)
  : M TradeResult :=
  created <- readTrace (dateNow world) ;;
  let result := {| success := false; fromToken := src; toToken := dst;
                   amountIn := amount; amountOut := None;
                   transactionId := None; error := None;
                   timestamp := created |} in
  if negb (enableTrading config) then
    now <- readTrace (dateNow world) ;;
    let result := markSuccess result (amount * 0.98)
                    ("mock-tx-" ++ string_of_Z now) in
    pushHistory result ;;
    ret result
  else
    outcome <- attempt (executeLive result src dst amount fee) ;;
    let result := match outcome with
                  | Js.Ok r => r
                  | Js.Throw e => markError result e
                  end in
    pushHistory result ;;
    ret result.

(** [id || 'unknown'] inside the identifier of a two-hop trade. *)
Definition idOrUnknown (id : option string) : string := Js.or_str id "unknown".

(** One two-hop candidate [path] of [executeMultiHopTrade]: [None] when
    the loop goes on with the next path. *)
Definition tryPath (src dst : string) (amount : Q) (path : list string)
  : M (option TradeResult) :=
  match path with
  | [token0; intermediate; token1] =>
      if String.eqb token0 "" || String.eqb intermediate ""
         || String.eqb token1 ""
      then ret None
      else
        firstResult <- executeTrade token0 intermediate amount None ;;
        if negb (success firstResult) || negb (Js.truthy_num (amountOut firstResult))
        then ret None
        else
          let hopAmount := default 0 (amountOut firstResult) in
          secondResult <- executeTrade intermediate token1 hopAmount None ;;
          if success secondResult && Js.truthy_num (amountOut secondResult)
          then
            now <- readTrace (dateNow world) ;;
            ret (Some {| success := true; fromToken := src; toToken := dst;
                         amountIn := amount;
                         amountOut := amountOut secondResult;
                         transactionId :=
                           Some ("multi-hop-"
                                 ++ idOrUnknown (transactionId firstResult) ++ "-"
                                 ++ idOrUnknown (transactionId secondResult))%string;
                         error := None;
                         timestamp := now |})
          else ret None
  | _ => ret None
  end.

Fixpoint tryPaths (src dst : string) (amount : Q) (paths : list (list string))
  : M TradeResult :=
  match paths with
  | [] => throw ("All trading paths failed for " ++ src ++ " -> " ++ dst)
  | path :: rest =>
      outcome <- attempt (tryPath src dst amount path) ;;
      match outcome with
      | Js.Ok (Some combined) => ret combined
      | _ => tryPaths src dst amount rest
      end
  end.

(** The second half of [executeMultiHopTrade], entered when the direct
    trade did not succeed. *)
Definition tryRegistryPaths (src dst : string) (amount : Q) : M TradeResult :=
  match findTradingPaths world src dst with
  | [] => throw ("No trading path found from " ++ src ++ " to " ++ dst)
  | paths => tryPaths src dst amount paths
  end.

Definition executeMultiHopTrade (src dst : string) (amount : Q) : M TradeResult :=
  direct <- attempt (executeTrade src dst amount None) ;;
  match direct with
  | Js.Ok directResult =>
      if success directResult then ret directResult
      else tryRegistryPaths src dst amount
  | Js.Throw _ => tryRegistryPaths src dst amount
  end.

(** The comparator of [executeTradesForPreferredToken]: trades into the
    gas token first. *)
Definition byPriority (a b : BalanceManager.Trade) : Q :=
  let toGala (t : BalanceManager.Trade) :=
    String.eqb (BalanceManager.targetToken t) (galaTokenKey config) in
  if toGala a && negb (toGala b) then -1
  else if toGala b && negb (toGala a) then 1
  else 0.

(** The loop of [executeTradesForPreferredToken] over the sorted trades.
    [remaining] holds the trades from the current one on.  The trades of
    one batch are distinct objects, so that [trades.indexOf(trade)] is
    the position of the current trade and the delay follows every trade
    but the last. *)
Fixpoint runTrades (remaining : list BalanceManager.Trade)
    (results : list TradeResult) : M (list TradeResult) :=
  match remaining with
  | [] => ret results
  | trade :: rest =>
      if negb (enableTrading config) then runTrades rest results
      else
        result <- executeMultiHopTrade
                    (BalanceManager.tokenKey (BalanceManager.token trade))
                    (BalanceManager.targetToken trade)
                    (BalanceManager.amount trade) ;;
        (match rest with
         | [] => ret tt
         | _ :: _ => _ <- call (fun _ => tt) (fun _ => Sleep 5000) ;; ret tt
         end) ;;
        runTrades rest (results ++ [result])
  end.

Definition executeTradesForPreferredToken (trades : list BalanceManager.Trade)
  : M (list TradeResult) :=
  runTrades (Js.sort byPriority trades) [].

Definition getTradeHistory : M (list TradeResult) :=
  fun s => (Js.Ok (tradeHistory s), s).

End Strategy.

End TradingStrategy.

(** ** pool-data-manager.ts: the snapshot cache *)

Module PoolDataManager.

Record CachedPool : Type := {
  data : PoolData;
  expiresAt : Z
}.

(** A request to the gateway ([axios.post] on the composite-pool URL). *)
Record Request : Type := {
  req_token0 : string;
  req_token1 : string;
  req_fee : N
}.

(** The manager: its cache and time to live, the requests sent so far,
    and the number of [PoolData] objects created so far (the identity of
    the next one). *)
Record Manager : Type := {
  poolCache : gmap string CachedPool;
  cacheTTL : Z;
  posted : list Request;
  allocated : nat
}.

(** [new PoolDataManager(url, cacheTTL)]: a missing or zero [cacheTTL]
    leaves the default of 60 seconds. *)
Definition create (ttl : option Z) : Manager :=
  {| poolCache := ∅;
     cacheTTL := match ttl with
                 | Some t => if Z.eqb t 0 then 60000%Z else t
                 | None => 60000%Z
                 end;
     posted := [];
     allocated := 0 |}.

Definition getCacheKey (token0 token1 : string) (fee : N) : string :=
  let '(t0, t1) := if String.ltb token0 token1
                   then (token0, token1) else (token1, token0) in
  (t0 ++ "|" ++ t1 ++ "|" ++ string_of_N fee)%string.

(** The three readings of the clock during one [getCompositePoolData]:
    at the validity test, when the response is turned into a [PoolData]
    ([lastUpdated]) and when the entry is stored ([expiresAt]). *)
Record Clock : Type := {
  atCheck : Z;
  atResponse : Z;
  atStore : Z
}.

Section Transport.

(** The gateway: from the requests sent before and the present one to
    the [Data] field of the response (its liquidity is what the
    embedding keeps), [None] when the field is missing, [Throw] on a
    failure of the transport. *)
Variable post : list Request -> Request -> Js.result (option Q).

Definition fetchCompositePoolData (m : Manager) (token0Key token1Key : string)
    (fee : N) (clock : Clock) : Js.result PoolData * Manager :=
  match OfflineQuote.parseTokenKey token0Key with
  | Js.Throw e => (Js.Throw e, m)
  | Js.Ok _ =>
  match OfflineQuote.parseTokenKey token1Key with
  | Js.Throw e => (Js.Throw e, m)
  | Js.Ok _ =>
      let request := {| req_token0 := token0Key; req_token1 := token1Key;
                        req_fee := fee |} in
      let m' := {| poolCache := poolCache m; cacheTTL := cacheTTL m;
                   posted := posted m ++ [request];
                   allocated := allocated m |} in
      match post (posted m) request with
      | Js.Throw e => (Js.Throw e, m')
      | Js.Ok None =>
          (Js.Throw ("No composite pool data returned for " ++ token0Key ++ "/"
                     ++ token1Key ++ " fee " ++ string_of_N fee), m')
      | Js.Ok (Some l) =>
          (Js.Ok {| token0 := token0Key; token1 := token1Key; fee := fee;
                    liquidity := l; lastUpdated := atResponse clock;
                    ref := allocated m |},
           {| poolCache := poolCache m; cacheTTL := cacheTTL m;
              posted := posted m ++ [request];
              allocated := S (allocated m) |})
      end
  end end.

(** The miss path of [getCompositePoolData]: fetch, then store the
    snapshot with its absolute expiry. *)
Definition fetchAndCache (m : Manager) (cacheKey token0Key token1Key : string)
    (fee : N) (clock : Clock) : Js.result PoolData * Manager :=
  match fetchCompositePoolData m token0Key token1Key fee clock with
  | (Js.Throw e, m') => (Js.Throw e, m')
  | (Js.Ok poolData, m') =>
      (Js.Ok poolData,
       {| poolCache := <[cacheKey := {| data := poolData;
                                       expiresAt := atStore clock + cacheTTL m' |}]>
                         (poolCache m');
          cacheTTL := cacheTTL m'; posted := posted m';
          allocated := allocated m' |})
  end.

Definition getCompositePoolData (m : Manager) (token0Key token1Key : string)
    (fee : N) (clock : Clock) : Js.result PoolData * Manager :=
  let cacheKey := getCacheKey token0Key token1Key fee in
  match poolCache m !! cacheKey with
  | Some cached =>
      if Z.ltb (atCheck clock) (expiresAt cached) then (Js.Ok (data cached), m)
      else fetchAndCache m cacheKey token0Key token1Key fee clock
  | None => fetchAndCache m cacheKey token0Key token1Key fee clock
  end.

(** One [get] of a sequence: the arguments and the clock readings. *)
Record Get : Type := {
  get_token0 : string;
  get_token1 : string;
  get_fee : N;
  get_clock : Clock
}.

(** A sequence of [getCompositePoolData] calls, one after the other
    (as [preloadKnownPools] awaits them); a call that throws leaves the
    manager as the failed fetch left it. *)
Definition getAll (m : Manager) (calls : list Get) : Manager :=
  fold_left (fun m g =>
               snd (getCompositePoolData m (get_token0 g) (get_token1 g)
                      (get_fee g) (get_clock g)))
    calls m.

End Transport.

Definition clearExpiredCache (m : Manager) (now : Z) : Manager :=
  {| poolCache := filter (fun kv => negb (Z.leb (expiresAt (snd kv)) now)) (poolCache m);
     cacheTTL := cacheTTL m; posted := posted m; allocated := allocated m |}.

Definition clearAllCache (m : Manager) : Manager :=
  {| poolCache := ∅; cacheTTL := cacheTTL m; posted := posted m;
     allocated := allocated m |}.

End PoolDataManager.

(** ** The arithmetic of the scenarios in binary64

    The numbers of JavaScript are IEEE 754 binary64 floats.  The functions
    below repeat, on such floats, the arithmetic that decides the scenarios
    of the specification, so that the values found on rationals can be
    compared with those that the program computes. *)

Module Binary64.
Open Scope float_scope.
#[local] Set Warnings "-inexact-float".

Definition canTradeExcessGala (minimumGalaBalance galaTokenBalance : float) : bool :=
  PrimFloat.ltb (minimumGalaBalance * 2) galaTokenBalance.

Definition calculateTradeAmount (minimumGalaBalance tradeAmountPercentage
    tokenBalance : float) (isGala : bool) : float :=
  if isGala then
    let excess := tokenBalance - minimumGalaBalance in
    if PrimFloat.leb excess 0 then 0
    else excess * (tradeAmountPercentage / 100) * 0.5
  else
    let amount := tokenBalance * (tradeAmountPercentage / 100) in
    if PrimFloat.ltb 0.000001 amount then amount else 0.

Definition minOutput (expectedOutput maxSlippage : float) : float :=
  expectedOutput * (1 - maxSlippage / 100).

Definition netProfit (expectedOutputAmount inputAmount hops : float) : float :=
  (expectedOutputAmount - inputAmount) - 0.5 * hops.

End Binary64.

(** ** The numbers of [Double] and the floats of the kernel

    The kernel of Rocq computes on binary64 floats.  The definitions
    below state, for pairs of integers below 2^53, that [Double.round]
    and the operations of [Double] give the numbers that the kernel
    gives, and that [Double.toString] reads back. *)

Module DoubleCheck.

(** The rational that a finite float is. *)
Definition valueOf (f : float) : option Q :=
  match Prim2SF f with
  | S754_zero _ => Some 0
  | S754_finite negative m e =>
      Some (Qred ((if negative then -1 else 1) * inject_Z (Zpos m) * Double.pow2 e))
  | _ => None
  end.

(** The float that an integer below 2^53 is. *)
Definition ofZ (n : Z) : float := PrimFloat.of_uint63 (Uint63.of_Z n).

Definition sameNumber (f : float) (q : Q) : bool :=
  match valueOf f with
  | Some v => Qeq_bool v q
  | None => false
  end.

(** [n / d] on floats is [Double.round] of the quotient. *)
Definition agreesOnQuotient (p : Z * Z) : bool :=
  let '(n, d) := p in
  sameNumber (PrimFloat.div (ofZ n) (ofZ d)) (Double.round (n # Z.to_pos d)).

(** The four operations on the floats [a = n / d] and [b = d / (n + 7)]. *)
Definition agreesOnOperations (p : Z * Z) : bool :=
  let '(n, d) := p in
  let a := PrimFloat.div (ofZ n) (ofZ d) in
  let b := PrimFloat.div (ofZ d) (ofZ (n + 7)) in
  match valueOf a, valueOf b with
  | Some x, Some y =>
      sameNumber (PrimFloat.add a b) (Double.add x y)
      && sameNumber (PrimFloat.sub a b) (Double.sub x y)
      && sameNumber (PrimFloat.mul a b) (Double.mul x y)
      && sameNumber (PrimFloat.div a b) (Double.div x y)
  | _, _ => false
  end.

(** The decimal that [toString] writes reads back as the number. *)
Definition readsBack (p : Z * Z) : bool :=
  let '(n, d) := p in
  let x := Double.round (n # Z.to_pos d) in
  Qeq_bool (Double.parseFloat (Double.toString x)) x.

Definition samples : list (Z * Z) :=
  [
    (7797914500801902, 7717934081064488); (947, 4194202128607238);
    (4574228010190967, 876); (615918, 1000);
    (7240890452403833, 4285292933312963); (645, 7142503185410030);
    (847788689134630, 458); (318140, 100);
    (4852119432998694, 8019836995427648); (711, 377225407594339);
    (8846810553419468, 406); (475000, 10000000000);
    (5544496715110228, 1418583245262137); (639, 7491299201980037);
    (568939407212215, 61); (37385, 1000);
    (2179231528987536, 270959177142822); (797, 2938987983693999);
    (5322888005985721, 863); (204810, 100000000);
    (5767235843928903, 4501556486308981); (5, 765512046234352);
    (5897928364495416, 285); (426539, 100000000);
    (8391876451607987, 749432452177371); (725, 2839764747537576);
    (2068648483857091, 526); (303081, 1);
    (5072330908379841, 972121893990769); (411, 7625345529871333);
    (3481402955308212, 69); (17711, 10000000000000);
    (4907794264303, 1888966188469216); (950, 471282081043680);
    (3381872152352265, 726); (416730, 1000000);
    (5100252502860821, 1787838675023106); (798, 2429923596097779);
    (784923900156910, 319); (348742, 1);
    (3693414022230777, 8312272507040101); (121, 2219261719538201);
    (910145261338799, 12); (62803, 10000000);
    (4384915924294175, 6143607882666057); (573, 4030041637390259);
    (1717533837427045, 750); (806903, 100)
  ]%Z.

End DoubleCheck.

(** ** Scenarios of the specification *)

Module Scenario.
Import BalanceManager.

Definition key (sym : string) : string := (sym ++ "|Unit|none|none")%string.

(** Preferred SILK, gas GALA, floor 100, 10 percent, slippage 5. *)
Definition config (trading : bool) : BotConfig :=
  {| preferredTokenKey := key "SILK";
     galaTokenKey := key "GALA";
     minimumGalaBalance := 100;
     maxSlippage := 5;
     tradeAmountPercentage := 10;
     walletAddress := "eth|0000";
     enableTrading := trading;
     arbitrageMinProfitPercent := 1 |}.

Definition holding (sym : string) (q : Q) : TokenBalance :=
  {| tokenKey := key sym; symbol := sym; quantity := q; decimals := 8 |}.

(** Inventory [{GALA:150, SILK:0, GUSDC:50}]. *)
Definition dcaBalance : BalanceSummary :=
  {| preferredTokenBalance := 0;
     galaTokenBalance := 150;
     otherTokens := [holding "GUSDC" 50];
     totalTokens := 3 |}.

(** Inventory [{GALA:40, SILK:0, GUSDC:50, GWBTC:0.0001}]. *)
Definition starvedBalance : BalanceSummary :=
  {| preferredTokenBalance := 0;
     galaTokenBalance := 40;
     otherTokens := [holding "GUSDC" 50; holding "GWBTC" 0.0001];
     totalTokens := 4 |}.

(** Preferred token and gas token are both GALA. *)
Definition galaOnlyConfig : BotConfig :=
  {| preferredTokenKey := key "GALA";
     galaTokenKey := key "GALA";
     minimumGalaBalance := 100;
     maxSlippage := 5;
     tradeAmountPercentage := 10;
     walletAddress := "eth|0000";
     enableTrading := false;
     arbitrageMinProfitPercent := 1 |}.

Definition richBalance : BalanceSummary :=
  {| preferredTokenBalance := 500;
     galaTokenBalance := 500;
     otherTokens := [holding "GUSDC" 50];
     totalTokens := 2 |}.



(** An asset as the gateway lists it, with a nested [tokenClassKey]. *)
Definition asset (sym : string) (q : Q) : AssetToken :=
  {| asset_tokenClassKey :=
       Some {| collection := Some sym; category := Some "Unit"%string;
               type := Some "none"%string; additionalKey := Some "none"%string |};
     asset_tokenClass := None;
     asset_flat := {| collection := None; category := None; type := None;
                      additionalKey := None |};
     asset_symbol := Some sym;
     asset_decimals := Some 8;
     asset_quantity := q |}.

Definition galaOnlyAssets : UserAssets :=
  {| tokens := [asset "GUSDC" 50; asset "GALA" 321; asset "GWBTC" 0.0001];
     count := 3 |}.

(** A snapshot of the pool of [a] and [b] at the fee [f], with its
    liquidity, its time and its identity. *)
Definition snapshot (a b : string) (f : N) (l : Q) (u : Z) (r : nat) : PoolData :=
  {| token0 := key a; token1 := key b; fee := f; liquidity := l;
     lastUpdated := u; ref := r |}.

Definition poolOf (a b : string) (f : N) (r : nat) : PoolData :=
  snapshot a b f 5000 0 r.

(** The pool graph [(A,B,500), (A,B,3000), (B,C,3000), (C,A,10000)] made
    of four given snapshots. *)
Definition cycleGraph (ab500 ab3000 bc3000 ca10000 : Q * Z * nat) : list PoolData :=
  let mk a b f (x : Q * Z * nat) := snapshot a b f (fst (fst x)) (snd (fst x)) (snd x) in
  [mk "A" "B" 500%N ab500; mk "A" "B" 3000%N ab3000;
   mk "B" "C" 3000%N bc3000; mk "C" "A" 10000%N ca10000].

(** The same with a liquidity of 5000 everywhere, above the default filter
    of 1000, and each snapshot its own object. *)
Definition cyclePools : list PoolData :=
  cycleGraph (5000, 0%Z, 0%nat) (5000, 0%Z, 1%nat) (5000, 0%Z, 2%nat) (5000, 0%Z, 3%nat).

Definition cyclePaths : list CircularPathFinder.CircularPath :=
  CircularPathFinder.findCircularPaths (key "A") 3 cyclePools 1000.

(** The number of hops, the tokens and the fee tiers along a path. *)
Definition route (p : CircularPathFinder.CircularPath) : nat * list string * list N :=
  (CircularPathFinder.hops p, CircularPathFinder.tokens p, CircularPathFinder.fees p).

Definition withHops (n : nat) (paths : list CircularPathFinder.CircularPath)
  : list CircularPathFinder.CircularPath :=
  List.filter (fun p => Nat.eqb (CircularPathFinder.hops p) n) paths.

(** The six routes through the pool graph from A: the 2-cycle by either
    order of the two A-B pools, and the two 3-cycles by either A-B pool. *)
Definition cycleRoutes : list (nat * list string * list N) :=
  [ (2%nat, [key "A"; key "B"; key "A"], [500; 3000]%N);
    (2%nat, [key "A"; key "B"; key "A"], [3000; 500]%N);
    (3%nat, [key "A"; key "B"; key "C"; key "A"], [500; 3000; 10000]%N);
    (3%nat, [key "A"; key "B"; key "C"; key "A"], [3000; 3000; 10000]%N);
    (3%nat, [key "A"; key "C"; key "B"; key "A"], [10000; 3000; 500]%N);
    (3%nat, [key "A"; key "C"; key "B"; key "A"], [10000; 3000; 3000]%N) ].

(** Three pools [(A,B,3000), (B,C,3000), (C,A,3000)] and the 3-hop path
    through them. *)
Definition trianglePath : CircularPathFinder.CircularPath :=
  {| CircularPathFinder.tokens := [key "A"; key "B"; key "C"; key "A"];
     CircularPathFinder.pools :=
       [poolOf "A" "B" 3000 0; poolOf "B" "C" 3000 1; poolOf "C" "A" 3000 2];
     CircularPathFinder.fees := [3000; 3000; 3000]%N;
     CircularPathFinder.hops := 3 |}.

(** Snapshots chosen so that 100 A become 101.5 A: the first pool pays
    1.01 per unit, the second 1, the third 203/202.  As in the SDK, the
    amount that leaves the pool is negative. *)
Definition triangleRate (p : PoolData) : Q :=
  match ref p with
  | O => 1.01
  | 1%nat => 1
  | _ => 203 # 202
  end.

Definition triangleQuote (p : PoolData) (amount : Q) (zeroForOne : bool)
  : Js.result OfflineQuote.QuoteExactAmountRes :=
  let out := - (amount * triangleRate p) in
  Js.Ok {| OfflineQuote.amount0 := if zeroForOne then amount else out;
           OfflineQuote.amount1 := if zeroForOne then out else amount;
           OfflineQuote.sdk_currentSqrtPrice := 1;
           OfflineQuote.sdk_newSqrtPrice := 1 |}.



(** A gateway for the slippage scenario: only the 0.30 percent pool has
    liquidity, every quote answers 100, the event socket is connected,
    the submission is accepted as [tx-1] and completes. *)
Definition calmWorld : TradingStrategy.World :=
  {| TradingStrategy.dateNow := fun _ => 1700000000000%Z;
     TradingStrategy.getPoolData := fun _ _ _ fee =>
       if N.eqb fee 3000
       then Js.Ok {| TradingStrategy.pd_liquidity := Some 1000000;
                     TradingStrategy.pd_sqrtPrice := Some 1 |}
       else Js.Throw "pool not found";
     TradingStrategy.quoteExactInput := fun _ _ _ _ _ =>
       Js.Ok {| TradingStrategy.q_amountOut := None;
                TradingStrategy.q_outTokenAmount := Some 100 |};
     TradingStrategy.eventSocketConnected := fun _ => true;
     TradingStrategy.connectEventSocket := fun _ => Js.Ok tt;
     TradingStrategy.swap := fun _ _ _ _ _ _ _ => Js.Ok "tx-1"%string;
     TradingStrategy.wait := fun _ _ => Js.Ok tt;
     TradingStrategy.findTradingPaths := fun _ _ => [] |}.

(** The same gateway with every quote answering [out]. *)
Definition quotingWorld (out : Q) : TradingStrategy.World :=
  {| TradingStrategy.dateNow := TradingStrategy.dateNow calmWorld;
     TradingStrategy.getPoolData := TradingStrategy.getPoolData calmWorld;
     TradingStrategy.quoteExactInput := fun _ _ _ _ _ =>
       Js.Ok {| TradingStrategy.q_amountOut := Some out;
                TradingStrategy.q_outTokenAmount := None |};
     TradingStrategy.eventSocketConnected :=
       TradingStrategy.eventSocketConnected calmWorld;
     TradingStrategy.connectEventSocket :=
       TradingStrategy.connectEventSocket calmWorld;
     TradingStrategy.swap := TradingStrategy.swap calmWorld;
     TradingStrategy.wait := TradingStrategy.wait calmWorld;
     TradingStrategy.findTradingPaths := TradingStrategy.findTradingPaths calmWorld |}.

Definition idle : TradingStrategy.State :=
  {| TradingStrategy.tradeHistory := []; TradingStrategy.trace := [] |}.

(** The [amountOutMinimum] of the submissions in a trace, in lowest
    terms. *)
Definition minimums (tr : list TradingStrategy.Event) : list Q :=
  flat_map (fun e => match e with
                     | TradingStrategy.Swap _ _ _ _ m _ => [Qred m]
                     | _ => []
                     end) tr.

(** A gateway that knows every pool, and three [get]s of the A-B pool at
    0.30 percent: at time 0, at time 10 with the tokens swapped, and at
    time 59999, just before the entry of the first one expires. *)
Definition openGateway (_ : list PoolDataManager.Request)
    (_ : PoolDataManager.Request) : Js.result (option Q) :=
  Js.Ok (Some 5000).

Definition getAt (a b : string) (t : Z) : PoolDataManager.Get :=
  {| PoolDataManager.get_token0 := key a;
     PoolDataManager.get_token1 := key b;
     PoolDataManager.get_fee := 3000;
     PoolDataManager.get_clock :=
       {| PoolDataManager.atCheck := t; PoolDataManager.atResponse := t;
          PoolDataManager.atStore := t |} |}.

(** What a trade says, with its amount in lowest terms. *)
Definition view (t : Trade) : string * string * Q :=
  (tokenKey (token t), targetToken t, Qred (amount t)).

End Scenario.

(** ** Predicates used in the statements *)

Module Predicates.
Import BalanceManager.

(** The invariant of a balance summary (section 3 of the specification):
    [otherTokens] holds neither the preferred nor the gas token. *)
Definition othersExcludeReserved (config : BotConfig) (balance : BalanceSummary)
  : Prop :=
  Forall (fun tk => tokenKey tk <> preferredTokenKey config
                    /\ tokenKey tk <> galaTokenKey config)
    (otherTokens balance).

(** Fewer hops first, then earlier detection: the order in which the
    detector evaluates the paths. *)
Definition detectedBefore (a b : ProfitCalculator.ArbitrageOpportunity) : Prop :=
  (CircularPathFinder.hops (ProfitCalculator.path a)
   < CircularPathFinder.hops (ProfitCalculator.path b))%nat
  \/ (CircularPathFinder.hops (ProfitCalculator.path a)
      = CircularPathFinder.hops (ProfitCalculator.path b)
      /\ (ProfitCalculator.timestamp a <= ProfitCalculator.timestamp b)%Z).

(** The order that the specification asks of the ranked opportunities:
    descending profit percentage, ties broken by fewer hops and then by
    earlier detection. *)
Definition rankedBefore (a b : ProfitCalculator.ArbitrageOpportunity) : Prop :=
  ProfitCalculator.profitPercentage b < ProfitCalculator.profitPercentage a
  \/ (ProfitCalculator.profitPercentage a == ProfitCalculator.profitPercentage b
      /\ detectedBefore a b).

(** The opportunities whose profit percentage is [v]. *)
Definition withPercentage (v : Q) (l : list ProfitCalculator.ArbitrageOpportunity)
  : list ProfitCalculator.ArbitrageOpportunity :=
  List.filter (fun o => Qeq_bool (ProfitCalculator.profitPercentage o) v) l.

(** *** Submissions and their quotes

    The minimum output that goes with an expected output: the product
    [expectedOutput * (1 - maxSlippage / 100)] on numbers, each operation
    rounded, as [toString] prints it. *)
Definition minimumOutput (config : BotConfig) (expectedOutput : Q) : Q :=
  Double.toString
    (Double.mul expectedOutput (Double.sub 1 (Double.div (maxSlippage config) 100))).

(** A trace is read from left to right by a monitor that remembers the
    last quote ([Pending]) for as long as only calls about the event
    socket follow it; [quotedOutput] is the expected output, the output
    of the quote read as a number, in absolute value.  A submission is
    accepted when it is for the quoted pair, amount and fee, from the
    configured wallet, and carries as [amountOutMinimum] the minimum
    output that goes with the expected output. *)
Record Pending : Type := {
  quotedFrom : string;
  quotedTo : string;
  quotedAmount : Q;
  quotedFee : N;
  quotedOutput : Q
}.

Definition monitor (p : option Pending) (e : TradingStrategy.Event)
  : option Pending :=
  match e with
  | TradingStrategy.QuoteExactInput src dst amount fee (Js.Ok quote) =>
      match TradingStrategy.outputAmountOf quote with
      | Some out => Some {| quotedFrom := src; quotedTo := dst;
                            quotedAmount := amount; quotedFee := fee;
                            quotedOutput := Qabs (Double.parseFloat out) |}
      | None => None
      end
  | TradingStrategy.EventSocketConnected => p
  | TradingStrategy.ConnectEventSocket => p
  | _ => None
  end.

Definition accepted (config : BotConfig) (p : option Pending)
    (e : TradingStrategy.Event) : Prop :=
  match e with
  | TradingStrategy.Swap src dst fee exactIn amountOutMinimum wallet =>
      match p with
      | Some q =>
          src = quotedFrom q /\ dst = quotedTo q /\ exactIn = quotedAmount q
          /\ fee = quotedFee q /\ wallet = walletAddress config
          /\ amountOutMinimum = minimumOutput config (quotedOutput q)
      | None => False
      end
  | _ => True
  end.

Fixpoint wellQuoted (config : BotConfig) (p : option Pending)
    (tr : list TradingStrategy.Event) : Prop :=
  match tr with
  | [] => True
  | e :: rest => accepted config p e /\ wellQuoted config (monitor p e) rest
  end.

(** The events of an operation that quotes before it submits: they are
    accepted whatever happened before the operation. *)
Definition selfQuoted (config : BotConfig) (tr : list TradingStrategy.Event) : Prop :=
  forall p, wellQuoted config p tr.

Definition isSocketCall (e : TradingStrategy.Event) : bool :=
  match e with
  | TradingStrategy.EventSocketConnected => true
  | TradingStrategy.ConnectEventSocket => true
  | _ => false
  end.

(** The same, said of the trace itself: before every submission comes,
    separated from it by calls about the event socket only, an answered
    quote for the same pair, amount and fee, and the submission carries as
    [amountOutMinimum] the minimum output that goes with the output of
    the quote, read as a number and in absolute value. *)
Definition slippageBounded (config : BotConfig) (evs : list TradingStrategy.Event)
  : Prop :=
  forall pre src dst fee exactIn amountOutMinimum wallet post,
    evs = pre ++ TradingStrategy.Swap src dst fee exactIn amountOutMinimum wallet
                 :: post ->
    exists before quote out socket,
      pre = before
            ++ TradingStrategy.QuoteExactInput src dst exactIn fee (Js.Ok quote)
            :: socket
      /\ forallb isSocketCall socket = true
      /\ TradingStrategy.outputAmountOf quote = Some out
      /\ amountOutMinimum = minimumOutput config (Qabs (Double.parseFloat out)).

(** The synthetic success of a dry run, made at the time [now]. *)
Definition mockResult (src dst : string) (amount : Q) (now : Z)
  : TradingStrategy.TradeResult :=
  {| TradingStrategy.success := true;
     TradingStrategy.fromToken := src;
     TradingStrategy.toToken := dst;
     TradingStrategy.amountIn := amount;
     TradingStrategy.amountOut := Some (amount * 0.98);
     TradingStrategy.transactionId := Some ("mock-tx-" ++ string_of_Z now)%string;
     TradingStrategy.error := None;
     TradingStrategy.timestamp := now |}.


(** An operation of the trading strategy whose events, appended to the
    trace, are [selfQuoted]. *)
Definition quotesFirst {A : Type} (config : BotConfig) (m : TradingStrategy.M A)
  : Prop :=
  forall s, exists evs,
    TradingStrategy.trace (snd (m s)) = TradingStrategy.trace s ++ evs
    /\ selfQuoted config evs.

Definition isSwap (e : TradingStrategy.Event) : bool :=
  match e with
  | TradingStrategy.Swap _ _ _ _ _ _ => true
  | _ => false
  end.

(** A [get] that addresses the cache entry [k] while the entry [e] is
    valid, that is before its absolute expiry. *)
Definition keyOf (g : PoolDataManager.Get) : string :=
  PoolDataManager.getCacheKey (PoolDataManager.get_token0 g)
    (PoolDataManager.get_token1 g) (PoolDataManager.get_fee g).

Definition duringWindow (k : string) (e : PoolDataManager.CachedPool)
    (g : PoolDataManager.Get) : Prop :=
  keyOf g = k
  /\ (PoolDataManager.atCheck (PoolDataManager.get_clock g)
      < PoolDataManager.expiresAt e)%Z.


End Predicates.

(** ** Shapes of circular paths *)

Module PathShape.
Import CircularPathFinder.

(** The edges that the pool [p] adds to the adjacency list of [t]: one to
    [token1] when [t] is its [token0], then one to [token0] when [t] is
    its [token1]. *)
Definition edgesAt (t : string) (p : PoolData) : list Edge :=
  (if String.eqb (token0 p) t then [ {| token := token1 p; pool := p |} ] else [])
  ++ (if String.eqb (token1 p) t then [ {| token := token0 p; pool := p |} ] else []).

(** [p] is a pool of the two tokens [a] and [b], in either order. *)
Definition connects (p : PoolData) (a b : string) : Prop :=
  (token0 p = a /\ token1 p = b) \/ (token0 p = b /\ token1 p = a).

(** The [i]-th pool is a pool of the [i]-th and the next token, and
    there is one pool for each hop. *)
Fixpoint hopsConnect (tokens : list string) (pools : list PoolData) : Prop :=
  match tokens, pools with
  | [_], [] => True
  | a :: ((b :: _) as rest), p :: ps => connects p a b /\ hopsConnect rest ps
  | _, _ => False
  end.

(** A cycle through every token once: in a cycle of two hops the two
    pools are two objects, in a longer one no token but the base occurs
    twice. *)
Definition simple (c : CircularPath) : Prop :=
  match pools c with
  | [p; q] => ref p <> ref q
  | _ => List.NoDup (removelast (tokens c))
  end.

(** A cycle from [baseToken] back to it, over liquid pools of
    [availablePools]. *)
Definition cycleOver (baseToken : string) (availablePools : list PoolData)
    (minLiquidity : Q) (c : CircularPath) : Prop :=
  head (tokens c) = Some baseToken
  /\ last (tokens c) = Some baseToken
  /\ length (tokens c) = S (hops c)
  /\ fees c = map fee (pools c)
  /\ hopsConnect (tokens c) (pools c)
  /\ Forall (fun p => In p availablePools /\ minLiquidity < liquidity p) (pools c).

End PathShape.

(** ** The life of a pool cache *)

Module PoolCacheUse.
Import PoolDataManager.

(** What the detector does to its pool manager: a [getCompositePoolData],
    a [clearExpiredCache] at some time, or a [clearAllCache]. *)
Inductive Op : Type :=
| GetPool (g : Get)
| ClearExpired (now : Z)
| ClearAll.

Section Transport.

Variable post : list Request -> Request -> Js.result (option Q).

Definition step (m : Manager) (op : Op) : Manager :=
  match op with
  | GetPool g =>
      snd (getCompositePoolData post m (get_token0 g) (get_token1 g)
             (get_fee g) (get_clock g))
  | ClearExpired now => clearExpiredCache m now
  | ClearAll => clearAllCache m
  end.

Definition run (m : Manager) (ops : list Op) : Manager := fold_left step ops m.

End Transport.

(** The entry under the key of a pair and fee is valid at the time [t]. *)
Definition validAt (m : Manager) (token0Key token1Key : string) (fee : N) (t : Z)
  : bool :=
  match poolCache m !! getCacheKey token0Key token1Key fee with
  | Some cached => Z.ltb t (expiresAt cached)
  | None => false
  end.

(** The request that a [get] sends. *)
Definition requestOf (token0Key token1Key : string) (fee : N) : Request :=
  {| req_token0 := token0Key; req_token1 := token1Key; req_fee := fee |}.

(** Two entries of the cache never hold the same object, and every cached
    object was created by this manager. *)
Definition distinctObjects (m : Manager) : Prop :=
  (forall k e, poolCache m !! k = Some e -> (ref (data e) < allocated m)%nat)
  /\ (forall k1 k2 e1 e2,
        poolCache m !! k1 = Some e1 -> poolCache m !! k2 = Some e2 ->
        ref (data e1) = ref (data e2) -> k1 = k2).

(** Every entry is filed under the key of its own pool, whose two token
    keys have the four parts that the quote engine asks for. *)
Definition filedUnderOwnKey (m : Manager) : Prop :=
  forall k e,
    poolCache m !! k = Some e ->
    getCacheKey (token0 (data e)) (token1 (data e)) (fee (data e)) = k
    /\ (exists parts, OfflineQuote.parseTokenKey (token0 (data e)) = Js.Ok parts)
    /\ (exists parts, OfflineQuote.parseTokenKey (token1 (data e)) = Js.Ok parts).


End PoolCacheUse.

(** ** What an operation of the trading strategy does to the state *)

Module TradeEffects.
Import TradingStrategy.

(** Run in the state [s], the operation [m] has the outcome [r], appends
    the events [evs] to the trace and leaves the trade history alone. *)
Definition appends {A : Type} (m : M A) (s : State) (evs : list Event)
    (r : Js.result A) : Prop :=
  m s = (r, {| tradeHistory := tradeHistory s; trace := trace s ++ evs |}).

(** The same for an operation that records the results [rs]. *)
Definition records {A : Type} (m : M A) (s : State) (evs : list Event)
    (rs : list TradeResult) (r : Js.result A) : Prop :=
  m s = (r, {| tradeHistory := tradeHistory s ++ rs; trace := trace s ++ evs |}).

(** The fields of a result that say which trade it is about. *)
Definition about (r : TradeResult) (src dst : string) (amount : Q) : Prop :=
  fromToken r = src /\ toToken r = dst /\ amountIn r = amount.

(** The events of a trade that reached the submission: calls that are
    no submissions, then the swap of [amount] from the configured wallet,
    with the minimum output that goes with the expected output [out],
    then the wait on its transaction [id]. *)
Definition endsWithSwap (config : BotConfig) (src dst : string) (amount : Q)
    (evs : list Event) (out : Q) (id : string) : Prop :=
  exists pre fee,
    evs = pre ++ [Swap src dst fee (Double.toString amount)
                    (Predicates.minimumOutput config out) (walletAddress config);
                  Wait id]
    /\ forallb (fun e => negb (Predicates.isSwap e)) pre = true.

Definition isProbe (e : Event) : bool :=
  match e with
  | GetPoolData _ _ _ => true
  | _ => false
  end.

(** A gateway that knows no pool and gives no quote, with a registry
    that knows no route. *)
Definition emptyWorld : World :=
  {| dateNow := fun _ => 1700000000000%Z;
     getPoolData := fun _ _ _ _ => Js.Throw "pool not found";
     quoteExactInput := fun _ _ _ _ _ => Js.Throw "no quote";
     eventSocketConnected := fun _ => true;
     connectEventSocket := fun _ => Js.Ok tt;
     swap := fun _ _ _ _ _ _ _ => Js.Throw "rejected";
     wait := fun _ _ => Js.Ok tt;
     findTradingPaths := fun _ _ => [] |}.

(** A trade into the gas token. *)
Definition toGala (config : BotConfig) (t : BalanceManager.Trade) : bool :=
  String.eqb (BalanceManager.targetToken t) (galaTokenKey config).

(** The submissions of a trace ask for no more than was quoted: before
    every submission comes an answered quote for the same pair, amount
    and fee, and the [amountOutMinimum] of the submission reads as a
    number that is not negative and not above the output of the quote,
    read as a number and in absolute value. *)
Definition withinQuotes (evs : list Event) : Prop :=
  forall pre src dst fee exactIn amountOutMinimum wallet post,
    evs = pre ++ Swap src dst fee exactIn amountOutMinimum wallet :: post ->
    exists before quote out socket,
      pre = before ++ QuoteExactInput src dst exactIn fee (Js.Ok quote) :: socket
      /\ outputAmountOf quote = Some out
      /\ 0 <= Double.parseFloat amountOutMinimum <= Qabs (Double.parseFloat out).

End TradeEffects.
(** ** trading-strategy.ts: the reports on the history *)

Module TradeReports.
Import TradingStrategy.

(** [array.slice(start)] for an integer [start]; a negative [start]
    counts from the end of the array. *)
Definition slice {A : Type} (l : list A) (start : Z) : list A :=
  let len := Z.of_nat (length l) in
  let from := if Z.ltb start 0 then Z.max (len + start) 0 else Z.min start len in
  skipn (Z.to_nat from) l.

(** [getTradeHistory(limit)]; [limit] is missing or an integer, and
    [if (limit)] fails for [0]. *)
Definition getTradeHistory (history : list TradeResult) (limit : option Z)
  : list TradeResult :=
  match limit with
  | Some n => if Z.eqb n 0 then history else slice history (- n)
  | None => history
  end.

(** [(successfulTrades / this.tradeHistory.length) * 100], on numbers. *)
Definition getSuccessRate (history : list TradeResult) : Q :=
  if Nat.eqb (length history) 0 then 0
  else
    let successfulTrades := length (List.filter success history) in
    Double.mul (Double.div (inject_Z (Z.of_nat successfulTrades))
                           (inject_Z (Z.of_nat (length history))))
               100.

(** [statistics.totalTrades] of the bot's [getStatus]:
    [this.tradingStrategy.getTradeHistory(10).length]. *)
Definition totalTrades (history : list TradeResult) : nat :=
  length (getTradeHistory history (Some 10%Z)).

End TradeReports.

(** ** token-registry.ts *)

Module TokenRegistry.

(** The [knownPairs] that [initializeKnownPairs] leaves in the set. *)
Definition initialPairs : gset string :=
  list_to_set
    [ "GALA|GWBTC|10000"; "GALA|GUSDC|3000"; "GALA|GUSDT|3000";
      "GALA|SILK|10000"; "GUSDC|GUSDT|500" ]%string.

(** [`${token0}|${token1}|${fee}`] *)
Definition pairKey (token0 token1 : string) (fee : N) : string :=
  (token0 ++ "|" ++ token1 ++ "|" ++ string_of_N fee)%string.

(** [array.includes(s)] *)
Definition includes (l : list string) (s : string) : bool :=
  existsb (String.eqb s) l.

Definition hasPotentialPair (knownPairs : gset string) (token0 token1 : string)
  : bool :=
  let fees := [500; 3000; 10000]%N in
  if existsb (fun fee =>
                bool_decide (pairKey token0 token1 fee ∈ knownPairs)
                || bool_decide (pairKey token1 token0 fee ∈ knownPairs)) fees
  then true
  else
    let galaToken := "GALA|Unit|none|none"%string in
    if String.eqb token0 galaToken || String.eqb token1 galaToken then true
    else
      let stablecoins := ["GUSDC|Unit|none|none"; "GUSDT|Unit|none|none"]%string in
      let majorTokens := ["GWBTC|Unit|none|none"; "GETH|Unit|none|none"]%string in
      if (includes stablecoins token0 && includes majorTokens token1)
         || (includes stablecoins token1 && includes majorTokens token0)
      then true
      else false.

Definition intermediateTokens : list string :=
  ["GALA|Unit|none|none"; "GUSDC|Unit|none|none"; "GUSDT|Unit|none|none"]%string.

Definition findTradingPaths (knownPairs : gset string)
    (fromTokenKey toTokenKey : string) (maxHops : Q) : list (list string) :=
  (if hasPotentialPair knownPairs fromTokenKey toTokenKey
   then [[fromTokenKey; toTokenKey]] else [])
  ++ (if Js.ge maxHops 2 then
        flat_map (fun intermediate =>
                    if negb (String.eqb intermediate fromTokenKey)
                       && negb (String.eqb intermediate toTokenKey)
                    then
                      if hasPotentialPair knownPairs fromTokenKey intermediate
                         && hasPotentialPair knownPairs intermediate toTokenKey
                      then [[fromTokenKey; intermediate; toTokenKey]]
                      else []
                    else [])
          intermediateTokens
      else []).

Definition getBestIntermediateToken (knownPairs : gset string)
    (fromTokenKey toTokenKey : string) : option string :=
  let gala := "GALA|Unit|none|none"%string in
  let usdc := "GUSDC|Unit|none|none"%string in
  let usdt := "GUSDT|Unit|none|none"%string in
  let usable (t : string) :=
    negb (String.eqb fromTokenKey t) && negb (String.eqb toTokenKey t)
    && (hasPotentialPair knownPairs fromTokenKey t
        && hasPotentialPair knownPairs t toTokenKey) in
  if usable gala then Some gala
  else if usable usdc then Some usdc
  else if usable usdt then Some usdt
  else None.

Definition confirmPairExists (knownPairs : gset string) (token0 token1 : string)
    (fee : N) : gset string :=
  {[ pairKey token0 token1 fee ]} ∪ knownPairs.

Definition getSuggestedFeeTiers : list N := [3000; 500; 10000]%N.

(** The middle token of the first route with an intermediate token. *)
Definition firstIntermediate (paths : list (list string)) : option string :=
  match List.filter (fun p => Nat.eqb (length p) 3) paths with
  | [_; mid; _] :: _ => Some mid
  | _ => None
  end.

(** The gateway of [TradeEffects.emptyWorld] with the routes of the
    registry, as [executeMultiHopTrade] asks for them. *)
Definition routedWorld (knownPairs : gset string) : TradingStrategy.World :=
  {| TradingStrategy.dateNow := TradingStrategy.dateNow TradeEffects.emptyWorld;
     TradingStrategy.getPoolData := TradingStrategy.getPoolData TradeEffects.emptyWorld;
     TradingStrategy.quoteExactInput :=
       TradingStrategy.quoteExactInput TradeEffects.emptyWorld;
     TradingStrategy.eventSocketConnected :=
       TradingStrategy.eventSocketConnected TradeEffects.emptyWorld;
     TradingStrategy.connectEventSocket :=
       TradingStrategy.connectEventSocket TradeEffects.emptyWorld;
     TradingStrategy.swap := TradingStrategy.swap TradeEffects.emptyWorld;
     TradingStrategy.wait := TradingStrategy.wait TradeEffects.emptyWorld;
     TradingStrategy.findTradingPaths :=
       fun a b => findTradingPaths knownPairs a b 2 |}.

End TokenRegistry.

(** ** What a balance summary holds *)

Module BalanceShape.
Import BalanceManager.

(** The asset has the token key [key]. *)
Definition hasKey (key : string) (a : AssetToken) : bool :=
  String.eqb (constructTokenKey a) key.

(** The quantity of the last asset of the list with the key, and 0 when
    there is none. *)
Definition lastQuantity (key : string) (l : list AssetToken) : Q :=
  List.last (map asset_quantity (List.filter (hasKey key) l)) 0.

(** The entry of [otherTokens] made from an asset. *)
Definition asOther (a : AssetToken) : TokenBalance :=
  {| tokenKey := constructTokenKey a;
     symbol := Js.or_str (asset_symbol a) "UNKNOWN";
     quantity := parseBalance (asset_quantity a);
     decimals := Js.or_num (asset_decimals a) 8 |}.

(** The string has no ["|"]. *)
Definition noBar (s : string) : bool :=
  forallb (fun c => negb (Ascii.eqb c "|")) (list_ascii_of_string s).

Definition barFree (o : option string) : bool :=
  match o with
  | Some s => noBar s
  | None => true
  end.

Definition barFreeClass (c : ClassFields) : bool :=
  barFree (collection c) && barFree (category c) && barFree (type c)
  && barFree (additionalKey c).

(** No field that [constructTokenKey] may read has a ["|"]. *)
Definition barFreeAsset (a : AssetToken) : bool :=
  barFree (asset_symbol a) && barFreeClass (asset_flat a)
  && match asset_tokenClassKey a with Some c => barFreeClass c | None => true end
  && match asset_tokenClass a with Some c => barFreeClass c | None => true end.

End BalanceShape.

(* ===================================================================== *)
(** * Part II: properties                                                 *)
(* ===================================================================== *)


(** ** Comparisons *)

Section Comparisons.

Lemma gt_true (a b : Q) : Js.gt a b = true <-> b < a.
Proof.
  unfold Js.gt. rewrite negb_true_iff.
  split; intros H.
  - apply Qnot_le_lt. intros Hle. apply Qle_bool_iff in Hle. congruence.
  - destruct (Qle_bool a b) eqn:E; [|reflexivity].
    apply Qle_bool_iff in E. exfalso. apply (Qlt_not_le _ _ H E).
Qed.

Lemma gt_false (a b : Q) : Js.gt a b = false <-> a <= b.
Proof.
  unfold Js.gt. rewrite negb_false_iff. apply Qle_bool_iff.
Qed.

Lemma ge_true (a b : Q) : Js.ge a b = true <-> b <= a.
Proof. unfold Js.ge. apply Qle_bool_iff. Qed.

Lemma gt_irrefl (a : Q) : Js.gt a a = false.
Proof. apply gt_false. apply Qle_refl. Qed.

End Comparisons.

(** ** Numbers in binary64

    [round] keeps the sign, gives multiples of [2^-1074], changes no
    number and is monotone; the difference of two numbers has the sign
    of the exact difference; the decimal that [toString] writes reads
    back as the number. *)

Module DoubleProps.
Import Double.

Lemma pow2_pos e : 0 < pow2 e.
Proof. apply Qpower_0_lt. reflexivity. Qed.

Lemma pow2_add a b : pow2 (a + b) == pow2 a * pow2 b.
Proof. apply Qpower_plus. discriminate. Qed.

Lemma pow2_nat z : (0 <= z)%Z -> pow2 z == inject_Z (2 ^ z).
Proof. intros Hz. unfold pow2. rewrite Zpower_Qpower by exact Hz. reflexivity. Qed.

Lemma pow2_le a b : (a <= b)%Z -> pow2 a <= pow2 b.
Proof. intros H. apply Qpower_le_compat_l; [exact H|]. discriminate. Qed.

Lemma roundHalfEven_floor m : (Qfloor m <= roundHalfEven m)%Z.
Proof.
  unfold roundHalfEven.
  destruct (Qcompare (m - inject_Z (Qfloor m)) (1 # 2)); [|lia|lia].
  destruct (Z.even (Qfloor m)); lia.
Qed.

Lemma roundHalfEven_ge m k : inject_Z k <= m -> (k <= roundHalfEven m)%Z.
Proof.
  intros H. pose proof (roundHalfEven_floor m) as Hf.
  assert (k <= Qfloor m)%Z; [|lia].
  rewrite <- (Qfloor_Z k). apply Qfloor_resp_le. exact H.
Qed.

Lemma ilog2_le a : 0 < a -> pow2 (ilog2 a) <= a.
Proof.
  intros Ha. unfold ilog2.
  destruct (Qle_bool (pow2 (Z.log2 (Qnum a) - Z.log2 (Z.pos (Qden a)))) a) eqn:E.
  - apply Qle_bool_iff. exact E.
  - destruct a as [n d]. cbn [Qnum Qden] in *.
    assert (Hn : (0 < n)%Z) by (unfold Qlt in Ha; cbn in Ha; lia).
    pose proof (Z.log2_nonneg n) as Hln.
    pose proof (Z.log2_nonneg (Z.pos d)) as Hld.
    replace (Z.log2 n - Z.log2 (Z.pos d) - 1)%Z
      with (Z.log2 n - (Z.log2 (Z.pos d) + 1))%Z by lia.
    unfold pow2 at 1. rewrite Qpower_minus by discriminate.
    fold (pow2 (Z.log2 n)). fold (pow2 (Z.log2 (Z.pos d) + 1)).
    rewrite !pow2_nat by lia.
    destruct (Z.log2_spec n Hn) as [Hn1 _].
    destruct (Z.log2_spec (Z.pos d) (Pos2Z.is_pos d)) as [_ Hd2].
    replace (Z.succ (Z.log2 (Z.pos d))) with (Z.log2 (Z.pos d) + 1)%Z in Hd2 by lia.
    set (pn := (2 ^ Z.log2 n)%Z) in *.
    set (pd := (2 ^ (Z.log2 (Z.pos d) + 1))%Z) in *.
    assert (Hpd : (0 < pd)%Z) by lia.
    assert (Hpn : (0 < pn)%Z) by (apply Z.pow_pos_nonneg; lia).
    apply Qle_shift_div_r; [unfold Qlt; cbn; lia|].
    unfold Qle, Qmult, inject_Z. cbn [Qnum Qden].
    nia.
Qed.

(** The quotient by the last bit is 1 at least, for a positive number
    on the grid of the subnormal numbers. *)
Lemma scaled_ge_1 a n :
  0 < a -> a == inject_Z n * pow2 (-1074) ->
  1 <= a / pow2 (Z.max (ilog2 a - 52) (-1074)).
Proof.
  intros Ha Hgrid.
  apply Qle_shift_div_l; [apply pow2_pos|]. rewrite Qmult_1_l.
  destruct (Z.max_spec (ilog2 a - 52) (-1074)) as [[Hlt ->]|[Hle ->]].
  - rewrite Hgrid.
    assert (Hn : (1 <= n)%Z).
    { assert (0 < inject_Z n) as Hpos.
      { rewrite Hgrid in Ha.
        destruct (Qlt_le_dec 0 (inject_Z n)) as [H|H]; [exact H|].
        exfalso. apply (Qlt_irrefl 0). eapply Qlt_le_trans; [exact Ha|].
        rewrite <- (Qmult_0_l (pow2 (-1074))).
        apply Qmult_le_compat_r; [exact H|]. apply Qlt_le_weak, pow2_pos. }
      unfold Qlt in Hpos. cbn in Hpos. lia. }
    rewrite <- (Qmult_1_l (pow2 (-1074))) at 1.
    apply Qmult_le_compat_r; [|apply Qlt_le_weak, pow2_pos].
    unfold Qle. cbn. lia.
  - eapply Qle_trans; [|apply (ilog2_le a Ha)]. apply pow2_le. lia.
Qed.

Lemma round_0 q : q == 0 -> round q = 0.
Proof.
  intros H. unfold round.
  rewrite (Qred_complete q 0 H). reflexivity.
Qed.

(** [round q] is 0 for [q = 0]; otherwise it is, up to the sign of [q],
    a multiple [k * 2^x] of the last bit [2^x] of [|q|], with [k] the
    integer nearest to [|q| / 2^x]. *)
Lemma round_cases q :
  (q == 0 /\ round q = 0)
  \/ exists a x k,
       a == Qabs q /\ 0 < a
       /\ x = Z.max (ilog2 a - 52) (-1074)
       /\ k = roundHalfEven (a / pow2 x)
       /\ ((0 < q /\ round q == inject_Z k * pow2 x)
           \/ (q < 0 /\ round q == - (inject_Z k * pow2 x))).
Proof.
  destruct (Qeq_dec q 0) as [Hz|Hnz].
  - left. split; [exact Hz|apply round_0, Hz].
  - right. unfold round.
    assert (Hr : Qred q == q) by apply Qred_correct.
    destruct (Qeq_bool (Qred q) 0) eqn:E.
    { apply Qeq_bool_iff in E. rewrite Hr in E. contradiction. }
    exists (Qabs (Qred q)), (Z.max (ilog2 (Qabs (Qred q)) - 52) (-1074)),
      (roundHalfEven (Qabs (Qred q)
                      / pow2 (Z.max (ilog2 (Qabs (Qred q)) - 52) (-1074)))).
    split; [rewrite Hr; reflexivity|].
    split.
    { apply Qabs_case; intros H; lra. }
    split; [reflexivity|]. split; [reflexivity|].
    destruct (Qle_bool 0 (Qred q)) eqn:Hs.
    + left. apply Qle_bool_iff in Hs. rewrite Hr in Hs.
      split; [|apply Qred_correct].
      apply Qle_lteq in Hs. destruct Hs as [Hlt|Heq]; [exact Hlt|].
      exfalso. apply Hnz. symmetry. exact Heq.
    + right. split.
      * destruct (Qlt_le_dec q 0) as [Hlt|Hle]; [exact Hlt|].
        exfalso. rewrite <- Hr in Hle. apply Qle_bool_iff in Hle. congruence.
      * rewrite !Qred_correct. reflexivity.
Qed.

(** [round] keeps the sign. *)
Lemma round_nonneg q : 0 <= q -> 0 <= round q.
Proof.
  intros Hq.
  destruct (round_cases q) as [[_ ->]|(a & x & k & Ha & Hpos & Hx & Hk & Hc)].
  - apply Qle_refl.
  - destruct Hc as [[_ ->]|[Hneg _]].
    + apply Qmult_le_0_compat; [|apply Qlt_le_weak, pow2_pos].
      assert (0 <= k)%Z; [|unfold Qle; cbn; lia].
      subst k. apply (roundHalfEven_ge _ 0).
      apply Qle_shift_div_l; [apply pow2_pos|]. rewrite Qmult_0_l.
      apply Qlt_le_weak, Hpos.
    + exfalso. apply (Qlt_irrefl q). eapply Qlt_le_trans; [exact Hneg|exact Hq].
Qed.

Lemma round_nonpos q : q <= 0 -> round q <= 0.
Proof.
  intros Hq.
  destruct (round_cases q) as [[_ ->]|(a & x & k & Ha & Hpos & Hx & Hk & Hc)].
  - apply Qle_refl.
  - destruct Hc as [[Hp _]|[_ ->]].
    + exfalso. apply (Qlt_irrefl q). eapply Qle_lt_trans; [exact Hq|exact Hp].
    + assert (0 <= inject_Z k * pow2 x); [|lra].
      apply Qmult_le_0_compat; [|apply Qlt_le_weak, pow2_pos].
      assert (0 <= k)%Z; [|unfold Qle; cbn; lia].
      subst k. apply (roundHalfEven_ge _ 0).
      apply Qle_shift_div_l; [apply pow2_pos|]. rewrite Qmult_0_l.
      apply Qlt_le_weak, Hpos.
Qed.

(** Every number is a multiple of [2^-1074]. *)
Lemma round_grid q : exists n, round q == inject_Z n * pow2 (-1074).
Proof.
  assert (Hgrid : forall k x, (-1074 <= x)%Z ->
            inject_Z k * pow2 x == inject_Z (k * 2 ^ (x + 1074)) * pow2 (-1074)).
  { intros k x Hx. rewrite inject_Z_mult, <- pow2_nat by lia.
    rewrite <- Qmult_assoc, <- pow2_add.
    replace (x + 1074 + -1074)%Z with x by lia. reflexivity. }
  destruct (round_cases q) as [[_ ->]|(a & x & k & Ha & Hpos & Hx & Hk & Hc)].
  - exists 0%Z. rewrite Qmult_0_l. reflexivity.
  - assert (Hx' : (-1074 <= x)%Z) by lia.
    destruct Hc as [[_ Hv]|[_ Hv]].
    + exists (k * 2 ^ (x + 1074))%Z. rewrite Hv. apply Hgrid, Hx'.
    + exists (- (k * 2 ^ (x + 1074)))%Z.
      rewrite Hv, (Hgrid k x Hx'), inject_Z_opp. ring.
Qed.

(** A positive multiple of [2^-1074] does not round to 0. *)
Lemma round_pos q n : q == inject_Z n * pow2 (-1074) -> 0 < q -> 0 < round q.
Proof.
  intros Hgrid Hq.
  destruct (round_cases q) as [[Hz _]|(a & x & k & Ha & Hpos & Hx & Hk & Hc)].
  - rewrite Hz in Hq. discriminate Hq.
  - destruct Hc as [[_ ->]|[Hneg _]].
    + assert (Haq : a == q) by (rewrite Ha; apply Qabs_pos, Qlt_le_weak, Hq).
      assert (1 <= k)%Z.
      { subst k x. apply roundHalfEven_ge.
        apply (scaled_ge_1 a n Hpos). rewrite Haq. exact Hgrid. }
      apply Qmult_lt_0_compat; [|apply pow2_pos].
      unfold Qlt. cbn. lia.
    + exfalso. apply (Qlt_irrefl q). eapply Qlt_trans; [exact Hneg|exact Hq].
Qed.

(** The difference of two numbers has the sign of the exact difference:
    the subnormal numbers keep it from rounding to 0. *)
Lemma sub_positive a b : Js.gt (sub a b) 0 = Js.gt (round a - round b) 0.
Proof.
  unfold sub, Js.gt.
  destruct (Qle_bool (round a - round b) 0) eqn:E.
  - apply Qle_bool_iff in E.
    assert (H := round_nonpos _ E). apply Qle_bool_iff in H. rewrite H. reflexivity.
  - destruct (Qle_bool (round (round a - round b)) 0) eqn:E'; [|reflexivity].
    exfalso. apply Qle_bool_iff in E'.
    assert (Hpos : 0 < round a - round b).
    { destruct (Qlt_le_dec 0 (round a - round b)) as [H|H]; [exact H|].
      apply Qle_bool_iff in H. congruence. }
    destruct (round_grid a) as [na Hna]. destruct (round_grid b) as [nb Hnb].
    assert (H := round_pos (round a - round b) (na - nb)).
    apply (Qlt_irrefl 0). eapply Qlt_le_trans; [apply H|exact E']; [|exact Hpos].
    rewrite Hna, Hnb. unfold Zminus. rewrite inject_Z_plus, inject_Z_opp. ring.
Qed.

Lemma pow2_lt_inv a b : pow2 a < pow2 b -> (a < b)%Z.
Proof. intros H. apply (Qpower_lt_compat_l_inv 2); [exact H|reflexivity]. Qed.

Lemma ilog2_lt a : 0 < a -> a < pow2 (ilog2 a + 1).
Proof.
  intros Ha. unfold ilog2.
  assert (Hup : a < pow2 (Z.log2 (Qnum a) - Z.log2 (Z.pos (Qden a)) + 1)).
  { destruct a as [n d]. cbn [Qnum Qden] in *.
    assert (Hn : (0 < n)%Z) by (unfold Qlt in Ha; cbn in Ha; lia).
    pose proof (Z.log2_nonneg n) as Hln.
    pose proof (Z.log2_nonneg (Z.pos d)) as Hld.
    replace (Z.log2 n - Z.log2 (Z.pos d) + 1)%Z
      with (Z.log2 n + 1 - Z.log2 (Z.pos d))%Z by lia.
    unfold pow2. rewrite Qpower_minus by discriminate.
    fold (pow2 (Z.log2 n + 1)). fold (pow2 (Z.log2 (Z.pos d))).
    rewrite !pow2_nat by lia.
    destruct (Z.log2_spec n Hn) as [_ Hn2].
    destruct (Z.log2_spec (Z.pos d) (Pos2Z.is_pos d)) as [Hd1 _].
    replace (Z.succ (Z.log2 n)) with (Z.log2 n + 1)%Z in Hn2 by lia.
    set (pn := (2 ^ (Z.log2 n + 1))%Z) in *.
    set (pd := (2 ^ Z.log2 (Z.pos d))%Z) in *.
    assert (Hpd : (0 < pd)%Z) by (apply Z.pow_pos_nonneg; lia).
    apply Qlt_shift_div_l; [unfold Qlt; cbn; lia|].
    unfold Qlt, Qmult, inject_Z. cbn [Qnum Qden].
    nia. }
  destruct (Qle_bool (pow2 (Z.log2 (Qnum a) - Z.log2 (Z.pos (Qden a)))) a) eqn:E.
  - exact Hup.
  - replace (Z.log2 (Qnum a) - Z.log2 (Z.pos (Qden a)) - 1 + 1)%Z
      with (Z.log2 (Qnum a) - Z.log2 (Z.pos (Qden a)))%Z by lia.
    destruct (Qlt_le_dec a (pow2 (Z.log2 (Qnum a) - Z.log2 (Z.pos (Qden a)))))
      as [H|H]; [exact H|].
    apply Qle_bool_iff in H. congruence.
Qed.

Lemma roundHalfEven_comp m m' : m == m' -> roundHalfEven m = roundHalfEven m'.
Proof.
  intros H. unfold roundHalfEven.
  rewrite (Qfloor_comp _ _ H).
  rewrite (Qcompare_comp (m - inject_Z (Qfloor m')) (m' - inject_Z (Qfloor m'))
             (Qplus_comp _ _ H _ _ (Qeq_refl _)) (1 # 2) (1 # 2) (Qeq_refl _)).
  reflexivity.
Qed.

Lemma roundHalfEven_Z z : roundHalfEven (inject_Z z) = z.
Proof.
  unfold roundHalfEven. rewrite Qfloor_Z.
  replace (Qcompare (inject_Z z - inject_Z z) (1 # 2)) with Lt; [reflexivity|].
  symmetry. apply (proj1 (Qlt_alt _ _)). lra.
Qed.

Lemma roundHalfEven_le m k : m <= inject_Z k -> (roundHalfEven m <= k)%Z.
Proof.
  intros H. unfold roundHalfEven.
  pose proof (Qfloor_le m) as Hf. pose proof (Qlt_floor m) as Hc.
  assert (Hfk : (Qfloor m <= k)%Z).
  { rewrite <- (Qfloor_Z k). apply Qfloor_resp_le. exact H. }
  destruct (Z.eq_dec (Qfloor m) k) as [E|Hne].
  - rewrite E in *. assert (m == inject_Z k) by lra.
    replace (Qcompare (m - inject_Z k) (1 # 2)) with Lt; [lia|].
    symmetry. apply (proj1 (Qlt_alt _ _)). lra.
  - destruct (Qcompare _ _); [|lia|lia]. destruct (Z.even _); lia.
Qed.

(** [round] gives one result for equal rationals, however written. *)
Lemma round_comp q q' : q == q' -> round q = round q'.
Proof. intros H. unfold round. rewrite (Qred_complete q q' H). reflexivity. Qed.

(** The result of [round] is in lowest terms. *)
Lemma round_reduced q : Qred (round q) = round q.
Proof.
  unfold round. destruct (Qeq_bool (Qred q) 0); [reflexivity|].
  destruct (Qle_bool 0 (Qred q)); apply Qred_complete, Qred_correct.
Qed.

(** A number: up to the sign, [k * 2^x] with [k] below [2^53] and [x]
    not below [-1074]. *)
Lemma round_number q :
  exists k x, Qabs (round q) == inject_Z k * pow2 x
              /\ (0 <= k < 2 ^ 53)%Z /\ (-1074 <= x)%Z.
Proof.
  destruct (round_cases q) as [[_ ->]|(a & x & k & Ha & Hpos & Hx & Hk & Hc)].
  - exists 0%Z, 0%Z. split; [reflexivity|]. lia.
  - assert (Hk0 : (0 <= k)%Z).
    { subst k. apply (roundHalfEven_ge _ 0).
      apply Qle_shift_div_l; [apply pow2_pos|]. rewrite Qmult_0_l.
      apply Qlt_le_weak, Hpos. }
    assert (Hk53 : (k <= 2 ^ 53)%Z).
    { subst k. apply roundHalfEven_le.
      apply Qle_shift_div_r; [apply pow2_pos|].
      rewrite <- pow2_nat, <- pow2_add by lia.
      eapply Qle_trans; [apply Qlt_le_weak, (ilog2_lt a Hpos)|].
      apply pow2_le. lia. }
    assert (Habs : Qabs (round q) == inject_Z k * pow2 x).
    { assert (Hnn : 0 <= inject_Z k * pow2 x).
      { apply Qmult_le_0_compat; [unfold Qle; cbn; lia|].
        apply Qlt_le_weak, pow2_pos. }
      destruct Hc as [[_ Hv]|[_ Hv]]; rewrite Hv.
      - apply Qabs_pos, Hnn.
      - rewrite Qabs_opp. apply Qabs_pos, Hnn. }
    destruct (Z.eq_dec k (2 ^ 53)%Z) as [Hmax|Hlt].
    + exists (2 ^ 52)%Z, (x + 1)%Z. split; [|lia].
      rewrite Habs, Hmax, pow2_add.
      assert (H53 : inject_Z (2 ^ 53) == inject_Z (2 ^ 52) * pow2 1) by reflexivity.
      rewrite H53. ring.
    + exists k, x. split; [exact Habs|]. lia.
Qed.

(** Reading a number gives the number. *)
Lemma round_of_number r k x :
  Qabs r == inject_Z k * pow2 x -> (0 <= k < 2 ^ 53)%Z -> (-1074 <= x)%Z ->
  round r == r.
Proof.
  intros Habs Hk Hx.
  destruct (round_cases r) as [[Hz ->]|(a & x' & k' & Ha & Hpos & Hx' & Hk' & Hc)].
  - symmetry. exact Hz.
  - assert (Hak : a == inject_Z k * pow2 x) by (rewrite Ha; exact Habs).
    assert (Hle : (x' <= x)%Z).
    { assert (ilog2 a < 53 + x)%Z; [|lia].
      apply pow2_lt_inv. eapply Qle_lt_trans; [apply (ilog2_le a Hpos)|].
      rewrite Hak, pow2_add.
      apply Qmult_lt_compat_r; [apply pow2_pos|].
      rewrite (pow2_nat 53) by lia.
      rewrite <- Zlt_Qlt. lia. }
    assert (Hint : a / pow2 x' == inject_Z (k * 2 ^ (x - x'))).
    { assert (Hp : ~ pow2 x' == 0) by (pose proof (pow2_pos x'); lra).
      rewrite Hak, inject_Z_mult, <- pow2_nat by lia.
      replace x with (x - x' + x')%Z at 1 by lia.
      rewrite pow2_add. field. exact Hp. }
    assert (Hval : inject_Z k' * pow2 x' == a).
    { rewrite Hk', (roundHalfEven_comp _ _ Hint), roundHalfEven_Z.
      rewrite <- Hint. field. intros H0. pose proof (pow2_pos x'). lra. }
    destruct Hc as [[Hp ->]|[Hn ->]]; rewrite Hval, Ha.
    + apply Qabs_pos. lra.
    + rewrite Qabs_neg by lra. ring.
Qed.

(** Rounding a number changes nothing. *)
Lemma round_idempotent q : round (round q) = round q.
Proof.
  destruct (round_number q) as (k & x & Habs & Hk & Hx).
  transitivity (Qred (round (round q))); [symmetry; apply round_reduced|].
  transitivity (Qred (round q)); [|apply round_reduced].
  apply Qred_complete. apply (round_of_number _ k x Habs Hk Hx).
Qed.

(** The nearest multiple of the last bit of a positive [a], and the
    numbers on either side of [a]. *)
Lemma nearest_le a c k x :
  0 < a -> a <= c -> c == inject_Z k * pow2 x -> (0 <= k < 2 ^ 53)%Z ->
  (-1074 <= x)%Z ->
  inject_Z (roundHalfEven (a / pow2 (Z.max (ilog2 a - 52) (-1074))))
  * pow2 (Z.max (ilog2 a - 52) (-1074)) <= c.
Proof.
  intros Ha Hac Hc Hk Hx.
  set (u := Z.max (ilog2 a - 52) (-1074)).
  assert (Hu : ~ pow2 u == 0) by (pose proof (pow2_pos u); lra).
  destruct (Z_le_gt_dec u x) as [Hux|Hux].
  - assert (Hint : c == inject_Z (k * 2 ^ (x - u)) * pow2 u).
    { rewrite Hc, inject_Z_mult, <- pow2_nat by lia.
      rewrite <- Qmult_assoc, <- pow2_add.
      replace (x - u + u)%Z with x by lia. reflexivity. }
    rewrite Hint. apply Qmult_le_compat_r; [|apply Qlt_le_weak, pow2_pos].
    rewrite <- Zle_Qle. apply roundHalfEven_le.
    apply Qle_shift_div_r; [apply pow2_pos|]. rewrite <- Hint. exact Hac.
  - exfalso.
    assert (Hu' : u = (ilog2 a - 52)%Z) by lia.
    assert (c < pow2 (ilog2 a)).
    { assert (Hk' : inject_Z k < pow2 53).
      { rewrite (pow2_nat 53) by lia. rewrite <- Zlt_Qlt. lia. }
      rewrite Hc. apply Qlt_le_trans with (pow2 53 * pow2 x).
      - apply Qmult_lt_compat_r; [apply pow2_pos|exact Hk'].
      - rewrite <- pow2_add. apply pow2_le. lia. }
    pose proof (ilog2_le a Ha). lra.
Qed.

Lemma nearest_ge a c k x :
  0 < a -> c <= a -> c == inject_Z k * pow2 x -> (0 <= k < 2 ^ 53)%Z ->
  (-1074 <= x)%Z ->
  c <= inject_Z (roundHalfEven (a / pow2 (Z.max (ilog2 a - 52) (-1074))))
       * pow2 (Z.max (ilog2 a - 52) (-1074)).
Proof.
  intros Ha Hca Hc Hk Hx.
  set (u := Z.max (ilog2 a - 52) (-1074)).
  assert (Hu : ~ pow2 u == 0) by (pose proof (pow2_pos u); lra).
  destruct (Z_le_gt_dec u x) as [Hux|Hux].
  - assert (Hint : c == inject_Z (k * 2 ^ (x - u)) * pow2 u).
    { rewrite Hc, inject_Z_mult, <- pow2_nat by lia.
      rewrite <- Qmult_assoc, <- pow2_add.
      replace (x - u + u)%Z with x by lia. reflexivity. }
    rewrite Hint. apply Qmult_le_compat_r; [|apply Qlt_le_weak, pow2_pos].
    rewrite <- Zle_Qle. apply roundHalfEven_ge.
    apply Qle_shift_div_l; [apply pow2_pos|]. rewrite <- Hint. exact Hca.
  - assert (Hu' : u = (ilog2 a - 52)%Z) by lia.
    assert (Hlt : c <= pow2 (ilog2 a)).
    { assert (Hk' : inject_Z k <= pow2 53).
      { rewrite (pow2_nat 53) by lia. rewrite <- Zle_Qle. lia. }
      rewrite Hc. apply Qle_trans with (pow2 53 * pow2 x).
      - apply Qmult_le_compat_r; [exact Hk'|apply Qlt_le_weak, pow2_pos].
      - rewrite <- pow2_add. apply pow2_le. lia. }
    eapply Qle_trans; [exact Hlt|].
    replace (ilog2 a) with (52 + u)%Z at 1 by lia.
    rewrite pow2_add.
    apply Qmult_le_compat_r; [|apply Qlt_le_weak, pow2_pos].
    rewrite (pow2_nat 52) by lia. rewrite <- Zle_Qle.
    apply roundHalfEven_ge. rewrite <- (pow2_nat 52) by lia.
    apply Qle_shift_div_l; [apply pow2_pos|]. rewrite <- pow2_add.
    replace (52 + u)%Z with (ilog2 a) by lia. apply (ilog2_le a Ha).
Qed.

(** Rounding does not cross a number: [round q] is on the side of the
    number [c] on which [q] is. *)
Lemma round_le q c : round c == c -> q <= c -> round q <= c.
Proof.
  intros Hfix Hqc.
  destruct (round_number c) as (k & x & Habs & Hk & Hx). rewrite Hfix in Habs.
  destruct (round_cases q) as [[Hz ->]|(a & u & j & Ha & Hpos & Hu & Hj & Hc)].
  - lra.
  - destruct Hc as [[Hq ->]|[Hq ->]].
    + assert (Haq : a == q) by (rewrite Ha; apply Qabs_pos; lra).
      subst j u. apply (nearest_le a c k x Hpos); [lra| |exact Hk|exact Hx].
      rewrite <- Habs. symmetry. apply Qabs_pos. lra.
    + assert (Haq : a == - q) by (rewrite Ha; apply Qabs_neg; lra).
      destruct (Qlt_le_dec c 0) as [Hneg|Hnn].
      * assert (- c <= inject_Z j * pow2 u); [|lra].
        subst j u. apply (nearest_ge a (- c) k x Hpos); [lra| |exact Hk|exact Hx].
        rewrite <- Habs. symmetry. apply Qabs_neg. lra.
      * assert (0 <= inject_Z j * pow2 u); [|lra].
        apply Qmult_le_0_compat; [|apply Qlt_le_weak, pow2_pos].
        rewrite <- (Zle_Qle 0). subst j. apply (roundHalfEven_ge _ 0).
        apply Qle_shift_div_l; [apply pow2_pos|]. rewrite Qmult_0_l. lra.
Qed.

Lemma round_ge q c : round c == c -> c <= q -> c <= round q.
Proof.
  intros Hfix Hcq.
  destruct (round_number c) as (k & x & Habs & Hk & Hx). rewrite Hfix in Habs.
  destruct (round_cases q) as [[Hz ->]|(a & u & j & Ha & Hpos & Hu & Hj & Hc)].
  - lra.
  - destruct Hc as [[Hq ->]|[Hq ->]].
    + assert (Haq : a == q) by (rewrite Ha; apply Qabs_pos; lra).
      destruct (Qlt_le_dec 0 c) as [Hp|Hnp].
      * subst j u. apply (nearest_ge a c k x Hpos); [lra| |exact Hk|exact Hx].
        rewrite <- Habs. symmetry. apply Qabs_pos. lra.
      * assert (0 <= inject_Z j * pow2 u); [|lra].
        apply Qmult_le_0_compat; [|apply Qlt_le_weak, pow2_pos].
        rewrite <- (Zle_Qle 0). subst j. apply (roundHalfEven_ge _ 0).
        apply Qle_shift_div_l; [apply pow2_pos|]. rewrite Qmult_0_l. lra.
    + assert (Haq : a == - q) by (rewrite Ha; apply Qabs_neg; lra).
      assert (inject_Z j * pow2 u <= - c); [|lra].
      subst j u. apply (nearest_le a (- c) k x Hpos); [lra| |exact Hk|exact Hx].
      rewrite <- Habs. symmetry. apply Qabs_neg. lra.
Qed.

Lemma Qabs_opp_eq q : Qabs (- q) = Qabs q.
Proof. destruct q as [n d]. unfold Qabs, Qopp. cbn [Qnum Qden]. now rewrite Z.abs_opp. Qed.

(** [round] is odd. *)
Lemma round_opp q : round (- q) == - round q.
Proof.
  unfold round. rewrite Qred_opp, Qabs_opp_eq.
  set (y := Qred q).
  set (r := Qred (inject_Z (roundHalfEven (Qabs y / pow2 (Z.max (ilog2 (Qabs y) - 52) (-1074))))
                  * pow2 (Z.max (ilog2 (Qabs y) - 52) (-1074)))).
  destruct (Qeq_bool y 0) eqn:E.
  - assert (E' : Qeq_bool (- y) 0 = true).
    { apply Qeq_bool_iff. apply Qeq_bool_iff in E. lra. }
    rewrite E'. reflexivity.
  - assert (Hy : ~ y == 0).
    { intros H. apply Qeq_bool_iff in H. congruence. }
    assert (E' : Qeq_bool (- y) 0 = false).
    { destruct (Qeq_bool (- y) 0) eqn:E'; [|reflexivity].
      apply Qeq_bool_iff in E'. exfalso. apply Hy. lra. }
    rewrite E'.
    destruct (Qle_bool 0 y) eqn:Hs.
    + apply Qle_bool_iff in Hs.
      assert (Hs' : Qle_bool 0 (- y) = false).
      { destruct (Qle_bool 0 (- y)) eqn:Hs'; [|reflexivity].
        apply Qle_bool_iff in Hs'. exfalso. apply Hy. lra. }
      rewrite Hs'. rewrite Qred_correct. reflexivity.
    + assert (Hs' : Qle_bool 0 (- y) = true).
      { apply Qle_bool_iff.
        destruct (Qlt_le_dec y 0) as [H|H]; [lra|].
        apply Qle_bool_iff in H. congruence. }
      rewrite Hs'. rewrite Qred_correct. ring.
Qed.

(** Two results of [round] that are equal as rationals are the same. *)
Lemma round_eq p q : round p == round q -> round p = round q.
Proof.
  intros H. rewrite <- (round_reduced p), <- (round_reduced q).
  apply Qred_complete, H.
Qed.

(** The decimal that [toString] writes reads back as the number. *)
Lemma digits_reads_back x k d : digits x k = Some d -> round d == x.
Proof.
  unfold digits.
  set (scale := pow10 _). set (s := Qfloor _).
  destruct (Qeq_bool (round (Qred (inject_Z s * scale))) x) eqn:Eb;
    destruct (Qeq_bool (round (Qred (inject_Z (s + 1) * scale))) x) eqn:Ea;
    try discriminate.
  - apply Qeq_bool_iff in Eb, Ea.
    destruct (Qcompare _ _); [destruct (Z.even s)| |]; intros [= <-]; assumption.
  - apply Qeq_bool_iff in Eb. intros [= <-]. exact Eb.
  - apply Qeq_bool_iff in Ea. intros [= <-]. exact Ea.
Qed.

Lemma shortest_reads_back x k fuel : round x == x -> round (shortest x k fuel) == x.
Proof.
  intros Hx. revert k. induction fuel as [|fuel IH]; intros k; cbn [shortest].
  - exact Hx.
  - destruct (digits x k) as [d|] eqn:E; [|apply IH].
    apply (digits_reads_back x k d E).
Qed.

Lemma toString_reads_back q : parseFloat (toString q) = round q.
Proof.
  unfold parseFloat, toString.
  assert (Hfix : round (round q) == round q).
  { rewrite round_idempotent. reflexivity. }
  destruct (Qeq_bool (round q) 0) eqn:E.
  - apply Qeq_bool_iff in E.
    transitivity (round (round q)); [|apply round_idempotent].
    apply round_comp. symmetry. exact E.
  - transitivity (round (round q)); [|apply round_idempotent].
    apply round_eq. rewrite Hfix.
    destruct (Qle_bool 0 (round q)) eqn:Hs.
    + apply shortest_reads_back, Hfix.
    + assert (Hneg : round q < 0).
      { destruct (Qlt_le_dec (round q) 0) as [H|H]; [exact H|].
        apply Qle_bool_iff in H. congruence. }
      assert (Habs : Qabs (round q) == - round q) by (apply Qabs_neg; lra).
      assert (Hnum : round (Qabs (round q)) == Qabs (round q)).
      { rewrite (round_comp _ _ Habs), round_opp, Hfix, Habs. reflexivity. }
      rewrite (round_comp _ (- shortest (Qabs (round q)) 1 17)) by apply Qred_correct.
      rewrite round_opp, (shortest_reads_back _ 1%nat 17%nat Hnum), Habs. ring.
Qed.

Lemma roundHalfEven_monotone m m' : m <= m' -> (roundHalfEven m <= roundHalfEven m')%Z.
Proof.
  intros H.
  assert (Hf : (Qfloor m <= Qfloor m')%Z) by (apply Qfloor_resp_le, H).
  destruct (Z.eq_dec (Qfloor m) (Qfloor m')) as [E|Hne].
  - unfold roundHalfEven. rewrite <- E.
    destruct (Qcompare_spec (m - inject_Z (Qfloor m)) (1 # 2)) as [H1|H1|H1];
      destruct (Qcompare_spec (m' - inject_Z (Qfloor m)) (1 # 2)) as [H2|H2|H2];
      try destruct (Z.even (Qfloor m)); try lia; exfalso; lra.
  - assert (roundHalfEven m <= Qfloor m + 1)%Z.
    { unfold roundHalfEven. destruct (Qcompare _ _); [destruct (Z.even _)| |]; lia. }
    pose proof (roundHalfEven_floor m'). lia.
Qed.

Lemma pow2_number e : (-1074 <= e)%Z -> round (pow2 e) == pow2 e.
Proof.
  intros He. apply (round_of_number _ 1 e); [|lia|exact He].
  rewrite Qabs_pos by apply Qlt_le_weak, pow2_pos. ring.
Qed.

Lemma round_monotone_pos p q : 0 < p -> p <= q -> round p <= round q.
Proof.
  intros Hp Hpq.
  destruct (round_cases p) as [[Hz _]|(a & u & j & Ha & Hpos & Hu & Hj & Hc)]; [lra|].
  destruct (round_cases q) as [[Hz _]|(a' & u' & j' & Ha' & Hpos' & Hu' & Hj' & Hc')];
    [lra|].
  destruct Hc as [[_ Hv]|[Hn _]]; [|lra].
  destruct Hc' as [[_ Hv']|[Hn _]]; [|lra].
  assert (Hap : a == p) by (rewrite Ha; apply Qabs_pos; lra).
  assert (Haq : a' == q) by (rewrite Ha'; apply Qabs_pos; lra).
  assert (He : (ilog2 a <= ilog2 a')%Z).
  { assert (ilog2 a < ilog2 a' + 1)%Z; [|lia].
    apply pow2_lt_inv. pose proof (ilog2_le a Hpos). pose proof (ilog2_lt a' Hpos'). lra. }
  destruct (Z.eq_dec u u') as [E|Hne].
  - rewrite Hv, Hv'. rewrite <- E in *.
    apply Qmult_le_compat_r; [|apply Qlt_le_weak, pow2_pos].
    rewrite <- Zle_Qle. subst j j'. apply roundHalfEven_monotone.
    apply Qmult_le_compat_r; [lra|]. apply Qlt_le_weak, Qinv_lt_0_compat, pow2_pos.
  - assert (Hlt : (ilog2 a < ilog2 a')%Z) by lia.
    assert (Hnum : round (pow2 (ilog2 a')) == pow2 (ilog2 a')) by (apply pow2_number; lia).
    apply Qle_trans with (pow2 (ilog2 a')).
    + apply round_le; [exact Hnum|].
      pose proof (ilog2_lt a Hpos). 
      assert (pow2 (ilog2 a + 1) <= pow2 (ilog2 a')) by (apply pow2_le; lia). lra.
    + apply round_ge; [exact Hnum|]. pose proof (ilog2_le a' Hpos'). lra.
Qed.

(** [round] is monotone. *)
Lemma round_monotone p q : p <= q -> round p <= round q.
Proof.
  intros Hpq.
  destruct (Qlt_le_dec 0 p) as [Hp|Hp].
  - apply round_monotone_pos; assumption.
  - destruct (Qlt_le_dec q 0) as [Hq|Hq].
    + assert (H : round (- q) <= round (- p)) by (apply round_monotone_pos; lra).
      rewrite !round_opp in H. lra.
    + pose proof (round_nonpos p Hp). pose proof (round_nonneg q Hq). lra.
Qed.

Lemma round_abs q : round (Qabs (round q)) == Qabs (round q).
Proof.
  apply Qabs_case; intros H.
  - rewrite round_idempotent. reflexivity.
  - rewrite round_opp, round_idempotent. reflexivity.
Qed.

End DoubleProps.

(** ** Balance manager *)

Module BalanceManagerProps.
Import BalanceManager Predicates.

(** Every trade built from the other tokens passes the dust test. *)
Lemma tradesForOthers_amount config target others :
  Forall (fun t => 0.000001 < amount t /\ In (token t) others
                   /\ targetToken t = target)
    (tradesForOthers config target others).
Proof.
  induction others as [|tk rest IH]; cbn [tradesForOthers]; [constructor|].
  assert (Hrest : Forall (fun t => 0.000001 < amount t /\ In (token t) (tk :: rest)
                                   /\ targetToken t = target)
                    (tradesForOthers config target rest)).
  { eapply Forall_impl; [exact IH|]. simpl. intros t (H1 & H2 & H3). auto. }
  destruct (Js.gt (calculateTradeAmount config (quantity tk) false) 0) eqn:Hpos;
    [|exact Hrest].
  constructor; [|exact Hrest]. cbn [amount token targetToken].
  split; [|split; [left; reflexivity | reflexivity]].
  unfold calculateTradeAmount in *.
  destruct (Js.gt (quantity tk * (tradeAmountPercentage config / 100)) 0.000001) eqn:Hd.
  - apply gt_true in Hd. exact Hd.
  - rewrite gt_irrefl in Hpos. discriminate.
Qed.

(** With one token as preferred and gas token, the third priority of
    [getTokensToTrade] gives nothing. *)
Lemma getTokensToTrade_same_token config balance :
  preferredTokenKey config = galaTokenKey config ->
  getTokensToTrade config balance =
    (if shouldMaintainGalaBalance config balance
     then tradesForOthers config (galaTokenKey config) (otherTokens balance)
     else [])
    ++ tradesForOthers config (preferredTokenKey config) (otherTokens balance).
Proof.
  intros Heq. unfold getTokensToTrade.
  rewrite Heq, String.eqb_refl, andb_false_r. cbn [negb].
  now rewrite app_nil_r.
Qed.

Lemma processToken_others config acc token :
  Forall (fun tk => tokenKey tk <> preferredTokenKey config
                    /\ tokenKey tk <> galaTokenKey config) (acc_others acc) ->
  Forall (fun tk => tokenKey tk <> preferredTokenKey config
                    /\ tokenKey tk <> galaTokenKey config)
    (acc_others (processToken config acc token)).
Proof.
  intros H. unfold processToken.
  destruct (String.eqb (constructTokenKey token) (preferredTokenKey config)) eqn:Ep;
    [exact H|].
  destruct (String.eqb (constructTokenKey token) (galaTokenKey config)) eqn:Eg;
    [exact H|].
  cbn [acc_others]. apply Forall_app. split; [exact H|].
  constructor; [|constructor]. cbn [tokenKey].
  split; apply String.eqb_neq; assumption.
Qed.

Lemma fold_processToken_others config l acc :
  Forall (fun tk => tokenKey tk <> preferredTokenKey config
                    /\ tokenKey tk <> galaTokenKey config) (acc_others acc) ->
  Forall (fun tk => tokenKey tk <> preferredTokenKey config
                    /\ tokenKey tk <> galaTokenKey config)
    (acc_others (fold_left (processToken config) l acc)).
Proof.
  revert acc. induction l as [|a l IH]; intros acc H; cbn [fold_left]; [exact H|].
  apply IH. now apply processToken_others.
Qed.

(** Whatever the gateway lists, [getBalances] yields a summary that
    satisfies the invariant. *)
Lemma getBalances_othersExcludeReserved config assets balance :
  getBalances config (Js.Ok assets) = Js.Ok balance ->
  othersExcludeReserved config balance.
Proof.
  cbn [getBalances]. intros [= <-]. unfold othersExcludeReserved.
  cbn [otherTokens]. apply fold_processToken_others. constructor.
Qed.

(** With one token as preferred and gas token, the loop keeps the two
    balances equal. *)
Lemma fold_processToken_same config l acc :
  preferredTokenKey config = galaTokenKey config ->
  acc_preferred acc = acc_gala acc ->
  acc_preferred (fold_left (processToken config) l acc)
  = acc_gala (fold_left (processToken config) l acc).
Proof.
  intros Heq. revert acc.
  induction l as [|a l IH]; intros acc H; cbn [fold_left]; [exact H|].
  apply IH. unfold processToken. rewrite <- Heq.
  destruct (String.eqb (constructTokenKey a) (preferredTokenKey config));
    cbn [acc_preferred acc_gala]; [reflexivity | exact H].
Qed.

(** Tokens with another key leave the preferred balance alone. *)
Lemma fold_processToken_skip config l acc :
  Forall (fun a => constructTokenKey a <> preferredTokenKey config) l ->
  acc_preferred (fold_left (processToken config) l acc) = acc_preferred acc.
Proof.
  revert acc. induction l as [|a l IH]; intros acc H; cbn [fold_left]; [reflexivity|].
  inversion H as [|? ? Ha Hl]; subst.
  rewrite IH by assumption. unfold processToken.
  apply String.eqb_neq in Ha. rewrite Ha.
  destruct (String.eqb (constructTokenKey a) (galaTokenKey config)); reflexivity.
Qed.

(** The last listed asset with the preferred key decides the preferred
    balance. *)
Lemma processTokens_last_match config l1 a l2 :
  constructTokenKey a = preferredTokenKey config ->
  Forall (fun x => constructTokenKey x <> preferredTokenKey config) l2 ->
  acc_preferred (processTokens config (l1 ++ a :: l2)) = asset_quantity a.
Proof.
  intros Ha Hl2. unfold processTokens.
  rewrite fold_left_app. cbn [fold_left].
  rewrite fold_processToken_skip by assumption.
  unfold processToken. rewrite Ha, String.eqb_refl. reflexivity.
Qed.

(** C10.  When the preferred token is the gas token, [getBalances] returns
    a summary whose preferred and gas balances are the same number, which
    is the fetched quantity of that token when the inventory lists it
    once, and the token is never among [otherTokens]. *)
Theorem getBalances_preferred_is_gas config assets :
  preferredTokenKey config = galaTokenKey config ->
  exists balance,
    getBalances config (Js.Ok assets) = Js.Ok balance
    /\ preferredTokenBalance balance = galaTokenBalance balance
    /\ Forall (fun tk => tokenKey tk <> preferredTokenKey config) (otherTokens balance)
    /\ forall l1 a l2,
         tokens assets = l1 ++ a :: l2 ->
         constructTokenKey a = preferredTokenKey config ->
         Forall (fun x => constructTokenKey x <> preferredTokenKey config) l1 ->
         Forall (fun x => constructTokenKey x <> preferredTokenKey config) l2 ->
         preferredTokenBalance balance = asset_quantity a
         /\ galaTokenBalance balance = asset_quantity a.
Proof.
  intros Heq. eexists. split; [reflexivity|].
  cbn [preferredTokenBalance galaTokenBalance otherTokens].
  assert (Hsame : acc_preferred (processTokens config (tokens assets))
                  = acc_gala (processTokens config (tokens assets))).
  { apply fold_processToken_same; [exact Heq | reflexivity]. }
  split; [exact Hsame|]. split.
  - eapply Forall_impl.
    + apply (fold_processToken_others config (tokens assets)). constructor.
    + cbn beta. intros tk [H _]. exact H.
  - intros l1 a l2 Hl Ha _ Hl2.
    rewrite <- Hsame, Hl.
    split; apply processTokens_last_match; assumption.
Qed.

Lemma getBalances_preferred_is_gas_witness :
  exists balance,
    getBalances Scenario.galaOnlyConfig (Js.Ok Scenario.galaOnlyAssets) = Js.Ok balance
    /\ preferredTokenBalance balance = 321
    /\ galaTokenBalance balance = 321
    /\ map tokenKey (otherTokens balance)
       = [Scenario.key "GUSDC"; Scenario.key "GWBTC"].
Proof.
  destruct (getBalances_preferred_is_gas Scenario.galaOnlyConfig
              Scenario.galaOnlyAssets eq_refl)
    as (balance & Hget & _ & _ & Hone).
  exists balance. split; [exact Hget|].
  destruct (Hone [Scenario.asset "GUSDC" 50] (Scenario.asset "GALA" 321)
              [Scenario.asset "GWBTC" 0.0001] eq_refl eq_refl) as [Hp Hg].
  - repeat constructor; vm_compute; discriminate.
  - repeat constructor; vm_compute; discriminate.
  - split; [exact Hp|]. split; [exact Hg|].
    cbn [getBalances] in Hget. injection Hget as <-. vm_compute. reflexivity.
Defined.

(** C5.  When the preferred token is the gas token, no trade of
    [getTokensToTrade] has the gas token as its source, whatever the gas
    balance: the trade that spends excess gas is never emitted, so that
    every trade has one of the summary's other tokens as its source, and
    those exclude the gas token, by the invariant of balance summaries and
    for every summary that [getBalances] returns. *)
Theorem no_gas_source_when_preferred_is_gas config :
  preferredTokenKey config = galaTokenKey config ->
  (forall balance,
      Forall (fun t => In (token t) (otherTokens balance))
        (getTokensToTrade config balance))
  /\ (forall balance,
        othersExcludeReserved config balance ->
        Forall (fun t => tokenKey (token t) <> galaTokenKey config)
          (getTokensToTrade config balance))
  /\ (forall assets balance,
        getBalances config (Js.Ok assets) = Js.Ok balance ->
        Forall (fun t => tokenKey (token t) <> galaTokenKey config)
          (getTokensToTrade config balance)).
Proof.
  intros Heq.
  assert (Hsrc : forall balance,
             Forall (fun t => In (token t) (otherTokens balance))
               (getTokensToTrade config balance)).
  { intros balance. rewrite getTokensToTrade_same_token by exact Heq.
    assert (Hone : forall target,
               Forall (fun t => In (token t) (otherTokens balance))
                 (tradesForOthers config target (otherTokens balance))).
    { intros target. eapply Forall_impl; [apply tradesForOthers_amount|].
      cbn beta. intros t (_ & Hin & _). exact Hin. }
    apply Forall_app. split; [|apply Hone].
    destruct (shouldMaintainGalaBalance config balance); [apply Hone | constructor]. }
  assert (Hwf : forall balance,
             othersExcludeReserved config balance ->
             Forall (fun t => tokenKey (token t) <> galaTokenKey config)
               (getTokensToTrade config balance)).
  { intros balance Hinv. eapply Forall_impl; [apply Hsrc|].
    cbn beta. intros t Hin.
    unfold othersExcludeReserved in Hinv. rewrite Forall_forall in Hinv.
    apply list_elem_of_In in Hin. exact (proj2 (Hinv _ Hin)). }
  split; [exact Hsrc|]. split; [exact Hwf|].
  intros assets balance Hget. apply Hwf.
  exact (getBalances_othersExcludeReserved config assets balance Hget).
Qed.

Lemma no_gas_source_when_preferred_is_gas_witness :
  Forall (fun t => tokenKey (token t) <> galaTokenKey Scenario.galaOnlyConfig)
    (getTokensToTrade Scenario.galaOnlyConfig Scenario.richBalance)
  /\ canTradeExcessGala Scenario.galaOnlyConfig Scenario.richBalance = true
  /\ length (getTokensToTrade Scenario.galaOnlyConfig Scenario.richBalance) = 1%nat.
Proof.
  split; [|split; vm_compute; reflexivity].
  destruct (no_gas_source_when_preferred_is_gas Scenario.galaOnlyConfig eq_refl)
    as (_ & Hwf & _).
  apply Hwf. repeat constructor; vm_compute; discriminate.
Defined.

(** C3, as stated, fails: in the DCA scenario (gas balance 150, floor
    100) the list does not consist of the GUSDC trade followed by a GALA
    trade of 2.5. *)
Lemma dca_scenario_not_two_trades :
  ~ exists t1 t2,
      getTokensToTrade (Scenario.config false) Scenario.dcaBalance = [t1; t2]
      /\ tokenKey (token t1) = Scenario.key "GUSDC"
      /\ targetToken t1 = Scenario.key "SILK" /\ amount t1 == 5
      /\ tokenKey (token t2) = Scenario.key "GALA"
      /\ targetToken t2 = Scenario.key "SILK" /\ amount t2 == 2.5.
Proof.
  intros (t1 & t2 & H & _). vm_compute in H. discriminate H.
Qed.

(** C3, amended.  In the DCA scenario [getTokensToTrade] returns exactly
    one trade, GUSDC into SILK for 5: the gas balance 150 is not above
    twice the floor of 100, so no excess gas is spent, and it is not below
    the floor, so no gas is refilled. *)
Theorem dca_scenario_trades :
  map Scenario.view (getTokensToTrade (Scenario.config false) Scenario.dcaBalance)
  = [(Scenario.key "GUSDC", Scenario.key "SILK", 5)]
  /\ canTradeExcessGala (Scenario.config false) Scenario.dcaBalance = false
  /\ shouldMaintainGalaBalance (Scenario.config false) Scenario.dcaBalance = false.
Proof. repeat split; vm_compute; reflexivity. Qed.



End BalanceManagerProps.

(** ** Path finder *)

Module CircularPathFinderProps.
Import CircularPathFinder.

(** C2, as stated, fails: the finder does not return one 2-cycle, three
    3-cycles and four paths in total for the pool graph of the scenario. *)
Lemma cycle_scenario_not_four_paths :
  ~ (length (Scenario.withHops 2 Scenario.cyclePaths) = 1%nat
     /\ length (Scenario.withHops 3 Scenario.cyclePaths) = 3%nat
     /\ length Scenario.cyclePaths = 4%nat).
Proof.
  intros (H & _). vm_compute in H. discriminate H.
Qed.

(** C2, amended.  For the pool graph [(A,B,500), (A,B,3000), (B,C,3000),
    (C,A,10000)], base token A and at most 3 hops, whatever the snapshots
    of the four pools above the liquidity filter, the two A-B snapshots
    being two objects, [findCircularPaths] returns six paths: the 2-cycle
    A, B, A twice, once for each order of the two A-B pools, and four
    3-cycles, A, B, C, A and A, C, B, A each with either A-B pool. *)
Theorem cycle_scenario_paths (ab500 ab3000 bc3000 ca10000 : Q * Z * nat)
    (minLiquidity : Q) :
  minLiquidity < fst (fst ab500) -> minLiquidity < fst (fst ab3000) ->
  minLiquidity < fst (fst bc3000) -> minLiquidity < fst (fst ca10000) ->
  snd ab500 <> snd ab3000 ->
  map Scenario.route
    (findCircularPaths (Scenario.key "A") 3
       (Scenario.cycleGraph ab500 ab3000 bc3000 ca10000) minLiquidity)
  = Scenario.cycleRoutes.
Proof.
  destruct ab500 as [[l0 u0] r0], ab3000 as [[l1 u1] r1],
           bc3000 as [[l2 u2] r2], ca10000 as [[l3 u3] r3].
  cbn [fst snd]. intros H0 H1 H2 H3 Hne.
  apply gt_true in H0, H1, H2, H3.
  unfold findCircularPaths, Scenario.cycleGraph.
  cbn [List.filter Scenario.snapshot liquidity fst snd].
  rewrite H0, H1, H2, H3.
  assert (E01 : Nat.eqb r0 r1 = false) by now apply Nat.eqb_neq.
  assert (E10 : Nat.eqb r1 r0 = false) by (rewrite Nat.eqb_sym; exact E01).
  set (p0 := Scenario.snapshot "A" "B" 500 l0 u0 r0).
  set (p1 := Scenario.snapshot "A" "B" 3000 l1 u1 r1).
  set (p2 := Scenario.snapshot "B" "C" 3000 l2 u2 r2).
  set (p3 := Scenario.snapshot "C" "A" 10000 l3 u3 r3).
  set (adj := buildAdjacencyMap [p0; p1; p2; p3]).
  (* the three adjacency lists, in the order of the pools *)
  assert (HA : neighborsOf adj "A|Unit|none|none"
               = [ {| token := "B|Unit|none|none"; pool := p0 |};
                   {| token := "B|Unit|none|none"; pool := p1 |};
                   {| token := "C|Unit|none|none"; pool := p3 |} ])
    by (vm_compute; reflexivity).
  assert (HB : neighborsOf adj "B|Unit|none|none"
               = [ {| token := "A|Unit|none|none"; pool := p0 |};
                   {| token := "A|Unit|none|none"; pool := p1 |};
                   {| token := "C|Unit|none|none"; pool := p2 |} ])
    by (vm_compute; reflexivity).
  assert (HC : neighborsOf adj "C|Unit|none|none"
               = [ {| token := "B|Unit|none|none"; pool := p2 |};
                   {| token := "A|Unit|none|none"; pool := p3 |} ])
    by (vm_compute; reflexivity).
  clearbody adj.
  change (Scenario.key "A") with "A|Unit|none|none"%string.
  change (Js.ge 3 2) with true. change (Js.ge 3 3) with true.
  change (Js.ge 3 4) with false.
  unfold findTwoHopCycles, findThreeHopCycles.
  repeat (rewrite ?HA, ?HB, ?HC; cbn [flat_map app token pool]).
  (* what is left are the tests on the tokens and on the identity of pools *)
  unfold same_object. subst p0 p1 p2 p3. cbn [ref Scenario.snapshot].
  rewrite E01, E10, !Nat.eqb_refl.
  vm_compute. reflexivity.
Qed.

Lemma cycle_scenario_paths_witness :
  map Scenario.route Scenario.cyclePaths = Scenario.cycleRoutes
  /\ length (Scenario.withHops 2 Scenario.cyclePaths) = 2%nat
  /\ length (Scenario.withHops 3 Scenario.cyclePaths) = 4%nat
  /\ length Scenario.cyclePaths = 6%nat.
Proof.
  split; [|repeat split; vm_compute; reflexivity].
  apply (cycle_scenario_paths (5000, 0%Z, 0%nat) (5000, 0%Z, 1%nat)
           (5000, 0%Z, 2%nat) (5000, 0%Z, 3%nat) 1000);
    cbn [fst snd]; (reflexivity || discriminate).
Defined.

End CircularPathFinderProps.

(** ** [Array.prototype.sort] with a descending numeric key *)

Section SortFacts.

Context {A : Type} (key : A -> Q).

Let descending (a b : A) : Q := key b - key a.

Lemma insert_Permutation (compareFn : A -> A -> Q) x l :
  Permutation (Js.insert compareFn x l) (x :: l).
Proof.
  induction l as [|y l IH]; cbn [Js.insert]; [reflexivity|].
  destruct (Js.gt (compareFn x y) 0); [|reflexivity].
  rewrite IH. apply perm_swap.
Qed.

Lemma sort_Permutation (compareFn : A -> A -> Q) l :
  Permutation (Js.sort compareFn l) l.
Proof.
  induction l as [|x l IH]; cbn [Js.sort fold_right]; [reflexivity|].
  fold (Js.sort compareFn l). rewrite insert_Permutation. now constructor.
Qed.

Lemma insert_descending x l :
  StronglySorted (fun a b => key b <= key a) l ->
  StronglySorted (fun a b => key b <= key a) (Js.insert descending x l).
Proof.
  induction l as [|y l IH]; intros Hs; cbn [Js.insert].
  - repeat constructor.
  - inversion Hs as [|? ? Hl Hy]; subst.
    destruct (Js.gt (descending x y) 0) eqn:E; unfold descending in E.
    + apply gt_true in E. constructor; [now apply IH|].
      rewrite (insert_Permutation descending x l).
      constructor; [lra | exact Hy].
    + apply gt_false in E. constructor; [exact Hs|].
      constructor; [lra|].
      eapply Forall_impl; [exact Hy|]. cbn beta. intros z Hz. lra.
Qed.

Lemma sort_descending l :
  StronglySorted (fun a b => key b <= key a) (Js.sort descending l).
Proof.
  induction l as [|x l IH]; cbn [Js.sort fold_right]; [constructor|].
  now apply insert_descending.
Qed.

(** Stability: the elements with one and the same key keep their order. *)
Lemma insert_stable v x l :
  List.filter (fun o => Qeq_bool (key o) v) (Js.insert descending x l)
  = List.filter (fun o => Qeq_bool (key o) v) (x :: l).
Proof.
  induction l as [|y l IH]; cbn [Js.insert]; [reflexivity|].
  destruct (Js.gt (descending x y) 0) eqn:E; [|reflexivity].
  unfold descending in E. apply gt_true in E.
  cbn [List.filter] in *. rewrite IH.
  destruct (Qeq_bool (key y) v) eqn:Ey; [|reflexivity].
  destruct (Qeq_bool (key x) v) eqn:Ex; [|reflexivity].
  apply Qeq_bool_iff in Ey, Ex. lra.
Qed.

Lemma sort_stable v l :
  List.filter (fun o => Qeq_bool (key o) v) (Js.sort descending l)
  = List.filter (fun o => Qeq_bool (key o) v) l.
Proof.
  induction l as [|x l IH]; cbn [Js.sort fold_right]; [reflexivity|].
  fold (Js.sort descending l). rewrite insert_stable.
  cbn [List.filter]. now rewrite IH.
Qed.

End SortFacts.

(** The sorted array depends on the signs of the comparisons only. *)
Lemma sort_by_sign {A : Type} (f g : A -> A -> Q) (l : list A) :
  (forall a b, Js.gt (f a b) 0 = Js.gt (g a b) 0) ->
  Js.sort f l = Js.sort g l.
Proof.
  intros Hsign. unfold Js.sort.
  induction l as [|x l IH]; cbn [fold_right]; [reflexivity|].
  rewrite IH. generalize (fold_right (Js.insert g) [] l). intros sorted.
  induction sorted as [|y sorted IHs]; cbn [Js.insert]; [reflexivity|].
  rewrite Hsign, IHs. reflexivity.
Qed.

(** ** Profit calculator *)

Module ProfitCalculatorProps.
Import CircularPathFinder ProfitCalculator Predicates.

(** [calculateProfitability] of profit-calculator.ts subtracts a gas
    estimate of half a unit for each hop. *)
Lemma calculateProfitability_net quote path inputAmount now opp :
  calculateProfitability quote path inputAmount now = Js.Ok opp ->
  grossProfit opp = expectedOutputAmount opp - inputAmount
  /\ netProfit opp = grossProfit opp - 0.5 * inject_Z (Z.of_nat (hops path))
  /\ profitPercentage opp = netProfit opp / inputAmount * 100.
Proof.
  unfold calculateProfitability.
  destruct (chainQuotes quote path 0 (hops path) inputAmount [])
    as [[currentAmount impacts]|e]; [|discriminate].
  intros [= <-]. cbn. repeat split.
Qed.

(** The calculator on [BigNumber] amounts takes 2 percent off the gross
    profit instead. *)
Lemma calculateProfitabilityRevised_net quote path inputAmount now opp :
  calculateProfitabilityRevised quote path inputAmount now = Js.Ok opp ->
  grossProfit opp = expectedOutputAmount opp - inputAmount
  /\ netProfit opp = grossProfit opp * 0.98
  /\ profitPercentage opp
     = BigNumber.toNumber (BigNumber.div (netProfit opp) inputAmount * 100).
Proof.
  unfold calculateProfitabilityRevised.
  destruct (chainQuotes quote path 0 (hops path) inputAmount [])
    as [[currentAmount impacts]|e]; [|discriminate].
  intros [= <-]. cbn. repeat split.
Qed.

(** The division of bignumber.js gives one decimal for equal operands,
    however they are written. *)
Lemma BigNumber_div_Qeq a a' b b' :
  a == a' -> b == b' -> BigNumber.div a b = BigNumber.div a' b'.
Proof.
  intros Ha Hb. unfold BigNumber.div.
  rewrite (Qred_complete (a / b) (a' / b')); [reflexivity|].
  rewrite Ha, Hb. reflexivity.
Qed.

(** C1.  For every circular path and input amount, the net profit that
    the profit calculator reports ([calculateProfitabilityRevised], the
    [calculateProfitability] on [BigNumber] amounts) is the gross profit,
    the expected output less the input, times 0.98, and the profit
    percentage is the number that
    [netProfit.dividedBy(inputAmount).multipliedBy(100).toNumber()]
    gives.  For a 3-hop path whose chained quotes turn 100 units of the
    base token into 101.5, the gross profit is 1.5, the net profit is
    1.47 and the profit percentage is the number 1.47, which
    [filterProfitable] of that calculator keeps at the threshold 1.0 and
    drops at 2.0. *)
Theorem net_profit_is_haircut quote path inputAmount now opp :
  calculateProfitabilityRevised quote path inputAmount now = Js.Ok opp ->
  (grossProfit opp = expectedOutputAmount opp - inputAmount
   /\ netProfit opp = grossProfit opp * 0.98
   /\ profitPercentage opp
      = BigNumber.toNumber (BigNumber.div (netProfit opp) inputAmount * 100))
  /\ (hops path = 3%nat ->
      inputAmount == 100 ->
      expectedOutputAmount opp == 101.5 ->
      grossProfit opp == 1.5
      /\ netProfit opp == 1.47
      /\ profitPercentage opp = Double.parseFloat 1.47
      /\ BigNumber.ofNumber (profitPercentage opp) == 1.47
      /\ filterProfitableRevised [opp] 1 = [opp]
      /\ filterProfitableRevised [opp] 2 = []).
Proof.
  intros Hcalc.
  pose proof (calculateProfitabilityRevised_net _ _ _ _ _ Hcalc) as Hnet.
  split; [exact Hnet|].
  destruct Hnet as (Hgross & Hnet & Hpct).
  intros _ Hin Hout.
  assert (Hg : grossProfit opp == 1.5) by (rewrite Hgross, Hin, Hout; reflexivity).
  assert (Hn : netProfit opp == 1.47) by (rewrite Hnet, Hg; reflexivity).
  assert (Hp : profitPercentage opp = Double.parseFloat 1.47).
  { rewrite Hpct, (BigNumber_div_Qeq _ 1.47 _ 100 Hn Hin). vm_compute. reflexivity. }
  assert (Hkeep : Js.gt (netProfit opp) 0 = true) by (apply gt_true; rewrite Hn; reflexivity).
  split; [exact Hg|]. split; [exact Hn|]. split; [exact Hp|].
  split; [rewrite Hp; vm_compute; reflexivity|].
  unfold filterProfitableRevised. cbn [List.filter]. rewrite Hkeep, Hp.
  split; vm_compute; reflexivity.
Qed.

(** The path through the three pools of the scenario, whose quotes turn
    100 into 101.5. *)
Lemma net_profit_is_haircut_witness :
  exists opp,
    calculateProfitabilityRevised Scenario.triangleQuote Scenario.trianglePath 100 0
    = Js.Ok opp
    /\ netProfit opp == 1.47
    /\ BigNumber.ofNumber (profitPercentage opp) == 1.47
    /\ filterProfitableRevised [opp] 1 = [opp]
    /\ filterProfitableRevised [opp] 2 = [].
Proof.
  destruct (calculateProfitabilityRevised Scenario.triangleQuote
              Scenario.trianglePath 100 0) as [opp|e] eqn:E.
  - exists opp. split; [reflexivity|].
    assert (Hout : expectedOutputAmount opp == 101.5).
    { vm_compute in E. injection E as <-. vm_compute. reflexivity. }
    destruct (net_profit_is_haircut Scenario.triangleQuote Scenario.trianglePath
                100 0 opp E)
      as (_ & Hscenario).
    destruct (Hscenario eq_refl (Qeq_refl 100) Hout) as (_ & Hn & _ & Hp & H1 & H2).
    repeat split; assumption.
  - vm_compute in E. discriminate E.
Defined.



(** *** Ties in the lists that the detector builds

    The detector lists the paths with fewer hops first and evaluates them
    in that order, so that in its ranked list equal profit percentages do
    come out with fewer hops first and then by detection time. *)

Lemma StronglySorted_filter {A} (R : A -> A -> Prop) (f : A -> bool) l :
  StronglySorted R l -> StronglySorted R (List.filter f l).
Proof.
  induction 1 as [|a l Hl IH Ha]; cbn [List.filter]; [constructor|].
  destruct (f a); [|exact IH].
  constructor; [exact IH|].
  rewrite Forall_forall in Ha. apply Forall_forall.
  intros x Hx. apply Ha. apply list_elem_of_In. apply list_elem_of_In in Hx.
  apply filter_In in Hx. tauto.
Qed.

Lemma ranked_of_stable (R : ArbitrageOpportunity -> ArbitrageOpportunity -> Prop) out :
  StronglySorted (fun a b => profitPercentage b <= profitPercentage a) out ->
  (forall v, StronglySorted R (withPercentage v out)) ->
  StronglySorted
    (fun a b => profitPercentage b < profitPercentage a
                \/ (profitPercentage a == profitPercentage b /\ R a b)) out.
Proof.
  induction 1 as [|a rest Hrest IH Ha]; intros Hties; [constructor|].
  constructor.
  - apply IH. intros v. specialize (Hties v).
    unfold withPercentage in *. cbn [List.filter] in Hties.
    destruct (Qeq_bool (profitPercentage a) v); [|exact Hties].
    now inversion Hties.
  - specialize (Hties (profitPercentage a)).
    unfold withPercentage in Hties. cbn [List.filter] in Hties.
    rewrite (proj2 (Qeq_bool_iff _ _) (Qeq_refl _)) in Hties.
    inversion Hties as [|? ? _ Hhead]; subst.
    rewrite Forall_forall in Ha, Hhead. apply Forall_forall.
    intros b Hb. specialize (Ha b Hb).
    destruct (Qlt_le_dec (profitPercentage b) (profitPercentage a)) as [Hlt|Hle];
      [left; exact Hlt|].
    right. assert (Heq : profitPercentage b == profitPercentage a) by lra.
    split; [symmetry; exact Heq|].
    apply Hhead. apply list_elem_of_In, filter_In.
    split; [now apply list_elem_of_In | now apply Qeq_bool_iff].
Qed.

Lemma ranked_when_listed_in_detection_order opportunities minProfitPercent :
  StronglySorted detectedBefore opportunities ->
  StronglySorted rankedBefore
    (sortByProfitability (filterProfitable opportunities minProfitPercent)).
Proof.
  intros Hin. unfold rankedBefore.
  apply ranked_of_stable.
  - apply (sort_descending profitPercentage).
  - intros v. unfold sortByProfitability, withPercentage.
    rewrite (sort_stable profitPercentage).
    apply StronglySorted_filter. unfold filterProfitable.
    now apply StronglySorted_filter.
Qed.


Lemma Forall_flat_map_intro {A B} (P : B -> Prop) (f : A -> list B) l :
  (forall x, Forall P (f x)) -> Forall P (flat_map f l).
Proof.
  intros H. induction l as [|x l IH]; cbn [flat_map]; [constructor|].
  apply Forall_app. split; [apply H | exact IH].
Qed.

Lemma findTwoHopCycles_hops baseToken adjacencyMap :
  Forall (fun p => hops p = 2%nat) (findTwoHopCycles baseToken adjacencyMap).
Proof.
  unfold findTwoHopCycles.
  apply Forall_flat_map_intro; intros e1.
  apply Forall_flat_map_intro; intros e2.
  destruct (_ && _); repeat constructor.
Qed.

Lemma findThreeHopCycles_hops baseToken adjacencyMap :
  Forall (fun p => hops p = 3%nat) (findThreeHopCycles baseToken adjacencyMap).
Proof.
  unfold findThreeHopCycles.
  apply Forall_flat_map_intro; intros e1.
  destruct (String.eqb (token e1) baseToken); [constructor|].
  apply Forall_flat_map_intro; intros e2.
  destruct (_ || _); [constructor|].
  apply Forall_flat_map_intro; intros e3.
  destruct (String.eqb (token e3) baseToken); repeat constructor.
Qed.

Lemma findFourHopCycles_hops baseToken adjacencyMap :
  Forall (fun p => hops p = 4%nat) (findFourHopCycles baseToken adjacencyMap).
Proof.
  unfold findFourHopCycles.
  apply Forall_flat_map_intro; intros e1.
  destruct (String.eqb (token e1) baseToken); [constructor|].
  apply Forall_flat_map_intro; intros e2.
  destruct (_ || _); [constructor|].
  apply Forall_flat_map_intro; intros e3.
  destruct (_ || _); [constructor|].
  apply Forall_flat_map_intro; intros e4.
  destruct (String.eqb (token e4) baseToken); repeat constructor.
Qed.

Lemma StronglySorted_app {A} (R : A -> A -> Prop) l1 l2 :
  StronglySorted R l1 -> StronglySorted R l2 ->
  Forall (fun x => Forall (R x) l2) l1 ->
  StronglySorted R (l1 ++ l2).
Proof.
  intros H1 H2 H12. induction H1 as [|x l1 Hl1 IH Hx]; cbn [app]; [exact H2|].
  inversion H12 as [|? ? Hx2 Hrest]; subst.
  constructor; [now apply IH|].
  apply Forall_app. split; assumption.
Qed.

Lemma same_hops_sorted n (l : list CircularPath) :
  Forall (fun p => hops p = n) l ->
  StronglySorted (fun p q => (hops p <= hops q)%nat) l.
Proof.
  induction 1 as [|p l Hp Hl IH]; constructor; [exact IH|].
  eapply Forall_impl; [exact Hl|]. cbn beta. intros q Hq. lia.
Qed.

Lemma hops_between n m (l1 l2 : list CircularPath) :
  (n <= m)%nat ->
  Forall (fun p => (hops p <= n)%nat) l1 ->
  Forall (fun p => (m <= hops p)%nat) l2 ->
  Forall (fun x => Forall (fun q => (hops x <= hops q)%nat) l2) l1.
Proof.
  intros Hnm H1 H2. eapply Forall_impl; [exact H1|]. cbn beta. intros x Hx.
  eapply Forall_impl; [exact H2|]. cbn beta. intros q Hq. lia.
Qed.

(** A list in blocks of 2, 3 and 4 hops is ordered by hops. *)
Lemma blocks_by_hops (l2 l3 l4 : list CircularPath) :
  Forall (fun p => hops p = 2%nat) l2 ->
  Forall (fun p => hops p = 3%nat) l3 ->
  Forall (fun p => hops p = 4%nat) l4 ->
  StronglySorted (fun p q => (hops p <= hops q)%nat) (l2 ++ l3 ++ l4).
Proof.
  intros H2 H3 H4.
  apply StronglySorted_app; [now apply (same_hops_sorted 2) | |].
  - apply StronglySorted_app;
      [now apply (same_hops_sorted 3) | now apply (same_hops_sorted 4) |].
    apply (hops_between 3 4); [lia | |].
    + eapply Forall_impl; [exact H3|]. cbn beta. intros; lia.
    + eapply Forall_impl; [exact H4|]. cbn beta. intros; lia.
  - apply (hops_between 2 3); [lia | |].
    + eapply Forall_impl; [exact H2|]. cbn beta. intros; lia.
    + apply Forall_app. split.
      * eapply Forall_impl; [exact H3|]. cbn beta. intros; lia.
      * eapply Forall_impl; [exact H4|]. cbn beta. intros; lia.
Qed.

Lemma findCircularPaths_by_hops baseToken maxHops availablePools minLiquidity :
  StronglySorted (fun p q => (hops p <= hops q)%nat)
    (findCircularPaths baseToken maxHops availablePools minLiquidity).
Proof.
  unfold findCircularPaths. apply blocks_by_hops.
  - destruct (Js.ge maxHops 2); [apply findTwoHopCycles_hops | constructor].
  - destruct (Js.ge maxHops 3); [apply findThreeHopCycles_hops | constructor].
  - destruct (Js.ge maxHops 4); [apply findFourHopCycles_hops | constructor].
Qed.

Section DetectionOrder.

Variable quote : PoolData -> Q -> bool -> Js.result OfflineQuote.QuoteExactAmountRes.
Variable clock : nat -> Z.
Hypothesis clock_monotone : forall i j, (i <= j)%nat -> (clock i <= clock j)%Z.

Lemma calculateProfitability_path p amount now opp :
  calculateProfitability quote p amount now = Js.Ok opp ->
  path opp = p /\ timestamp opp = now.
Proof.
  unfold calculateProfitability.
  destruct (chainQuotes quote p 0 (hops p) amount []) as [[c i]|e]; [|discriminate].
  intros [= <-]. split; reflexivity.
Qed.

(** Every opportunity of [calculateMultiplePaths] is for one of the paths
    and was evaluated at one of the later clock readings. *)
Lemma calculateMultiplePaths_origin paths amount k :
  Forall (fun o => In (path o) paths /\ (clock k <= timestamp o)%Z)
    (calculateMultiplePaths quote paths amount clock k).
Proof.
  revert k. induction paths as [|p rest IH]; intros k;
    cbn [calculateMultiplePaths]; [constructor|].
  assert (Hrest : Forall (fun o => In (path o) (p :: rest) /\ (clock k <= timestamp o)%Z)
                    (calculateMultiplePaths quote rest amount clock (S k))).
  { eapply Forall_impl; [apply IH|]. cbn beta. intros o [Hin Ht]. split; [now right|].
    pose proof (clock_monotone k (S k)). lia. }
  destruct (calculateProfitability quote p amount (clock k)) as [opp|e] eqn:E;
    [|exact Hrest].
  apply calculateProfitability_path in E. destruct E as [Hp Ht].
  constructor; [|exact Hrest]. split; [left; now rewrite Hp | lia].
Qed.

Lemma calculateMultiplePaths_detection_order paths amount k :
  StronglySorted (fun p q => (hops p <= hops q)%nat) paths ->
  StronglySorted detectedBefore (calculateMultiplePaths quote paths amount clock k).
Proof.
  intros Hs. revert k. induction Hs as [|p rest Hrest IH Hp]; intros k;
    cbn [calculateMultiplePaths]; [constructor|].
  destruct (calculateProfitability quote p amount (clock k)) as [opp|e] eqn:E;
    [|apply IH].
  apply calculateProfitability_path in E. destruct E as [Hpath Ht].
  constructor; [apply IH|].
  eapply Forall_impl; [apply (calculateMultiplePaths_origin rest amount (S k))|].
  cbn beta. intros o [Hin Hto]. unfold detectedBefore. rewrite Hpath, Ht.
  rewrite Forall_forall in Hp. apply list_elem_of_In in Hin. specialize (Hp _ Hin).
  pose proof (clock_monotone k (S k)).
  destruct (Nat.eq_dec (hops p) (hops (path o))) as [Heq|Hne];
    [right; split; [exact Heq | lia] | left; lia].
Qed.

(** The ranked list of [findArbitrageOpportunities] is in the order of
    the specification: descending profit percentage, ties by fewer hops
    and then by earlier detection. *)
Lemma findArbitrageOpportunities_ranked history baseToken amount maxHops
    availablePools minLiquidity minProfitPercent :
  StronglySorted rankedBefore
    (fst (ArbitrageDetector.findArbitrageOpportunities quote history baseToken amount
            maxHops availablePools minLiquidity minProfitPercent clock)).
Proof.
  unfold ArbitrageDetector.findArbitrageOpportunities.
  pose proof (findCircularPaths_by_hops baseToken maxHops availablePools minLiquidity)
    as Hpaths.
  destruct (findCircularPaths baseToken maxHops availablePools minLiquidity)
    as [|p paths]; cbn [fst]; [constructor|].
  apply ranked_when_listed_in_detection_order.
  now apply calculateMultiplePaths_detection_order.
Qed.

End DetectionOrder.

End ProfitCalculatorProps.

(** ** Trading strategy *)

Module TradingStrategyProps.
Import TradingStrategy Predicates.

Section Quoting.

Variable config : BotConfig.
Variable world : World.

Lemma wellQuoted_app p a b :
  wellQuoted config p (a ++ b)
  <-> wellQuoted config p a /\ wellQuoted config (fold_left monitor a p) b.
Proof.
  revert p. induction a as [|e a IH]; intros p; cbn [app wellQuoted fold_left].
  - tauto.
  - rewrite IH. tauto.
Qed.

Lemma selfQuoted_nil : selfQuoted config [].
Proof. intros p. exact I. Qed.

Lemma selfQuoted_app a b :
  selfQuoted config a -> selfQuoted config b -> selfQuoted config (a ++ b).
Proof.
  intros Ha Hb p. apply wellQuoted_app. split; [apply Ha | apply Hb].
Qed.

Lemma selfQuoted_single e : isSwap e = false -> selfQuoted config [e].
Proof.
  intros He p. cbn [wellQuoted]. split; [|exact I].
  destruct e; try exact I. discriminate He.
Qed.

Lemma quotesFirst_ret {A} (a : A) : quotesFirst config (ret a).
Proof.
  intros s. exists []. cbn. rewrite app_nil_r. split; [reflexivity | apply selfQuoted_nil].
Qed.

Lemma quotesFirst_throw {A} e : quotesFirst config (@throw A e).
Proof.
  intros s. exists []. cbn. rewrite app_nil_r. split; [reflexivity | apply selfQuoted_nil].
Qed.

Lemma quotesFirst_liftResult {A} (r : Js.result A) : quotesFirst config (liftResult r).
Proof. destruct r; [apply quotesFirst_ret | apply quotesFirst_throw]. Qed.

Lemma quotesFirst_readTrace {A} (f : list Event -> A) : quotesFirst config (readTrace f).
Proof.
  intros s. exists []. cbn. rewrite app_nil_r. split; [reflexivity | apply selfQuoted_nil].
Qed.

Lemma quotesFirst_pushHistory r : quotesFirst config (pushHistory r).
Proof.
  intros s. exists []. cbn. rewrite app_nil_r. split; [reflexivity | apply selfQuoted_nil].
Qed.

Lemma quotesFirst_call {A} (answer : list Event -> A) ev :
  (forall a, isSwap (ev a) = false) -> quotesFirst config (call answer ev).
Proof.
  intros Hev s. eexists. cbn. split; [reflexivity|].
  apply selfQuoted_single, Hev.
Qed.

Lemma quotesFirst_bind {A B} (m : M A) (k : A -> M B) :
  quotesFirst config m -> (forall a, quotesFirst config (k a)) ->
  quotesFirst config (bind m k).
Proof.
  intros Hm Hk s. unfold bind.
  destruct (Hm s) as (e1 & H1 & Q1).
  destruct (m s) as [[a|e] s1]; cbn [snd] in *.
  - destruct (Hk a s1) as (e2 & H2 & Q2).
    exists (e1 ++ e2). rewrite H2, H1, app_assoc.
    split; [reflexivity | now apply selfQuoted_app].
  - exists e1. split; assumption.
Qed.

Lemma quotesFirst_attempt {A} (m : M A) :
  quotesFirst config m -> quotesFirst config (attempt m).
Proof.
  intros Hm s. unfold attempt.
  destruct (Hm s) as (e1 & H1 & Q1).
  destruct (m s) as [r s1]; cbn [snd] in *. exists e1. split; assumption.
Qed.

Create HintDb quotes.

Hint Resolve quotesFirst_ret quotesFirst_throw quotesFirst_liftResult
  quotesFirst_readTrace quotesFirst_pushHistory quotesFirst_attempt : quotes.

Ltac quotes_step :=
  first [ apply quotesFirst_bind; [|intros ?]
        | apply quotesFirst_call; intros ?; reflexivity
        | solve [auto with quotes] ].

Lemma quotesFirst_probeFeeTiers tokenA tokenB tiers pools :
  quotesFirst config (probeFeeTiers world tokenA tokenB tiers pools).
Proof.
  revert pools. induction tiers as [|fee rest IH]; intros pools;
    cbn [probeFeeTiers]; [auto with quotes|].
  quotes_step; [quotes_step|].
  destruct a as [poolData|e]; [|apply IH].
  destruct (Js.gt (Double.parseFloat (default 0 (pd_liquidity poolData))) 0); [|apply IH].
  destruct (pd_liquidity poolData), (pd_sqrtPrice poolData); apply IH.
Qed.

Lemma quotesFirst_choosePoolFee src dst fee :
  quotesFirst config (choosePoolFee world src dst fee).
Proof.
  unfold choosePoolFee, findAvailablePools.
  destruct (feeMissing fee); [|auto with quotes].
  quotes_step.
  - quotes_step; [apply quotesFirst_probeFeeTiers | auto with quotes].
  - destruct a; auto with quotes.
Qed.

(** From the quote to the end of the submission: each leaf of the
    control flow is inspected. *)
Lemma quotesFirst_quoteAndSubmit result src dst amount poolFee :
  quotesFirst config (quoteAndSubmit config world result src dst amount poolFee).
Proof.
  intros s. unfold quoteAndSubmit, bind, call, liftResult, ret, throw.
  cbv zeta. cbn [trace tradeHistory snd fst].
  set (exactIn := Double.toString amount).
  destruct (quoteExactInput world (trace s) src dst exactIn poolFee)
    as [quote|e] eqn:Equote.
  2:{ eexists. split; [reflexivity|]. intros p. cbn. tauto. }
  destruct (outputAmountOf quote) as [out|] eqn:Eout.
  2:{ eexists. split; [reflexivity|]. intros p. cbn. tauto. }
  cbn [trace tradeHistory snd fst].
  destruct (eventSocketConnected world _);
    [| destruct (connectEventSocket world _) ];
    cbn [trace tradeHistory snd fst];
    try destruct (swap world _ src dst poolFee exactIn _ _) as [pendingTx|e];
    cbn [trace tradeHistory snd fst];
    try destruct (wait world _ pendingTx);
    cbn [trace tradeHistory snd fst];
    (eexists; split;
     [ repeat rewrite <- app_assoc; reflexivity
     | intros p; simpl; rewrite ?Eout; simpl; repeat split ]).
Qed.

Lemma quotesFirst_executeTrade src dst amount fee :
  quotesFirst config (executeTrade config world src dst amount fee).
Proof.
  unfold executeTrade. quotes_step; [auto with quotes|].
  destruct (negb (enableTrading config)).
  - quotes_step; [auto with quotes|].
    quotes_step; auto with quotes.
  - quotes_step.
    + apply quotesFirst_attempt. unfold executeLive.
      quotes_step; [apply quotesFirst_choosePoolFee|].
      apply quotesFirst_quoteAndSubmit.
    + quotes_step; auto with quotes.
Qed.

Lemma quotesFirst_tryPath src dst amount path :
  quotesFirst config (tryPath config world src dst amount path).
Proof.
  unfold tryPath.
  destruct path as [|token0 [|intermediate [|token1 [|? ?]]]]; auto with quotes.
  destruct (_ || _); [auto with quotes|].
  quotes_step; [apply quotesFirst_executeTrade|].
  destruct (_ || _); [auto with quotes|].
  quotes_step; [apply quotesFirst_executeTrade|].
  destruct (_ && _); [|auto with quotes].
  quotes_step; auto with quotes.
Qed.

Lemma quotesFirst_tryPaths src dst amount paths :
  quotesFirst config (tryPaths config world src dst amount paths).
Proof.
  induction paths as [|path rest IH]; cbn [tryPaths]; [auto with quotes|].
  quotes_step; [apply quotesFirst_attempt, quotesFirst_tryPath|].
  destruct a as [[combined|]|e]; auto with quotes.
Qed.

Lemma quotesFirst_executeMultiHopTrade src dst amount :
  quotesFirst config (executeMultiHopTrade config world src dst amount).
Proof.
  assert (Hreg : quotesFirst config (tryRegistryPaths config world src dst amount)).
  { unfold tryRegistryPaths.
    destruct (findTradingPaths world src dst) eqn:E; [auto with quotes|].
    apply quotesFirst_tryPaths. }
  unfold executeMultiHopTrade.
  quotes_step; [apply quotesFirst_attempt, quotesFirst_executeTrade|].
  destruct a as [directResult|e]; [|exact Hreg].
  destruct (success directResult); [auto with quotes | exact Hreg].
Qed.

Lemma quotesFirst_runTrades remaining results :
  quotesFirst config (runTrades config world remaining results).
Proof.
  revert results. induction remaining as [|trade rest IH]; intros results;
    cbn [runTrades]; [auto with quotes|].
  destruct (negb (enableTrading config)); [apply IH|].
  quotes_step; [apply quotesFirst_executeMultiHopTrade|].
  quotes_step; [|apply IH].
  destruct rest; [auto with quotes|].
  quotes_step; [quotes_step | auto with quotes].
Qed.

(** The state of the monitor comes from the last quote. *)
Lemma monitor_pending pre q :
  fold_left monitor pre None = Some q ->
  exists before quote out socket,
    pre = before
          ++ QuoteExactInput (quotedFrom q) (quotedTo q) (quotedAmount q)
               (quotedFee q) (Js.Ok quote)
          :: socket
    /\ forallb isSocketCall socket = true
    /\ outputAmountOf quote = Some out
    /\ quotedOutput q = Qabs (Double.parseFloat out).
Proof.
  induction pre as [|e pre IH] using rev_ind; [discriminate|].
  rewrite fold_left_app. cbn [fold_left].
  destruct e as [| src dst amount fee [quote|err] | | | | |]; cbn [monitor];
    try discriminate.
  - destruct (outputAmountOf quote) as [out|] eqn:Eout; [|discriminate].
    intros [= <-]. exists pre, quote, out, []. cbn [quotedFrom quotedTo quotedAmount
      quotedFee quotedOutput forallb]. repeat split. exact Eout.
  - intros H. destruct (IH H) as (before & quote & out & socket & -> & Hs & Ho & Hq).
    exists before, quote, out, (socket ++ [EventSocketConnected]).
    rewrite <- app_assoc. repeat split; try assumption.
    rewrite forallb_app, Hs. reflexivity.
  - intros H. destruct (IH H) as (before & quote & out & socket & -> & Hs & Ho & Hq).
    exists before, quote, out, (socket ++ [ConnectEventSocket]).
    rewrite <- app_assoc. repeat split; try assumption.
    rewrite forallb_app, Hs. reflexivity.
Qed.

Lemma selfQuoted_slippageBounded evs :
  selfQuoted config evs -> slippageBounded config evs.
Proof.
  intros Hq pre src dst fee exactIn amountOutMinimum wallet post ->.
  specialize (Hq None). apply wellQuoted_app in Hq. destruct Hq as [_ Hq].
  cbn [wellQuoted accepted] in Hq. destruct Hq as [Hacc _].
  destruct (fold_left monitor pre None) as [q|] eqn:Ep; [|contradiction].
  destruct Hacc as (-> & -> & -> & -> & _ & ->).
  destruct (monitor_pending pre q Ep)
    as (before & quote & out & socket & Hpre & Hs & Ho & Hout).
  exists before, quote, out, socket. rewrite Hout. repeat split; assumption.
Qed.

Lemma executeTrade_slippageBounded src dst amount fee s :
  exists evs,
    trace (snd (executeTrade config world src dst amount fee s)) = trace s ++ evs
    /\ slippageBounded config evs.
Proof.
  destruct (quotesFirst_executeTrade src dst amount fee s) as (evs & H & Q).
  exists evs. split; [exact H | now apply selfQuoted_slippageBounded].
Qed.

Lemma batch_slippageBounded trades s :
  exists evs,
    trace (snd (executeTradesForPreferredToken config world trades s))
    = trace s ++ evs
    /\ slippageBounded config evs.
Proof.
  destruct (quotesFirst_runTrades (Js.sort (byPriority config) trades) [] s)
    as (evs & H & Q).
  exists evs. split; [exact H | now apply selfQuoted_slippageBounded].
Qed.


End Quoting.

(** C7, as stated, fails: with the quote 7 and a slippage of 5 the
    submission does not carry 7 * (1 - 5/100) = 6.65.  The program
    multiplies numbers: 1 - 5/100 is the number nearest to 0.95, which
    is 0.9499999999999999556, just below it, and 7 times that number
    rounds to the number that [toString] writes 6.6499999999999995. *)
Lemma submitted_minimum_is_rounded :
  ~ Forall (fun amountOutMinimum => amountOutMinimum == 7 * (1 - 5 / 100))
      (Scenario.minimums
         (trace (snd (executeTrade (Scenario.config true) (Scenario.quotingWorld 7)
                        (Scenario.key "GUSDC") (Scenario.key "SILK") 5 None
                        Scenario.idle)))).
Proof.
  intros H. vm_compute in H. inversion H as [|m l Hm _]. discriminate Hm.
Qed.

(** C7, amended.  Every submission of a swap, by [executeTrade] and by
    the batch that runs on top of it, follows an answered quote for the
    same pair, amount and fee, and carries as [amountOutMinimum] the
    string of the number [expectedOutput * (1 - maxSlippage/100)],
    computed on binary64 numbers with each operation rounded, where
    [expectedOutput] is the output of the quote read as a number, in
    absolute value.  With the quote 100 and a slippage of 5 the
    submission carries 95; with the quote 7 it carries
    6.6499999999999995. *)
Theorem submission_carries_slippage_bound :
  (forall config world src dst amount fee s,
      exists evs,
        trace (snd (executeTrade config world src dst amount fee s)) = trace s ++ evs
        /\ slippageBounded config evs)
  /\ (forall config world trades s,
        exists evs,
          trace (snd (executeTradesForPreferredToken config world trades s))
          = trace s ++ evs
          /\ slippageBounded config evs)
  /\ Scenario.minimums
       (trace (snd (executeTrade (Scenario.config true) Scenario.calmWorld
                      (Scenario.key "GUSDC") (Scenario.key "SILK") 5 None
                      Scenario.idle)))
     = [95]
  /\ Scenario.minimums
       (trace (snd (executeTrade (Scenario.config true) (Scenario.quotingWorld 7)
                      (Scenario.key "GUSDC") (Scenario.key "SILK") 5 None
                      Scenario.idle)))
     = [Qred 6.6499999999999995].
Proof.
  split; [|split; [|split]].
  - intros. apply executeTrade_slippageBounded.
  - intros. apply batch_slippageBounded.
  - vm_compute. reflexivity.
  - vm_compute. reflexivity.
Qed.




End TradingStrategyProps.

(** ** Pool snapshot cache *)

Module PoolDataManagerProps.
Import PoolDataManager Predicates.

Lemma ltb_asym (a b : string) : String.ltb a b = true -> String.ltb b a = false.
Proof.
  unfold String.ltb. rewrite (String.compare_antisym b a).
  destruct (String.compare a b); cbn; congruence.
Qed.

Lemma ltb_total (a b : string) :
  String.ltb a b = false -> String.ltb b a = false -> a = b.
Proof.
  unfold String.ltb. rewrite (String.compare_antisym b a).
  destruct (String.compare a b) eqn:E; cbn; try congruence.
  intros _ _. now apply String.compare_eq_iff.
Qed.

Lemma getCacheKey_sym token0 token1 fee :
  getCacheKey token0 token1 fee = getCacheKey token1 token0 fee.
Proof.
  unfold getCacheKey.
  destruct (String.ltb token0 token1) eqn:E01, (String.ltb token1 token0) eqn:E10.
  - rewrite (ltb_asym _ _ E01) in E10. discriminate.
  - reflexivity.
  - reflexivity.
  - now rewrite (ltb_total _ _ E01 E10).
Qed.

Section Transport.

Variable post : list Request -> Request -> Js.result (option Q).

(** A [get] during the validity window answers from the cache. *)
Lemma get_during_window m token0Key token1Key fee clock e :
  poolCache m !! getCacheKey token0Key token1Key fee = Some e ->
  (atCheck clock < expiresAt e)%Z ->
  getCompositePoolData post m token0Key token1Key fee clock = (Js.Ok (data e), m).
Proof.
  intros Hk Ht. unfold getCompositePoolData. rewrite Hk.
  apply Z.ltb_lt in Ht. now rewrite Ht.
Qed.

Lemma getAll_during_window m k e calls :
  poolCache m !! k = Some e ->
  Forall (duringWindow k e) calls ->
  getAll post m calls = m.
Proof.
  intros Hk Hcalls. unfold getAll.
  induction Hcalls as [|g calls [Hkey Ht] _ IH]; cbn [fold_left]; [reflexivity|].
  unfold keyOf in Hkey.
  rewrite (get_during_window m _ _ _ _ e); [exact IH | now rewrite Hkey | exact Ht].
Qed.

(** One [get] sends at most one request. *)
Lemma fetch_posts_at_most_one m token0Key token1Key fee clock :
  (length (posted (snd (fetchCompositePoolData post m token0Key token1Key fee clock)))
   <= S (length (posted m)))%nat.
Proof.
  unfold fetchCompositePoolData.
  destruct (OfflineQuote.parseTokenKey token0Key); cbn [snd]; [|lia].
  destruct (OfflineQuote.parseTokenKey token1Key); cbn [snd]; [|lia].
  destruct (post (posted m) _) as [[l|]|e]; cbn [snd posted];
    rewrite length_app; cbn [length]; lia.
Qed.

Lemma get_posts_at_most_one m token0Key token1Key fee clock :
  (length (posted (snd (getCompositePoolData post m token0Key token1Key fee clock)))
   <= S (length (posted m)))%nat.
Proof.
  assert (Hmiss : forall k,
             (length (posted (snd (fetchAndCache post m k token0Key token1Key
                                     fee clock)))
              <= S (length (posted m)))%nat).
  { intros k. unfold fetchAndCache.
    pose proof (fetch_posts_at_most_one m token0Key token1Key fee clock) as H.
    destruct (fetchCompositePoolData post m token0Key token1Key fee clock)
      as [[poolData|e] m']; cbn [snd posted] in *; exact H. }
  unfold getCompositePoolData.
  destruct (poolCache m !! getCacheKey token0Key token1Key fee) as [cached|];
    [|apply Hmiss].
  destruct (Z.ltb (atCheck clock) (expiresAt cached)); [cbn [snd]; lia | apply Hmiss].
Qed.

End Transport.

(** C8.  The cache key does not depend on the order of the two tokens, so
    that [getCompositePoolData(t0, t1, fee)] and
    [getCompositePoolData(t1, t0, fee)] address the same entry; a sequence
    of [get]s on one key within the validity window of its entry sends no
    request and leaves the manager as it is; and a sequence of [get]s on
    one key, whose [get]s after the first fall within the validity window
    of the entry that the first one leaves, sends at most one request. *)
Theorem cache_key_and_window :
  (forall token0 token1 fee,
      getCacheKey token0 token1 fee = getCacheKey token1 token0 fee)
  /\ (forall post m k e calls,
        poolCache m !! k = Some e ->
        Forall (duringWindow k e) calls ->
        getAll post m calls = m)
  /\ (forall post m first rest e,
        poolCache (getAll post m [first]) !! keyOf first = Some e ->
        Forall (duringWindow (keyOf first) e) rest ->
        (length (posted (getAll post m (first :: rest)))
         <= S (length (posted m)))%nat).
Proof.
  split; [exact getCacheKey_sym|]. split; [exact getAll_during_window|].
  intros post m first rest e He Hrest.
  change (getAll post m (first :: rest))
    with (getAll post (getAll post m [first]) rest).
  rewrite (getAll_during_window post _ _ e rest He Hrest).
  apply get_posts_at_most_one.
Qed.

(** The three [get]s of the scenario: one request, and the [get] with
    the tokens swapped is answered by the object that the first one
    stored. *)
Lemma cache_key_and_window_witness :
  let m := getAll Scenario.openGateway (create None)
             [Scenario.getAt "A" "B" 0; Scenario.getAt "B" "A" 10;
              Scenario.getAt "A" "B" 59999] in
  (length (posted m) <= 1)%nat
  /\ length (posted m) = 1%nat
  /\ getCacheKey (Scenario.key "A") (Scenario.key "B") 3000
     = getCacheKey (Scenario.key "B") (Scenario.key "A") 3000.
Proof.
  destruct cache_key_and_window as (Hsym & _ & Hone).
  split; [|split].
  - refine (Hone Scenario.openGateway (create None) (Scenario.getAt "A" "B" 0)
              [Scenario.getAt "B" "A" 10; Scenario.getAt "A" "B" 59999]
              {| data := Scenario.poolOf "A" "B" 3000 0; expiresAt := 60000 |}
              _ _).
    + vm_compute. reflexivity.
    + repeat constructor.
  - vm_compute. reflexivity.
  - apply Hsym.
Defined.

End PoolDataManagerProps.

(** ** The scenarios in binary64 *)

Module Binary64Props.
Open Scope float_scope.
#[local] Set Warnings "-inexact-float".

(** The DCA scenario: 10 percent of 50 is exactly 5, and 150 is not above
    twice 100. *)
Lemma dca_scenario_binary64 :
  Binary64.calculateTradeAmount 100 10 50 false = 5
  /\ Binary64.canTradeExcessGala 100 150 = false.
Proof. split; vm_compute; reflexivity. Qed.

(** Gas starvation: 10 percent of 0.0001 is above the dust threshold. *)
Lemma starved_scenario_binary64 :
  PrimFloat.ltb 0.000001 (Binary64.calculateTradeAmount 100 10 0.0001 false) = true.
Proof. vm_compute. reflexivity. Qed.

(** The gas trade below the dust threshold: positive, and not above
    0.000001. *)
Lemma excess_gas_below_dust_binary64 :
  Binary64.canTradeExcessGala 100 250 = true
  /\ PrimFloat.ltb 0 (Binary64.calculateTradeAmount 100 0.000001 250 true) = true
  /\ PrimFloat.ltb 0.000001 (Binary64.calculateTradeAmount 100 0.000001 250 true)
     = false.
Proof. repeat split; vm_compute; reflexivity. Qed.

(** The slippage bound: 100 * (1 - 5/100) is exactly 95. *)
Lemma slippage_scenario_binary64 : Binary64.minOutput 100 5 = 95.
Proof. vm_compute. reflexivity. Qed.

(** The slippage bound for the quote 7: the kernel's floats give the
    number that [Double] gives, which [toString] writes
    6.6499999999999995. *)
Lemma slippage_rounded_binary64 :
  DoubleCheck.valueOf (Binary64.minOutput 7 5)
  = Some (Double.mul 7 (Double.sub 1 (Double.div 5 100)))
  /\ (Predicates.minimumOutput (Scenario.config true) 7 == 6.6499999999999995)%Q
  /\ (Predicates.minimumOutput (Scenario.config true) 100 == 95)%Q.
Proof. repeat split; vm_compute; reflexivity. Qed.

(** [Double.round] and the operations of [Double] against the floats of
    the kernel, and [Double.toString] against [Double.parseFloat], on
    the samples. *)
Lemma double_agrees_with_kernel :
  forallb DoubleCheck.agreesOnQuotient DoubleCheck.samples = true
  /\ forallb DoubleCheck.agreesOnOperations DoubleCheck.samples = true
  /\ forallb DoubleCheck.readsBack DoubleCheck.samples = true.
Proof. repeat split; vm_compute; reflexivity. Qed.

(** The decimals that [toString] writes for some well-known numbers. *)
Lemma toString_examples :
  (Double.toString (Double.add 0.1 0.2) == 0.30000000000000004)%Q
  /\ (Double.toString (Double.mul 4.35 100) == 434.99999999999994)%Q
  /\ (Double.toString (1 # 3) == 0.3333333333333333)%Q
  /\ (Double.toString 1.47 == 1.47)%Q
  /\ (Double.toString 9007199254740993 == 9007199254740992)%Q.
Proof. repeat split; vm_compute; reflexivity. Qed.

(** The arbitrage scenario: (101.5 - 100) - 0.5 * 3 is exactly 0. *)
Lemma triangle_scenario_binary64 : Binary64.netProfit 101.5 100 3 = 0.
Proof. vm_compute. reflexivity. Qed.

End Binary64Props.

(** ** Circular paths: what the finder returns *)

Module PathProps.
Import CircularPathFinder PathShape.

Lemma neighborsOf_push_ensure (k : string) (e : Edge) (m : gmap string (list Edge)) (t : string) :
  neighborsOf (pushEdge k e (ensureKey k m)) t
  = neighborsOf m t ++ (if String.eqb k t then [e] else []).
Proof.
  unfold pushEdge, ensureKey, neighborsOf.
  destruct (m !! k) as [l|] eqn:E.
  - rewrite E. destruct (String.eqb_spec k t) as [->|Hne].
    + rewrite lookup_insert_eq, E. reflexivity.
    + rewrite lookup_insert_ne by exact Hne. rewrite app_nil_r. reflexivity.
  - rewrite lookup_insert_eq. destruct (String.eqb_spec k t) as [->|Hne].
    + rewrite lookup_insert_eq, E. reflexivity.
    + rewrite !lookup_insert_ne by exact Hne. rewrite app_nil_r. reflexivity.
Qed.

Lemma neighborsOf_addPool (m : gmap string (list Edge)) (p : PoolData) (t : string) :
  neighborsOf (addPool m p) t = neighborsOf m t ++ edgesAt t p.
Proof.
  unfold addPool, edgesAt. rewrite !neighborsOf_push_ensure, <- app_assoc. reflexivity.
Qed.

Lemma neighborsOf_fold (pools : list PoolData) :
  forall m t, neighborsOf (fold_left addPool pools m) t
              = neighborsOf m t ++ flat_map (edgesAt t) pools.
Proof.
  induction pools as [|p pools IH]; intros m t; cbn [fold_left flat_map].
  - rewrite app_nil_r. reflexivity.
  - rewrite IH, neighborsOf_addPool, <- app_assoc. reflexivity.
Qed.

Lemma neighborsOf_buildAdjacencyMap (pools : list PoolData) (t : string) :
  neighborsOf (buildAdjacencyMap pools) t = flat_map (edgesAt t) pools.
Proof.
  unfold buildAdjacencyMap. rewrite neighborsOf_fold.
  unfold neighborsOf. rewrite lookup_empty. reflexivity.
Qed.

(** X1.  The adjacency list of a token holds, in the order of the pools,
    one edge for each pool that has the token as [token0] and one for
    each pool that has it as [token1] (both, for a pool of a token with
    itself); a token of no pool has the empty list. *)
Theorem buildAdjacencyMap_neighbors (pools : list PoolData) (t : string) :
  neighborsOf (buildAdjacencyMap pools) t = flat_map (edgesAt t) pools.
Proof. apply neighborsOf_buildAdjacencyMap. Qed.


Lemma In_neighbors (pools : list PoolData) (t : string) (e : Edge) :
  In e (neighborsOf (buildAdjacencyMap pools) t)
  <-> In (pool e) pools /\ connects (pool e) t (token e).
Proof.
  rewrite neighborsOf_buildAdjacencyMap, in_flat_map. unfold edgesAt, connects. split.
  - intros (p & Hp & He). apply in_app_or in He.
    destruct He as [He|He];
      [destruct (String.eqb_spec (token0 p) t) | destruct (String.eqb_spec (token1 p) t)];
      cbn in He; try contradiction; destruct He as [<-|[]]; cbn; auto.
  - intros (Hp & [[H0 H1]|[H0 H1]]); exists (pool e); (split; [exact Hp|]);
      apply in_or_app; [left; rewrite H0 | right; rewrite H1];
      rewrite String.eqb_refl; left; destruct e; cbn in *; congruence.
Qed.

Ltac cycles H :=
  repeat match type of H with
  | In _ (flat_map _ _) =>
      let e := fresh "e" in let He := fresh "He" in
      apply in_flat_map in H; destruct H as (e & He & H)
  | In _ (if ?b then _ else _) =>
      let E := fresh "E" in destruct b eqn:E
  | In _ [] => destruct H
  | In _ [_] => destruct H as [H|[]]
  end.

Lemma In_findCircularPaths (baseToken : string) (maxHops : Q)
    (availablePools : list PoolData) (minLiquidity : Q) (c : CircularPath) :
  In c (findCircularPaths baseToken maxHops availablePools minLiquidity) ->
  let adjacencyMap :=
    buildAdjacencyMap
      (List.filter (fun p => Js.gt (liquidity p) minLiquidity) availablePools) in
  (2 <= maxHops /\ In c (findTwoHopCycles baseToken adjacencyMap))
  \/ (3 <= maxHops /\ In c (findThreeHopCycles baseToken adjacencyMap))
  \/ (4 <= maxHops /\ In c (findFourHopCycles baseToken adjacencyMap)).
Proof.
  unfold findCircularPaths. intros H. cbv zeta.
  apply in_app_or in H. destruct H as [H|H]; [|apply in_app_or in H; destruct H as [H|H]].
  - destruct (Js.ge maxHops 2) eqn:E; [|destruct H].
    left. split; [apply ge_true; exact E | exact H].
  - destruct (Js.ge maxHops 3) eqn:E; [|destruct H].
    right; left. split; [apply ge_true; exact E | exact H].
  - destruct (Js.ge maxHops 4) eqn:E; [|destruct H].
    right; right. split; [apply ge_true; exact E | exact H].
Qed.

Lemma liquid_pool (availablePools : list PoolData) (minLiquidity : Q) (p : PoolData) :
  In p (List.filter (fun p => Js.gt (liquidity p) minLiquidity) availablePools)
  <-> In p availablePools /\ minLiquidity < liquidity p.
Proof. rewrite filter_In, gt_true. reflexivity. Qed.

(** X2.  Every path returned by [findCircularPaths] starts and ends at
    the base token, has one token more than hops and one pool for each
    hop, lists the fee of each of its pools, and has between 2 and 4
    hops, never more than [maxHops]. *)
Theorem findCircularPaths_well_formed (baseToken : string) (maxHops : Q)
    (availablePools : list PoolData) (minLiquidity : Q) :
  Forall (fun c =>
            head (tokens c) = Some baseToken
            /\ last (tokens c) = Some baseToken
            /\ length (tokens c) = S (hops c)
            /\ length (pools c) = hops c
            /\ fees c = map fee (pools c)
            /\ (2 <= hops c <= 4)%nat
            /\ inject_Z (Z.of_nat (hops c)) <= maxHops)
    (findCircularPaths baseToken maxHops availablePools minLiquidity).
Proof.
  apply List.Forall_forall. intros c H.
  apply In_findCircularPaths in H. cbv zeta in H.
  destruct H as [[Hmax H]|[[Hmax H]|[Hmax H]]];
    [unfold findTwoHopCycles in H | unfold findThreeHopCycles in H
     | unfold findFourHopCycles in H];
    cycles H; subst c; cbn; repeat split; try lia; exact Hmax.
Qed.

(** X3.  Along every returned path the pool of each hop is a pool of
    the two tokens of that hop, is one of [availablePools] and has a
    liquidity strictly above [minLiquidity]. *)
Theorem findCircularPaths_hops_connect (baseToken : string) (maxHops : Q)
    (availablePools : list PoolData) (minLiquidity : Q) :
  Forall (fun c =>
            hopsConnect (tokens c) (pools c)
            /\ Forall (fun p => In p availablePools /\ minLiquidity < liquidity p)
                 (pools c))
    (findCircularPaths baseToken maxHops availablePools minLiquidity).
Proof.
  apply List.Forall_forall. intros c H.
  apply In_findCircularPaths in H. cbv zeta in H.
  destruct H as [[Hmax H]|[[Hmax H]|[Hmax H]]];
    [unfold findTwoHopCycles in H | unfold findThreeHopCycles in H
     | unfold findFourHopCycles in H];
    cycles H; subst c;
    repeat match goal with
    | He : In _ (neighborsOf _ _) |- _ =>
        let Hin := fresh "Hin" in let Hc := fresh "Hc" in
        apply In_neighbors in He; destruct He as [Hin Hc];
        apply liquid_pool in Hin
    | E : (_ && _)%bool = true |- _ => apply andb_prop in E; destruct E as [?E ?E]
    | E : String.eqb _ _ = true |- _ => apply String.eqb_eq in E
    end;
    cbn [tokens pools hopsConnect];
    (split; [| repeat constructor; tauto]);
    repeat match goal with E : _ = baseToken |- _ => rewrite E in * end;
    tauto.
Qed.


(** X4.  A returned cycle of two hops goes through two different pool
    objects; a returned cycle of three or four hops visits no token
    twice, the base token apart. *)
Theorem findCircularPaths_simple (baseToken : string) (maxHops : Q)
    (availablePools : list PoolData) (minLiquidity : Q) :
  Forall simple (findCircularPaths baseToken maxHops availablePools minLiquidity).
Proof.
  apply List.Forall_forall. intros c H.
  apply In_findCircularPaths in H. cbv zeta in H.
  destruct H as [[Hmax H]|[[Hmax H]|[Hmax H]]];
    [unfold findTwoHopCycles in H | unfold findThreeHopCycles in H
     | unfold findFourHopCycles in H];
    cycles H; subst c; unfold simple; cbn [pools tokens removelast];
    repeat match goal with
    | E : (_ && _)%bool = true |- _ => apply andb_prop in E; destruct E as [? ?]
    | E : (_ || _)%bool = false |- _ => apply orb_false_elim in E; destruct E as [? ?]
    | E : String.eqb _ _ = false |- _ => apply String.eqb_neq in E
    | E : negb _ = true |- _ => apply negb_true_iff in E
    end.
  - unfold same_object in *. apply Nat.eqb_neq. assumption.
  - repeat constructor; cbn; intuition congruence.
  - repeat constructor; cbn; intuition congruence.
Qed.

Lemma findTwoHopCycles_complete (baseToken : string)
    (adjacencyMap : gmap string (list Edge)) (e1 e2 : Edge) :
  In e1 (neighborsOf adjacencyMap baseToken) ->
  In e2 (neighborsOf adjacencyMap (token e1)) ->
  token e2 = baseToken -> ref (pool e1) <> ref (pool e2) ->
  In {| tokens := [baseToken; token e1; baseToken];
        pools := [pool e1; pool e2];
        fees := [fee (pool e1); fee (pool e2)];
        hops := 2 |} (findTwoHopCycles baseToken adjacencyMap).
Proof.
  intros H1 H2 Hb Hr. unfold findTwoHopCycles.
  apply in_flat_map. exists e1. split; [exact H1|].
  apply in_flat_map. exists e2. split; [exact H2|].
  apply String.eqb_eq in Hb. apply Nat.eqb_neq in Hr.
  unfold same_object. rewrite Hb, Hr. left. reflexivity.
Qed.

Lemma findThreeHopCycles_complete (baseToken : string)
    (adjacencyMap : gmap string (list Edge)) (e1 e2 e3 : Edge) :
  In e1 (neighborsOf adjacencyMap baseToken) ->
  In e2 (neighborsOf adjacencyMap (token e1)) ->
  In e3 (neighborsOf adjacencyMap (token e2)) ->
  token e3 = baseToken ->
  List.NoDup [baseToken; token e1; token e2] ->
  In {| tokens := [baseToken; token e1; token e2; baseToken];
        pools := [pool e1; pool e2; pool e3];
        fees := [fee (pool e1); fee (pool e2); fee (pool e3)];
        hops := 3 |} (findThreeHopCycles baseToken adjacencyMap).
Proof.
  intros H1 H2 H3 Hb Hd. unfold findThreeHopCycles.
  inversion Hd as [|? ? Ha Hd1]; subst. inversion Hd1 as [|? ? Hb1 Hd2]; subst.
  cbn in Ha, Hb1.
  assert (E1 : String.eqb (token e1) (token e3) = false)
    by (apply String.eqb_neq; intuition congruence).
  assert (E2 : String.eqb (token e2) (token e3) = false)
    by (apply String.eqb_neq; intuition congruence).
  assert (E3 : String.eqb (token e2) (token e1) = false)
    by (apply String.eqb_neq; intuition congruence).
  apply in_flat_map. exists e1. split; [exact H1|]. rewrite E1.
  apply in_flat_map. exists e2. split; [exact H2|]. rewrite E2, E3. cbn [orb].
  apply in_flat_map. exists e3. split; [exact H3|]. rewrite String.eqb_refl.
  left. reflexivity.
Qed.

Lemma findFourHopCycles_complete (baseToken : string)
    (adjacencyMap : gmap string (list Edge)) (e1 e2 e3 e4 : Edge) :
  In e1 (neighborsOf adjacencyMap baseToken) ->
  In e2 (neighborsOf adjacencyMap (token e1)) ->
  In e3 (neighborsOf adjacencyMap (token e2)) ->
  In e4 (neighborsOf adjacencyMap (token e3)) ->
  token e4 = baseToken ->
  List.NoDup [baseToken; token e1; token e2; token e3] ->
  In {| tokens := [baseToken; token e1; token e2; token e3; baseToken];
        pools := [pool e1; pool e2; pool e3; pool e4];
        fees := [fee (pool e1); fee (pool e2); fee (pool e3); fee (pool e4)];
        hops := 4 |} (findFourHopCycles baseToken adjacencyMap).
Proof.
  intros H1 H2 H3 H4 Hb Hd. unfold findFourHopCycles.
  inversion Hd as [|? ? Ha Hd1]; subst. inversion Hd1 as [|? ? Hb1 Hd2]; subst.
  inversion Hd2 as [|? ? Hc1 Hd3]; subst.
  cbn in Ha, Hb1, Hc1.
  assert (E1 : String.eqb (token e1) (token e4) = false)
    by (apply String.eqb_neq; intuition congruence).
  assert (E2 : String.eqb (token e2) (token e4) = false)
    by (apply String.eqb_neq; intuition congruence).
  assert (E3 : String.eqb (token e2) (token e1) = false)
    by (apply String.eqb_neq; intuition congruence).
  assert (E4 : String.eqb (token e3) (token e4) = false)
    by (apply String.eqb_neq; intuition congruence).
  assert (E5 : String.eqb (token e3) (token e1) = false)
    by (apply String.eqb_neq; intuition congruence).
  assert (E6 : String.eqb (token e3) (token e2) = false)
    by (apply String.eqb_neq; intuition congruence).
  apply in_flat_map. exists e1. split; [exact H1|]. rewrite E1.
  apply in_flat_map. exists e2. split; [exact H2|]. rewrite E2, E3. cbn [orb].
  apply in_flat_map. exists e3. split; [exact H3|]. rewrite E4, E5, E6. cbn [orb].
  apply in_flat_map. exists e4. split; [exact H4|]. rewrite String.eqb_refl.
  left. reflexivity.
Qed.

Lemma edge_of_pool (availablePools : list PoolData) (minLiquidity : Q)
    (p : PoolData) (a b : string) :
  In p availablePools /\ minLiquidity < liquidity p -> connects p a b ->
  In {| token := b; pool := p |}
    (neighborsOf
       (buildAdjacencyMap
          (List.filter (fun p => Js.gt (liquidity p) minLiquidity) availablePools)) a).
Proof.
  intros Hp Hc. apply In_neighbors. cbn. split; [apply liquid_pool; exact Hp | exact Hc].
Qed.

(** X5.  Conversely every such cycle is returned: a cycle of 2 to
    [maxHops] (at most 4) hops from the base token over liquid pools of
    [availablePools], through two pool objects when it has two hops and
    without a repeated token when it has more, is among the paths of
    [findCircularPaths]. *)
Theorem findCircularPaths_complete (baseToken : string) (maxHops : Q)
    (availablePools : list PoolData) (minLiquidity : Q) (c : CircularPath) :
  cycleOver baseToken availablePools minLiquidity c ->
  simple c ->
  (2 <= hops c <= 4)%nat ->
  inject_Z (Z.of_nat (hops c)) <= maxHops ->
  In c (findCircularPaths baseToken maxHops availablePools minLiquidity).
Proof.
  destruct c as [ts ps fs h]. unfold cycleOver, simple. cbn [tokens pools fees hops].
  intros (Hhd & Hlast & Hlen & Hfees & Hconn & Hliq) Hsimple Hh Hmax.
  unfold findCircularPaths.
  destruct h as [|[|[|[|[|h]]]]]; try lia; clear Hh.
  - destruct ts as [|a [|b [|a' [|? ?]]]]; try discriminate Hlen.
    cbn in Hhd, Hlast. injection Hhd as ->. injection Hlast as ->.
    destruct ps as [|p [|q [|? ?]]]; cbn in Hconn; try tauto.
    destruct Hconn as (Hc1 & Hc2 & _).
    inversion Hliq as [|? ? Hp Hliq1]; subst. inversion Hliq1 as [|? ? Hq _]; subst.
    apply in_or_app. left.
    replace (Js.ge maxHops 2) with true by (symmetry; apply ge_true; exact Hmax).
    apply (findTwoHopCycles_complete baseToken _
             {| token := b; pool := p |} {| token := baseToken; pool := q |});
      cbn [token pool]; auto using edge_of_pool.
  - destruct ts as [|a [|b [|d [|a' [|? ?]]]]]; try discriminate Hlen.
    cbn in Hhd, Hlast. injection Hhd as ->. injection Hlast as ->.
    destruct ps as [|p [|q [|r [|? ?]]]]; cbn in Hconn; try tauto.
    destruct Hconn as (Hc1 & Hc2 & Hc3 & _).
    inversion Hliq as [|? ? Hp Hliq1]; subst. inversion Hliq1 as [|? ? Hq Hliq2]; subst.
    inversion Hliq2 as [|? ? Hr _]; subst.
    apply in_or_app. right. apply in_or_app. left.
    replace (Js.ge maxHops 3) with true by (symmetry; apply ge_true; exact Hmax).
    apply (findThreeHopCycles_complete baseToken _
             {| token := b; pool := p |} {| token := d; pool := q |}
             {| token := baseToken; pool := r |});
      cbn [token pool]; auto using edge_of_pool.
  - destruct ts as [|a [|b [|d [|g [|a' [|? ?]]]]]]; try discriminate Hlen.
    cbn in Hhd, Hlast. injection Hhd as ->. injection Hlast as ->.
    destruct ps as [|p [|q [|r [|s [|? ?]]]]]; cbn in Hconn; try tauto.
    destruct Hconn as (Hc1 & Hc2 & Hc3 & Hc4 & _).
    inversion Hliq as [|? ? Hp Hliq1]; subst. inversion Hliq1 as [|? ? Hq Hliq2]; subst.
    inversion Hliq2 as [|? ? Hr Hliq3]; subst. inversion Hliq3 as [|? ? Hs _]; subst.
    apply in_or_app. right. apply in_or_app. right.
    replace (Js.ge maxHops 4) with true by (symmetry; apply ge_true; exact Hmax).
    apply (findFourHopCycles_complete baseToken _
             {| token := b; pool := p |} {| token := d; pool := q |}
             {| token := g; pool := r |} {| token := baseToken; pool := s |});
      cbn [token pool]; auto using edge_of_pool.
Qed.


Lemma findCircularPaths_complete_witness :
  In {| tokens := [Scenario.key "A"; Scenario.key "C"; Scenario.key "B";
                   Scenario.key "A"];
        pools := [Scenario.snapshot "C" "A" 10000 5000 0 3;
                  Scenario.snapshot "B" "C" 3000 5000 0 2;
                  Scenario.snapshot "A" "B" 500 5000 0 0];
        fees := [10000; 3000; 500]%N;
        hops := 3 |}
    (findCircularPaths (Scenario.key "A") 3 Scenario.cyclePools 1000).
Proof.
  apply findCircularPaths_complete.
  - unfold cycleOver, connects. cbn.
    repeat split; auto; repeat constructor; cbn; auto 10; reflexivity.
  - unfold simple. cbn. repeat constructor; cbn; intuition discriminate.
  - cbn. lia.
  - cbn. discriminate.
Defined.

End PathProps.

(** ** The pool cache: hits, misses and what stays in the cache *)

Module PoolCacheProps.
Import PoolDataManager PoolCacheUse.

Section Transport.

Variable post : list Request -> Request -> Js.result (option Q).

(** The outcomes of a fetch. *)
Lemma fetchCompositePoolData_cases (m : Manager) (token0Key token1Key : string)
    (fee : N) (clock : Clock) :
  let r := fetchCompositePoolData post m token0Key token1Key fee clock in
  poolCache (snd r) = poolCache m /\ cacheTTL (snd r) = cacheTTL m
  /\ match fst r with
     | Js.Ok p =>
         (exists l, post (posted m) (requestOf token0Key token1Key fee)
                    = Js.Ok (Some l)
                    /\ p = {| token0 := token0Key; token1 := token1Key; fee := fee;
                              liquidity := l; lastUpdated := atResponse clock;
                              ref := allocated m |})
         /\ (exists parts, OfflineQuote.parseTokenKey token0Key = Js.Ok parts)
         /\ (exists parts, OfflineQuote.parseTokenKey token1Key = Js.Ok parts)
         /\ posted (snd r) = posted m ++ [requestOf token0Key token1Key fee]
         /\ allocated (snd r) = S (allocated m)
     | Js.Throw _ =>
         allocated (snd r) = allocated m
         /\ (posted (snd r) = posted m
             \/ posted (snd r) = posted m ++ [requestOf token0Key token1Key fee])
     end.
Proof.
  unfold fetchCompositePoolData, requestOf.
  destruct (OfflineQuote.parseTokenKey token0Key) as [parts0|e0]; cbn; [|auto].
  destruct (OfflineQuote.parseTokenKey token1Key) as [parts1|e1]; cbn; [|auto].
  destruct (post (posted m) _) as [[l|]|e]; cbn; repeat split; eauto.
Qed.


(** The outcomes of a [get]. *)
Lemma getCompositePoolData_cases (m : Manager) (token0Key token1Key : string)
    (fee : N) (clock : Clock) :
  let key := getCacheKey token0Key token1Key fee in
  let r := getCompositePoolData post m token0Key token1Key fee clock in
  if validAt m token0Key token1Key fee (atCheck clock)
  then exists cached, poolCache m !! key = Some cached
                      /\ r = (Js.Ok (data cached), m)
  else
    cacheTTL (snd r) = cacheTTL m
    /\ match fst r with
       | Js.Ok p =>
           (exists l, post (posted m) (requestOf token0Key token1Key fee)
                      = Js.Ok (Some l)
                      /\ p = {| token0 := token0Key; token1 := token1Key; fee := fee;
                                liquidity := l; lastUpdated := atResponse clock;
                                ref := allocated m |})
           /\ (exists parts, OfflineQuote.parseTokenKey token0Key = Js.Ok parts)
           /\ (exists parts, OfflineQuote.parseTokenKey token1Key = Js.Ok parts)
           /\ poolCache (snd r)
              = <[key := {| data := p;
                            expiresAt := atStore clock + cacheTTL m |}]> (poolCache m)
           /\ posted (snd r) = posted m ++ [requestOf token0Key token1Key fee]
           /\ allocated (snd r) = S (allocated m)
       | Js.Throw _ =>
           poolCache (snd r) = poolCache m
           /\ allocated (snd r) = allocated m
           /\ (posted (snd r) = posted m
               \/ posted (snd r) = posted m ++ [requestOf token0Key token1Key fee])
       end.
Proof.
  cbv zeta.
  assert (Hmiss :
    let r := fetchAndCache post m (getCacheKey token0Key token1Key fee)
               token0Key token1Key fee clock in
    cacheTTL (snd r) = cacheTTL m
    /\ match fst r with
       | Js.Ok p =>
           (exists l, post (posted m) (requestOf token0Key token1Key fee)
                      = Js.Ok (Some l)
                      /\ p = {| token0 := token0Key; token1 := token1Key; fee := fee;
                                liquidity := l; lastUpdated := atResponse clock;
                                ref := allocated m |})
           /\ (exists parts, OfflineQuote.parseTokenKey token0Key = Js.Ok parts)
           /\ (exists parts, OfflineQuote.parseTokenKey token1Key = Js.Ok parts)
           /\ poolCache (snd r)
              = <[getCacheKey token0Key token1Key fee
                  := {| data := p;
                        expiresAt := atStore clock + cacheTTL m |}]> (poolCache m)
           /\ posted (snd r) = posted m ++ [requestOf token0Key token1Key fee]
           /\ allocated (snd r) = S (allocated m)
       | Js.Throw _ =>
           poolCache (snd r) = poolCache m
           /\ allocated (snd r) = allocated m
           /\ (posted (snd r) = posted m
               \/ posted (snd r) = posted m ++ [requestOf token0Key token1Key fee])
       end).
  { cbv zeta. unfold fetchAndCache.
    pose proof (fetchCompositePoolData_cases m token0Key token1Key fee clock) as H.
    cbv zeta in H.
    destruct (fetchCompositePoolData post m token0Key token1Key fee clock)
      as [[p|e] m']; cbn [fst snd poolCache cacheTTL posted allocated] in *.
    - destruct H as (Hc & Ht & Hp & H0 & H1 & Hposted & Halloc).
      rewrite Hc, Ht. repeat split; auto.
    - tauto. }
  unfold validAt, getCompositePoolData.
  destruct (poolCache m !! getCacheKey token0Key token1Key fee) as [cached|];
    [|exact Hmiss].
  destruct (Z.ltb (atCheck clock) (expiresAt cached)); [|exact Hmiss].
  exists cached. split; reflexivity.
Qed.

End Transport.

(** X6.  A [getCompositePoolData] that returns a snapshot either
    found an entry under the key of the pair that had not expired at the
    time of the test, returns the cached object and leaves the manager as
    it was, without a request; or it found no such entry, sent one
    request, returns a new object for the requested pair and fee, and
    has stored it under the key with the expiry [Date.now() + cacheTTL]. *)
Theorem get_serves_valid_or_fresh (post : list Request -> Request -> Js.result (option Q))
    (m m' : Manager) (token0Key token1Key : string) (poolFee : N) (clock : Clock)
    (p : PoolData) :
  getCompositePoolData post m token0Key token1Key poolFee clock = (Js.Ok p, m') ->
  let key := getCacheKey token0Key token1Key poolFee in
  (exists cached,
      poolCache m !! key = Some cached
      /\ (atCheck clock < expiresAt cached)%Z
      /\ p = data cached /\ m' = m)
  \/ ((forall cached, poolCache m !! key = Some cached ->
                      (expiresAt cached <= atCheck clock)%Z)
      /\ token0 p = token0Key /\ token1 p = token1Key /\ fee p = poolFee
      /\ lastUpdated p = atResponse clock /\ ref p = allocated m
      /\ poolCache m'
         = <[key := {| data := p; expiresAt := atStore clock + cacheTTL m |}]>
             (poolCache m)
      /\ posted m' = posted m ++ [requestOf token0Key token1Key poolFee]
      /\ allocated m' = S (allocated m)
      /\ cacheTTL m' = cacheTTL m).
Proof.
  intros H. cbv zeta.
  pose proof (getCompositePoolData_cases post m token0Key token1Key poolFee clock) as C.
  cbv zeta in C. rewrite H in C. unfold validAt in C.
  destruct (poolCache m !! getCacheKey token0Key token1Key poolFee) as [cached|] eqn:Ek.
  - destruct (Z.ltb (atCheck clock) (expiresAt cached)) eqn:Et.
    + left. destruct C as (c & Hc & Hr). injection Hc as <-. injection Hr as -> ->.
      exists cached. repeat split. apply Z.ltb_lt. exact Et.
    + right. cbn [fst snd] in C.
      destruct C as (Httl & (l & _ & ->) & _ & _ & Hcache & Hposted & Halloc).
      cbn. repeat split; auto.
      intros c Hc. injection Hc as <-. apply Z.ltb_ge. exact Et.
  - right. cbn [fst snd] in C.
    destruct C as (Httl & (l & _ & ->) & _ & _ & Hcache & Hposted & Halloc).
    cbn. repeat split; auto. intros c Hc. discriminate Hc.
Qed.

Lemma get_serves_valid_or_fresh_witness :
  let m := create None in
  let clock := {| atCheck := 5; atResponse := 7; atStore := 9 |} in
  let m' := snd (getCompositePoolData Scenario.openGateway m (Scenario.key "A")
                   (Scenario.key "B") 3000 clock) in
  poolCache m' !! getCacheKey (Scenario.key "A") (Scenario.key "B") 3000
  = Some {| data := Scenario.snapshot "A" "B" 3000 5000 7 0; expiresAt := 60009 |}.
Proof.
  cbv zeta.
  destruct (getCompositePoolData Scenario.openGateway (create None) (Scenario.key "A")
              (Scenario.key "B") 3000
              {| atCheck := 5; atResponse := 7; atStore := 9 |})
    as [[p|e] m'] eqn:E; [|vm_compute in E; discriminate E].
  destruct (get_serves_valid_or_fresh _ _ _ _ _ _ _ _ E)
    as [(cached & Hc & _)|(_ & _ & _ & _ & _ & _ & Hcache & _)].
  - vm_compute in Hc. discriminate Hc.
  - cbn [snd]. rewrite Hcache, lookup_insert_eq.
    vm_compute in E. injection E as <- _. reflexivity.
Defined.




Lemma clearExpiredCache_lookup (m : Manager) (now : Z) (k : string) (e : CachedPool) :
  poolCache (clearExpiredCache m now) !! k = Some e
  <-> poolCache m !! k = Some e /\ (now < expiresAt e)%Z.
Proof.
  unfold clearExpiredCache. cbn [poolCache].
  rewrite map_lookup_filter_Some. cbn [snd].
  destruct (Z.leb_spec (expiresAt e) now); cbn; intuition (try lia; auto).
Qed.

Lemma step_distinctObjects (post : list Request -> Request -> Js.result (option Q))
    (m : Manager) (op : Op) :
  distinctObjects m -> distinctObjects (step post m op).
Proof.
  intros [Hlt Hinj]. destruct op as [g|now|]; cbn [step].
  - pose proof (getCompositePoolData_cases post m (get_token0 g) (get_token1 g)
                  (get_fee g) (get_clock g)) as C.
    cbv zeta in C.
    destruct (validAt m _ _ _ _).
    { destruct C as (c & _ & ->). split; assumption. }
    destruct (getCompositePoolData post m _ _ _ _) as [[p|e] m'];
      cbn [fst snd] in *.
    + destruct C as (_ & (l & _ & Hp) & _ & _ & Hcache & _ & Halloc).
      assert (Hr : ref p = allocated m) by (rewrite Hp; reflexivity).
      unfold distinctObjects. rewrite Hcache, Halloc. split.
      * intros k e He. apply lookup_insert_Some in He.
        destruct He as [[_ <-]|[_ He]]; cbn [data]; [lia|].
        apply Hlt in He. lia.
      * intros k1 k2 e1 e2 H1 H2 Heq.
        apply lookup_insert_Some in H1. apply lookup_insert_Some in H2.
        destruct H1 as [[<- <-]|[N1 H1]], H2 as [[<- <-]|[N2 H2]];
          cbn [data] in Heq.
        -- reflexivity.
        -- apply Hlt in H2. lia.
        -- apply Hlt in H1. lia.
        -- exact (Hinj _ _ _ _ H1 H2 Heq).
    + destruct C as (_ & Hcache & Halloc & _).
      unfold distinctObjects. rewrite Hcache, Halloc. split; assumption.
  - split.
    + intros k e He. apply clearExpiredCache_lookup in He. cbn [allocated clearExpiredCache].
      exact (Hlt _ _ (proj1 He)).
    + intros k1 k2 e1 e2 H1 H2. apply clearExpiredCache_lookup in H1, H2.
      exact (Hinj _ _ _ _ (proj1 H1) (proj1 H2)).
  - split; cbn [clearAllCache poolCache]; intros *; rewrite lookup_empty; discriminate.
Qed.

Lemma step_filedUnderOwnKey (post : list Request -> Request -> Js.result (option Q))
    (m : Manager) (op : Op) :
  filedUnderOwnKey m -> filedUnderOwnKey (step post m op).
Proof.
  intros Hm. destruct op as [g|now|]; cbn [step].
  - pose proof (getCompositePoolData_cases post m (get_token0 g) (get_token1 g)
                  (get_fee g) (get_clock g)) as C.
    cbv zeta in C.
    destruct (validAt m _ _ _ _).
    { destruct C as (c & _ & ->). exact Hm. }
    destruct (getCompositePoolData post m _ _ _ _) as [[p|e] m'];
      cbn [fst snd] in *.
    + destruct C as (_ & (l & _ & Hp) & H0 & H1 & Hcache & _).
      intros k e He. rewrite Hcache in He. apply lookup_insert_Some in He.
      destruct He as [[<- <-]|[_ He]]; [|exact (Hm _ _ He)].
      cbn [data]. rewrite Hp. cbn [token0 token1 fee]. auto.
    + destruct C as (_ & Hcache & _). intros k e0 He. rewrite Hcache in He.
      exact (Hm _ _ He).
  - intros k e He. apply clearExpiredCache_lookup in He. exact (Hm _ _ (proj1 He)).
  - intros k e He. cbn [clearAllCache poolCache] in He. rewrite lookup_empty in He.
    discriminate He.
Qed.

(** X8.  However the manager is used after its creation, two entries
    of its cache never hold the same object and no entry holds an object
    that the manager did not create: snapshots filed under different
    keys are different objects for the path finder's test
    [pool1 !== pool2]. *)
Theorem cache_objects_distinct (post : list Request -> Request -> Js.result (option Q))
    (ttl : option Z) (ops : list Op) :
  distinctObjects (run post (create ttl) ops).
Proof.
  unfold run.
  assert (H0 : distinctObjects (create ttl)).
  { split; cbn [create poolCache]; intros *; rewrite lookup_empty; discriminate. }
  revert H0. generalize (create ttl).
  induction ops as [|op ops IH]; intros m Hm; cbn [fold_left]; [exact Hm|].
  apply IH. apply step_distinctObjects. exact Hm.
Qed.

(** X9.  However the manager is used after its creation, every entry of
    its cache is filed under the cache key of the pool it holds, and the
    two token keys of a cached pool have the four parts that the offline
    quote engine requires of them. *)
Theorem cache_entries_filed_under_own_key
    (post : list Request -> Request -> Js.result (option Q))
    (ttl : option Z) (ops : list Op) :
  filedUnderOwnKey (run post (create ttl) ops).
Proof.
  unfold run.
  assert (H0 : filedUnderOwnKey (create ttl)).
  { intros k e He. cbn [create poolCache] in He. rewrite lookup_empty in He.
    discriminate He. }
  revert H0. generalize (create ttl).
  induction ops as [|op ops IH]; intros m Hm; cbn [fold_left]; [exact Hm|].
  apply IH. apply step_filedUnderOwnKey. exact Hm.
Qed.

(** X10.  Purging the expired entries is invisible to the [get]s that
    follow: a [getCompositePoolData] whose validity test is made at or
    after the time of the purge returns the same outcome, sends the same
    requests and creates the same objects as if [clearExpiredCache] had
    not run. *)
Theorem clearExpiredCache_transparent
    (post : list Request -> Request -> Js.result (option Q))
    (m : Manager) (now : Z) (token0Key token1Key : string) (fee : N) (clock : Clock) :
  (now <= atCheck clock)%Z ->
  let purged :=
    getCompositePoolData post (clearExpiredCache m now) token0Key token1Key fee clock in
  let plain := getCompositePoolData post m token0Key token1Key fee clock in
  fst purged = fst plain
  /\ posted (snd purged) = posted (snd plain)
  /\ allocated (snd purged) = allocated (snd plain).
Proof.
  intros Hnow. cbv zeta.
  assert (Hmiss : forall m1 m2 k,
             posted m1 = posted m2 -> allocated m1 = allocated m2 ->
             let a := fetchAndCache post m1 k token0Key token1Key fee clock in
             let b := fetchAndCache post m2 k token0Key token1Key fee clock in
             fst a = fst b /\ posted (snd a) = posted (snd b)
             /\ allocated (snd a) = allocated (snd b)).
  { intros m1 m2 k Hp Ha. cbv zeta. unfold fetchAndCache, fetchCompositePoolData.
    destruct (OfflineQuote.parseTokenKey token0Key); cbn; [|auto].
    destruct (OfflineQuote.parseTokenKey token1Key); cbn; [|auto].
    rewrite Hp, Ha. destruct (post (posted m2) _) as [[l|]|e]; cbn; auto. }
  unfold getCompositePoolData.
  destruct (poolCache m !! getCacheKey token0Key token1Key fee) as [cached|] eqn:Ek.
  - destruct (Z.ltb_spec (atCheck clock) (expiresAt cached)) as [Hv|Hv].
    + assert (Hk : poolCache (clearExpiredCache m now)
                     !! getCacheKey token0Key token1Key fee = Some cached)
        by (apply clearExpiredCache_lookup; split; [exact Ek | lia]).
      rewrite Hk. apply Z.ltb_lt in Hv. rewrite Hv. cbn. auto.
    + destruct (poolCache (clearExpiredCache m now) !! _) as [c|] eqn:E;
        [|apply Hmiss; reflexivity].
      apply clearExpiredCache_lookup in E. destruct E as [E _].
      rewrite Ek in E. injection E as <-.
      apply Z.ltb_ge in Hv. rewrite Hv. apply Hmiss; reflexivity.
  - assert (Hk : poolCache (clearExpiredCache m now)
                   !! getCacheKey token0Key token1Key fee = None).
    { destruct (poolCache (clearExpiredCache m now) !! _) as [c|] eqn:E;
        [|reflexivity].
      apply clearExpiredCache_lookup in E. destruct E as [E _]. congruence. }
    rewrite Hk. apply Hmiss; reflexivity.
Qed.

Lemma clearExpiredCache_transparent_witness :
  let stale := {| data := Scenario.poolOf "A" "B" 3000 0; expiresAt := 100 |} in
  let m := {| poolCache :=
                {[ getCacheKey (Scenario.key "A") (Scenario.key "B") 3000 := stale ]};
              cacheTTL := 60000; posted := []; allocated := 1 |} in
  let clock := {| atCheck := 200; atResponse := 201; atStore := 202 |} in
  fst (getCompositePoolData Scenario.openGateway (clearExpiredCache m 150)
         (Scenario.key "B") (Scenario.key "A") 3000 clock)
  = fst (getCompositePoolData Scenario.openGateway m
           (Scenario.key "B") (Scenario.key "A") 3000 clock).
Proof.
  cbv zeta.
  refine (proj1 (clearExpiredCache_transparent Scenario.openGateway _ 150
                   (Scenario.key "B") (Scenario.key "A") 3000
                   {| atCheck := 200; atResponse := 201; atStore := 202 |} _)).
  cbn [atCheck]. lia.
Defined.

End PoolCacheProps.

(** ** The trading strategy: pools, results and the history *)

Module TradeEffectsProps.
Import TradingStrategy TradeEffects Predicates.

Ltac unfold_state :=
  repeat (progress (cbv beta iota zeta; cbn [trace tradeHistory])).

Section Strategy.

Variable config : BotConfig.
Variable world : World.

Lemma appends_bind {A B : Type} (m : M A) (k : A -> M B) s evs1 evs2 a r :
  appends m s evs1 (Js.Ok a) ->
  appends (k a) {| tradeHistory := tradeHistory s; trace := trace s ++ evs1 |} evs2 r ->
  appends (bind m k) s (evs1 ++ evs2) r.
Proof.
  unfold appends, bind. intros -> ->. cbn [tradeHistory trace].
  rewrite app_assoc. reflexivity.
Qed.

Lemma appends_throw {A B : Type} (m : M A) (k : A -> M B) s evs e :
  appends m s evs (Js.Throw e) -> appends (bind m k) s evs (Js.Throw e).
Proof. unfold appends, bind. intros ->. reflexivity. Qed.

Lemma appends_call {A : Type} (answer : list Event -> A) (ev : A -> Event) s :
  appends (call answer ev) s [ev (answer (trace s))] (Js.Ok (answer (trace s))).
Proof. reflexivity. Qed.

Lemma appends_ret {A : Type} (a : A) s : appends (ret a) s [] (Js.Ok a).
Proof. unfold appends, ret. rewrite app_nil_r. destruct s; reflexivity. Qed.

(** The probes of [findAvailablePools]: one call for each fee tier,
    whatever the answers, and a pool for each tier whose answer has a
    liquidity that reads as a positive number, and a price. *)
Lemma probeFeeTiers_outcome tokenA tokenB tiers :
  forall pools s,
  exists added,
    appends (probeFeeTiers world tokenA tokenB tiers pools) s
      (map (GetPoolData tokenA tokenB) tiers) (Js.Ok (pools ++ added))
    /\ Forall (fun p => 0 < Double.parseFloat (pi_liquidity p)
                        /\ pi_token0 p = tokenA /\ pi_token1 p = tokenB) added
    /\ sublist (map pi_fee added) tiers.
Proof.
  induction tiers as [|fee rest IH]; intros pools s; cbn [probeFeeTiers map].
  - exists []. rewrite app_nil_r. split; [apply appends_ret|].
    split; constructor.
  - set (s1 := {| tradeHistory := tradeHistory s;
                  trace := trace s ++ [GetPoolData tokenA tokenB fee] |}).
    assert (Hskip : exists added,
               appends (probeFeeTiers world tokenA tokenB rest pools) s1
                 (map (GetPoolData tokenA tokenB) rest) (Js.Ok (pools ++ added))
               /\ Forall (fun p => 0 < Double.parseFloat (pi_liquidity p)
                                   /\ pi_token0 p = tokenA
                                   /\ pi_token1 p = tokenB) added
               /\ sublist (map pi_fee added) (fee :: rest)).
    { destruct (IH pools s1) as (added & H1 & H2 & H3).
      exists added. split; [exact H1|]. split; [exact H2|].
      apply sublist_cons_r. left. exact H3. }
    unfold appends. unfold bind at 1, call at 1. cbv beta zeta iota. fold s1.
    destruct (getPoolData world (trace s) tokenA tokenB fee) as [poolData|e] eqn:Ea.
    2:{ destruct Hskip as (added & H1 & H2). exists added. split; [|exact H2].
        unfold appends in *. rewrite H1. cbn [tradeHistory trace s1].
        rewrite <- app_assoc. reflexivity. }
    destruct (Js.gt (Double.parseFloat (default 0 (pd_liquidity poolData))) 0) eqn:El.
    2:{ destruct Hskip as (added & H1 & H2). exists added. split; [|exact H2].
        unfold appends in *. rewrite H1. cbn [tradeHistory trace s1].
        rewrite <- app_assoc. reflexivity. }
    destruct (pd_liquidity poolData) as [l|] eqn:Epl.
    2:{ destruct Hskip as (added & H1 & H2). exists added. split; [|exact H2].
        unfold appends in *. rewrite H1. cbn [tradeHistory trace s1].
        rewrite <- app_assoc. reflexivity. }
    destruct (pd_sqrtPrice poolData) as [sp|].
    2:{ destruct Hskip as (added & H1 & H2). exists added. split; [|exact H2].
        unfold appends in *. rewrite H1. cbn [tradeHistory trace s1].
        rewrite <- app_assoc. reflexivity. }
    destruct (IH (pools ++ [ {| pi_token0 := tokenA; pi_token1 := tokenB;
                                pi_fee := fee; pi_liquidity := l;
                                pi_sqrtPrice := sp |} ]) s1)
      as (added & H1 & H2 & H3).
    exists ({| pi_token0 := tokenA; pi_token1 := tokenB; pi_fee := fee;
               pi_liquidity := l; pi_sqrtPrice := sp |} :: added).
    split; [|split].
    + unfold appends in *. rewrite H1. cbn [tradeHistory trace s1].
      rewrite <- !app_assoc. reflexivity.
    + constructor; [|exact H2]. cbn [pi_liquidity pi_token0 pi_token1].
      apply gt_true in El. cbn [default] in El. auto.
    + cbn [map pi_fee]. apply sublist_skip. exact H3.
Qed.


Lemma sublist_In {A : Type} (l k : list A) :
  sublist l k -> forall x, In x l -> In x k.
Proof.
  induction 1 as [|x l k _ IH|x l k _ IH]; intros y Hy; cbn in *; intuition.
Qed.

(** The comparison of [findAvailablePools] orders the pools by the
    numbers read from their liquidities. *)
Lemma byLiquidity_sign (a b : PoolInfo) :
  Js.gt (Double.sub (Double.parseFloat (pi_liquidity b))
                    (Double.parseFloat (pi_liquidity a))) 0
  = Js.gt (Double.parseFloat (pi_liquidity b) - Double.parseFloat (pi_liquidity a)) 0.
Proof.
  rewrite DoubleProps.sub_positive. unfold Double.parseFloat.
  rewrite !DoubleProps.round_idempotent. reflexivity.
Qed.

(** What [findAvailablePools] does and returns. *)
Lemma findAvailablePools_cases (tokenA tokenB : string) (s : State) :
  exists pools,
    appends (findAvailablePools world tokenA tokenB) s
      [GetPoolData tokenA tokenB 500; GetPoolData tokenA tokenB 3000;
       GetPoolData tokenA tokenB 10000] (Js.Ok pools)
    /\ StronglySorted (fun a b => Double.parseFloat (pi_liquidity b)
                                  <= Double.parseFloat (pi_liquidity a)) pools
    /\ Forall (fun p => 0 < Double.parseFloat (pi_liquidity p)
                        /\ pi_token0 p = tokenA /\ pi_token1 p = tokenB
                        /\ In (pi_fee p) [500; 3000; 10000]%N) pools
    /\ List.NoDup (map pi_fee pools).
Proof.
  destruct (probeFeeTiers_outcome tokenA tokenB feeTiers [] s)
    as (added & Hrun & Hall & Hsub).
  cbn [app] in Hrun.
  set (number := fun p : PoolInfo => Double.parseFloat (pi_liquidity p)).
  assert (Hsort : Js.sort (fun a b => Double.sub (Double.parseFloat (pi_liquidity b))
                                        (Double.parseFloat (pi_liquidity a))) added
                  = Js.sort (fun a b => number b - number a) added).
  { apply sort_by_sign. intros a b. apply byLiquidity_sign. }
  exists (Js.sort (fun a b => number b - number a) added).
  pose proof (sort_Permutation (fun a b => number b - number a) added) as Hperm.
  split; [|split; [|split]].
  - unfold findAvailablePools. rewrite <- Hsort.
    rewrite <- (app_nil_r [GetPoolData tokenA tokenB 500; _; _]).
    eapply appends_bind; [exact Hrun|]. apply appends_ret.
  - apply (sort_descending number).
  - apply (Permutation_Forall (Permutation_sym Hperm)).
    apply List.Forall_forall. intros p Hp.
    pose proof (proj1 (List.Forall_forall _ _) Hall p Hp) as (H1 & H2 & H3).
    repeat split; auto.
    apply (sublist_In _ _ Hsub). apply in_map. exact Hp.
  - apply (Permutation_NoDup (Permutation_map pi_fee (Permutation_sym Hperm))).
    apply NoDup_ListNoDup. eapply sublist_NoDup; [|exact Hsub].
    apply NoDup_ListNoDup.
    unfold feeTiers. repeat constructor; cbn; intuition discriminate.
Qed.

(** X11.  [findAvailablePools] asks the gateway for the pool of the pair
    at each of the three fee tiers, in the order 500, 3000, 10000 and
    whatever the answers, and makes no other call; it never throws; the
    pools it returns are of the pair, at most one for each tier, each
    with a liquidity that [parseFloat] reads as a number above zero, in
    the descending order of these numbers. *)
Theorem findAvailablePools_outcome (tokenA tokenB : string) (s : State) :
  exists pools,
    appends (findAvailablePools world tokenA tokenB) s
      [GetPoolData tokenA tokenB 500; GetPoolData tokenA tokenB 3000;
       GetPoolData tokenA tokenB 10000] (Js.Ok pools)
    /\ StronglySorted (fun a b => Double.parseFloat (pi_liquidity b)
                                  <= Double.parseFloat (pi_liquidity a)) pools
    /\ Forall (fun p => 0 < Double.parseFloat (pi_liquidity p)
                        /\ pi_token0 p = tokenA /\ pi_token1 p = tokenB
                        /\ In (pi_fee p) [500; 3000; 10000]%N) pools
    /\ List.NoDup (map pi_fee pools).
Proof. apply findAvailablePools_cases. Qed.

Lemma bestPoolOf_first (first : PoolInfo) (others : list PoolInfo) :
  Forall (fun p => Double.parseFloat (pi_liquidity p)
                   <= Double.parseFloat (pi_liquidity first)) others ->
  bestPoolOf first others = first.
Proof.
  unfold bestPoolOf.
  induction 1 as [|p others Hp _ IH]; cbn [fold_left]; [reflexivity|].
  apply gt_false in Hp. rewrite Hp. exact IH.
Qed.

(** X12.  When no fee is given (or the fee is 0), [executeTrade] takes the
    fee of the first of the pools that [findAvailablePools] returns, a
    pool whose liquidity reads as the largest number of all; it throws
    when there is no pool; it makes the calls of [findAvailablePools]
    and no other. *)
Theorem choosePoolFee_most_liquid (src dst : string) (fee : option N) (s : State) :
  feeMissing fee = true ->
  exists pools s',
    findAvailablePools world src dst s = (Js.Ok pools, s')
    /\ match pools with
       | [] =>
           choosePoolFee world src dst fee s
           = (Js.Throw ("No liquid pools found for " ++ src ++ " -> " ++ dst), s')
       | first :: others =>
           choosePoolFee world src dst fee s = (Js.Ok (pi_fee first), s')
           /\ Forall (fun p => Double.parseFloat (pi_liquidity p)
                               <= Double.parseFloat (pi_liquidity first)) others
       end.
Proof.
  intros Hfee.
  destruct (findAvailablePools_cases src dst s) as (pools & Hrun & Hsorted & _).
  unfold appends in Hrun. exists pools. eexists. split; [exact Hrun|].
  unfold choosePoolFee. rewrite Hfee.
  destruct pools as [|first others]; unfold bind; rewrite Hrun; [reflexivity|].
  inversion Hsorted as [|? ? _ Hle]; subst.
  rewrite (bestPoolOf_first first others Hle).
  split; [reflexivity | exact Hle].
Qed.


Lemma appends_intro {A : Type} (m : M A) s evs r s' :
  m s = (r, s') -> tradeHistory s' = tradeHistory s -> trace s' = trace s ++ evs ->
  appends m s evs r.
Proof.
  intros H H1 H2. unfold appends. rewrite H.
  destruct s'; cbn in *; subst; reflexivity.
Qed.

(** From the quote on: the block either throws, or it has submitted the
    swap and waited for it. *)
Lemma quoteAndSubmit_outcome result src dst amount poolFee s :
  let r := quoteAndSubmit config world result src dst amount poolFee s in
  tradeHistory (snd r) = tradeHistory s
  /\ exists evs,
       trace (snd r) = trace s ++ evs
       /\ forallb (fun e => negb (isProbe e)) evs = true
       /\ match fst r with
          | Js.Ok r =>
              exists pre out id,
                evs = pre ++ [Swap src dst poolFee (Double.toString amount)
                                (minimumOutput config out) (walletAddress config);
                              Wait id]
                /\ forallb (fun e => negb (isSwap e)) pre = true
                /\ 0 <= out
                /\ (r = markSuccess result out id \/ exists e, r = markError result e)
          | Js.Throw _ => True
          end.
Proof.
  unfold quoteAndSubmit, bind, call, liftResult, ret, throw. unfold_state.
  set (exactIn := Double.toString amount).
  destruct (quoteExactInput world (trace s) src dst exactIn poolFee) as [quote|e];
    unfold_state.
  2:{ cbn. split; [reflexivity|]. eexists. split; [reflexivity|]. cbn. auto. }
  destruct (outputAmountOf quote) as [outputAmount|]; unfold_state.
  2:{ cbn. split; [reflexivity|]. eexists. split; [reflexivity|]. cbn. auto. }
  set (q := QuoteExactInput src dst exactIn poolFee (Js.Ok quote)).
  destruct (eventSocketConnected world (trace s ++ [q])); unfold_state.
  - match goal with
    | |- context [swap world ?t ?a ?b ?c ?d ?m ?w] =>
        destruct (swap world t a b c d m w) as [pendingTx|e]
    end; unfold_state.
    2:{ cbn. split; [reflexivity|]. eexists.
        split; [rewrite <- !app_assoc; reflexivity|]. cbn. auto. }
    match goal with
    | |- context [wait world ?t ?i] => destruct (wait world t i) as [[]|e]
    end; unfold_state;
      (cbn [fst snd trace tradeHistory]; split; [reflexivity|]; eexists;
       split; [rewrite <- !app_assoc; reflexivity|]);
      (split; [reflexivity|]);
      exists [q; EventSocketConnected], (Qabs (Double.parseFloat outputAmount)),
        pendingTx;
      (split; [reflexivity|]); (split; [reflexivity|]);
      (split; [apply Qabs_nonneg|]); eauto.
  - match goal with
    | |- context [connectEventSocket world ?t] =>
        destruct (connectEventSocket world t) as [[]|e]
    end; unfold_state.
    2:{ cbn. split; [reflexivity|]. eexists.
        split; [rewrite <- !app_assoc; reflexivity|]. cbn. auto. }
    match goal with
    | |- context [swap world ?t ?a ?b ?c ?d ?m ?w] =>
        destruct (swap world t a b c d m w) as [pendingTx|e]
    end; unfold_state.
    2:{ cbn. split; [reflexivity|]. eexists.
        split; [rewrite <- !app_assoc; reflexivity|]. cbn. auto. }
    match goal with
    | |- context [wait world ?t ?i] => destruct (wait world t i) as [[]|e]
    end; unfold_state;
      (cbn [fst snd trace tradeHistory]; split; [reflexivity|]; eexists;
       split; [rewrite <- !app_assoc; reflexivity|]);
      (split; [reflexivity|]);
      exists [q; EventSocketConnected; ConnectEventSocket],
        (Qabs (Double.parseFloat outputAmount)), pendingTx;
      (split; [reflexivity|]); (split; [reflexivity|]);
      (split; [apply Qabs_nonneg|]); eauto.
Qed.


Lemma choosePoolFee_effect src dst fee s :
  let r := choosePoolFee world src dst fee s in
  tradeHistory (snd r) = tradeHistory s
  /\ exists evs, trace (snd r) = trace s ++ evs
                 /\ forallb (fun e => negb (isSwap e)) evs = true.
Proof.
  cbv zeta. destruct (feeMissing fee) eqn:Hfee.
  - destruct (findAvailablePools_cases src dst s) as (pools & Hrun & _).
    unfold appends in Hrun.
    unfold choosePoolFee. rewrite Hfee. unfold bind. rewrite Hrun.
    destruct pools as [|first others]; cbn; (split; [reflexivity|]);
      eexists; (split; [reflexivity|]); reflexivity.
  - unfold choosePoolFee. rewrite Hfee. cbn. split; [reflexivity|].
    exists []. rewrite app_nil_r. split; reflexivity.
Qed.

Lemma forallb_app_true {A : Type} (f : A -> bool) (l k : list A) :
  forallb f l = true -> forallb f k = true -> forallb f (l ++ k) = true.
Proof. intros Hl Hk. rewrite forallb_app, Hl, Hk. reflexivity. Qed.

(** The [try] block of [executeTrade]: it leaves the history alone, and
    when it does not throw it has submitted the swap and waited for it. *)
Lemma executeLive_outcome result src dst amount fee s :
  let r := executeLive config world result src dst amount fee s in
  tradeHistory (snd r) = tradeHistory s
  /\ exists evs,
       trace (snd r) = trace s ++ evs
       /\ match fst r with
          | Js.Ok res =>
              exists out id,
                endsWithSwap config src dst amount evs out id
                /\ 0 <= out
                /\ (res = markSuccess result out id
                    \/ exists e, res = markError result e)
          | Js.Throw _ => True
          end.
Proof.
  cbv zeta. unfold executeLive, bind.
  pose proof (choosePoolFee_effect src dst fee s) as Hfee. cbv zeta in Hfee.
  destruct (choosePoolFee world src dst fee s) as [[poolFee|e] s1];
    cbn [fst snd] in Hfee; destruct Hfee as (Hh1 & evs1 & Ht1 & Hns).
  2:{ cbn [fst snd]. split; [exact Hh1|]. exists evs1. split; [exact Ht1 | exact I]. }
  pose proof (quoteAndSubmit_outcome result src dst amount poolFee s1) as Hq.
  cbv zeta in Hq.
  destruct (quoteAndSubmit config world result src dst amount poolFee s1)
    as [o s2]; cbn [fst snd] in *.
  destruct Hq as (Hh2 & evs2 & Ht2 & _ & Ho).
  split; [congruence|]. exists (evs1 ++ evs2).
  split; [rewrite Ht2, Ht1, app_assoc; reflexivity|].
  destruct o as [res|e]; [|exact I].
  destruct Ho as (pre & out & id & -> & Hpre & Hout & Hres).
  exists out, id. split; [|split; [exact Hout | exact Hres]].
  exists (evs1 ++ pre), poolFee. split; [rewrite app_assoc; reflexivity|].
  apply forallb_app_true; assumption.
Qed.

(** [executeTrade] never throws: it returns a result about the trade it
    was asked for and appends that result to the history. *)
Lemma executeTrade_records src dst amount fee s :
  exists r evs,
    records (executeTrade config world src dst amount fee) s evs [r] (Js.Ok r)
    /\ about r src dst amount
    /\ (enableTrading config = false ->
        evs = [] /\ r = mockResult src dst amount (dateNow world (trace s)))
    /\ (enableTrading config = true ->
        (success r = true ->
         exists out id,
           amountOut r = Some out /\ 0 <= out /\ transactionId r = Some id
           /\ error r = None /\ endsWithSwap config src dst amount evs out id)
        /\ (success r = false ->
            amountOut r = None /\ transactionId r = None
            /\ exists e, error r = Some e)).
Proof.
  unfold records, executeTrade, bind, readTrace, pushHistory, attempt, ret.
  destruct (enableTrading config) eqn:Htrading; cbn [negb]; unfold_state.
  - pose proof (executeLive_outcome
                  {| success := false; fromToken := src; toToken := dst;
                     amountIn := amount; amountOut := None; transactionId := None;
                     error := None; timestamp := dateNow world (trace s) |}
                  src dst amount fee s) as Hlive.
    cbv zeta in Hlive.
    destruct (executeLive config world _ src dst amount fee s) as [o s1];
      cbn [fst snd] in Hlive.
    destruct Hlive as (Hh & evs & Ht & Ho). unfold_state.
    destruct s1 as [h1 t1]; cbn [tradeHistory trace] in *. subst h1 t1.
    destruct o as [res|e].
    + destruct Ho as (out & id & Hends & Hout & [->| [e ->]]).
      * eexists _, evs. split; [reflexivity|]. unfold about. cbn.
        repeat split; auto; try discriminate.
        intros _. exists out, id. auto.
      * eexists _, evs. split; [reflexivity|]. unfold about. cbn.
        repeat split; auto; try discriminate. eauto.
    + eexists _, evs. split; [reflexivity|]. unfold about. cbn.
      repeat split; auto; try discriminate. eauto.
  - eexists _, []. rewrite app_nil_r. split; [reflexivity|]. unfold about. cbn.
    repeat split; auto; discriminate.
Qed.


Lemma bind_inv {A B : Type} (m : M A) (k : A -> M B) s r s' :
  bind m k s = (Js.Ok r, s') ->
  exists a s1, m s = (Js.Ok a, s1) /\ k a s1 = (Js.Ok r, s').
Proof.
  unfold bind. destruct (m s) as [[a|e] s1]; intros H; [eauto | discriminate H].
Qed.

Lemma executeTrade_inv src dst amount fee s r s' :
  executeTrade config world src dst amount fee s = (Js.Ok r, s') ->
  tradeHistory s' = tradeHistory s ++ [r] /\ about r src dst amount.
Proof.
  intros H.
  destruct (executeTrade_records src dst amount fee s) as (r0 & evs & Hrec & Habout & _).
  unfold records in Hrec. rewrite Hrec in H. injection H as <- <-.
  split; [reflexivity | exact Habout].
Qed.

(** X13.  A two-hop route that succeeds has made two trades, both
    successful and both appended to the history: the first over the
    whole amount from the first to the middle token of the route, the
    second from the middle to the last token over the amount that the
    first one reports as received.  The result that is returned is a
    third one, about the pair and amount that were asked for, with the
    output of the second hop; it is not appended to the history. *)
Theorem two_hop_route_chains (src dst : string) (amount : Q) (path : list string)
    (s s' : State) (combined : TradeResult) :
  tryPath config world src dst amount path s = (Js.Ok (Some combined), s') ->
  exists a b c first second hop,
    path = [a; b; c]
    /\ tradeHistory s' = tradeHistory s ++ [first; second]
    /\ success first = true /\ about first a b amount
    /\ amountOut first = Some hop
    /\ success second = true /\ about second b c hop
    /\ success combined = true /\ about combined src dst amount
    /\ amountOut combined = amountOut second.
Proof.
  intros H. unfold tryPath in H.
  destruct path as [|a [|b [|c [|? ?]]]]; try (injection H; discriminate).
  destruct (String.eqb a "" || String.eqb b "" || String.eqb c "")%bool;
    [injection H; discriminate|].
  apply bind_inv in H. destruct H as (first & s1 & H1 & H).
  apply executeTrade_inv in H1. destruct H1 as [Hh1 Ha1].
  destruct (success first) eqn:Es1; cbn [negb orb] in H; [|injection H; discriminate].
  destruct (amountOut first) as [hop|] eqn:Eo1; cbn [Js.truthy_num] in H;
    [|injection H; discriminate].
  destruct (negb (Qeq_bool hop 0)); cbn [negb] in H; [|injection H; discriminate].
  cbn [default] in H.
  apply bind_inv in H. destruct H as (second & s2 & H2 & H).
  apply executeTrade_inv in H2. destruct H2 as [Hh2 Ha2].
  destruct (success second) eqn:Es2; cbn [andb] in H; [|injection H; discriminate].
  destruct (Js.truthy_num (amountOut second)); [|injection H; discriminate].
  apply bind_inv in H. destruct H as (now & s3 & H3 & H).
  unfold readTrace in H3. injection H3 as <- <-.
  unfold ret in H. injection H as <- <-.
  exists a, b, c, first, second, hop. unfold about. cbn.
  rewrite Hh2, Hh1, <- app_assoc. repeat split; auto; apply Ha1 || apply Ha2.
Qed.

Lemma tryPath_success src dst amount path s combined s' :
  tryPath config world src dst amount path s = (Js.Ok (Some combined), s') ->
  success combined = true.
Proof.
  intros H. unfold tryPath in H.
  destruct path as [|a [|b [|c [|? ?]]]]; try (injection H; discriminate).
  destruct (String.eqb a "" || String.eqb b "" || String.eqb c "")%bool;
    [injection H; discriminate|].
  apply bind_inv in H. destruct H as (first & s1 & _ & H).
  destruct (negb (success first) || negb (Js.truthy_num (amountOut first)))%bool;
    [injection H; discriminate|].
  apply bind_inv in H. destruct H as (second & s2 & _ & H).
  destruct (success second && Js.truthy_num (amountOut second))%bool;
    [|injection H; discriminate].
  apply bind_inv in H. destruct H as (now & s3 & _ & H).
  unfold ret in H. injection H as <- _. reflexivity.
Qed.

Lemma tryPaths_success src dst amount paths :
  forall s r s',
    tryPaths config world src dst amount paths s = (Js.Ok r, s') ->
    success r = true.
Proof.
  induction paths as [|path rest IH]; intros s r s' H; cbn [tryPaths] in H.
  - discriminate H.
  - apply bind_inv in H. destruct H as (outcome & s1 & H1 & H).
    unfold attempt in H1.
    destruct (tryPath config world src dst amount path s) as [o s1'] eqn:E.
    injection H1 as <- <-.
    destruct o as [[combined|]|e]; try (exact (IH _ _ _ H)).
    unfold ret in H. injection H as <- _.
    exact (tryPath_success _ _ _ _ _ _ _ E).
Qed.

Lemma executeMultiHopTrade_success src dst amount s r s' :
  executeMultiHopTrade config world src dst amount s = (Js.Ok r, s') ->
  success r = true.
Proof.
  intros H. unfold executeMultiHopTrade in H.
  apply bind_inv in H. destruct H as (direct & s1 & _ & H).
  assert (Hreg : tryRegistryPaths config world src dst amount s1 = (Js.Ok r, s') ->
                 success r = true).
  { unfold tryRegistryPaths.
    destruct (findTradingPaths world src dst) as [|path rest]; [discriminate|].
    apply tryPaths_success. }
  destruct direct as [directResult|e]; [|exact (Hreg H)].
  destruct (success directResult) eqn:Es; [|exact (Hreg H)].
  unfold ret in H. injection H as <- _. exact Es.
Qed.

Lemma runTrades_success remaining :
  forall results s out s',
    runTrades config world remaining results s = (Js.Ok out, s') ->
    Forall (fun r => success r = true) results ->
    Forall (fun r => success r = true) out
    /\ (enableTrading config = true ->
        length out = (length results + length remaining)%nat).
Proof.
  induction remaining as [|trade rest IH]; intros results s out s' H Hres;
    cbn [runTrades] in H.
  - unfold ret in H. injection H as <- _. split; [exact Hres|].
    intros _. cbn. lia.
  - destruct (enableTrading config) eqn:Htrading; cbn [negb] in H.
    + apply bind_inv in H. destruct H as (result & s1 & H1 & H).
      apply executeMultiHopTrade_success in H1.
      apply bind_inv in H. destruct H as (u & s2 & _ & H).
      apply IH in H.
      * destruct H as [Hout Hlen]. split; [exact Hout|]. intros _.
        rewrite (Hlen eq_refl), length_app. cbn. lia.
      * apply Forall_app. split; [exact Hres|]. constructor; [exact H1|constructor].
    + apply IH in H; [|exact Hres]. destruct H as [Hout _].
      split; [exact Hout | discriminate].
Qed.

(** X14.  The results that [executeTradesForPreferredToken] returns are
    all successes: a trade for which neither the direct swap nor a route
    of the registry succeeds makes [executeMultiHopTrade] throw, and
    nothing is returned for it.  When trading is enabled and the batch
    returns, it returns one result for each trade. *)
Theorem batch_returns_only_successes (trades : list BalanceManager.Trade)
    (s s' : State) (results : list TradeResult) :
  executeTradesForPreferredToken config world trades s = (Js.Ok results, s') ->
  Forall (fun r => success r = true) results
  /\ (enableTrading config = true -> length results = length trades).
Proof.
  intros H. unfold executeTradesForPreferredToken in H.
  apply runTrades_success in H; [|constructor].
  destruct H as [Hout Hlen]. split; [exact Hout|].
  intros Ht. rewrite (Hlen Ht). cbn.
  apply Permutation_length. apply sort_Permutation.
Qed.

(** X15.  When trading is enabled and [executeMultiHopTrade] throws for
    a trade of the batch, the loop of [executeTradesForPreferredToken]
    ends there with the same error: the trades that follow are not
    attempted, no delay is taken, and the results of the trades before
    it are not returned. *)
Theorem batch_aborts_on_failure (trade : BalanceManager.Trade)
    (rest : list BalanceManager.Trade) (results : list TradeResult)
    (s s1 : State) (e : string) :
  enableTrading config = true ->
  executeMultiHopTrade config world
    (BalanceManager.tokenKey (BalanceManager.token trade))
    (BalanceManager.targetToken trade) (BalanceManager.amount trade) s
  = (Js.Throw e, s1) ->
  runTrades config world (trade :: rest) results s = (Js.Throw e, s1).
Proof.
  intros Ht H. cbn [runTrades]. rewrite Ht. cbn [negb].
  unfold bind at 1. rewrite H. reflexivity.
Qed.

End Strategy.



Lemma batch_returns_only_successes_witness :
  exists results,
    fst (executeTradesForPreferredToken (Scenario.config true) Scenario.calmWorld
           (BalanceManager.getTokensToTrade (Scenario.config true)
              Scenario.starvedBalance)
           Scenario.idle) = Js.Ok results
    /\ Forall (fun r => success r = true) results
    /\ length results = 4%nat.
Proof.
  destruct (executeTradesForPreferredToken (Scenario.config true) Scenario.calmWorld
              (BalanceManager.getTokensToTrade (Scenario.config true)
                 Scenario.starvedBalance)
              Scenario.idle) as [[results|e] s'] eqn:E;
    [|vm_compute in E; discriminate E].
  exists results. split; [reflexivity|].
  destruct (batch_returns_only_successes _ _ _ _ _ _ E) as [Hall Hlen].
  split; [exact Hall|]. rewrite (Hlen eq_refl). vm_compute. reflexivity.
Defined.

Lemma two_hop_route_chains_witness :
  exists first second,
    tradeHistory
      (snd (tryPath (Scenario.config true) Scenario.calmWorld
              (Scenario.key "GUSDC") (Scenario.key "SILK") 5
              [Scenario.key "GUSDC"; Scenario.key "GALA"; Scenario.key "SILK"]
              Scenario.idle))
    = [first; second]
    /\ amountOut first = Some (amountIn second).
Proof.
  destruct (tryPath (Scenario.config true) Scenario.calmWorld
              (Scenario.key "GUSDC") (Scenario.key "SILK") 5
              [Scenario.key "GUSDC"; Scenario.key "GALA"; Scenario.key "SILK"]
              Scenario.idle) as [[[combined|]|e] s'] eqn:E;
    [|vm_compute in E; discriminate E|vm_compute in E; discriminate E].
  destruct (two_hop_route_chains _ _ _ _ _ _ _ _ _ E)
    as (a & b & c & first & second & hop & _ & Hh & _ & _ & Ho & _ & Ha & _).
  exists first, second. cbn [snd]. split; [exact Hh|].
  rewrite Ho. destruct Ha as (_ & _ & ->). reflexivity.
Defined.

Lemma batch_aborts_on_failure_witness :
  fst (runTrades (Scenario.config true) emptyWorld
         (BalanceManager.getTokensToTrade (Scenario.config true)
            Scenario.starvedBalance) [] Scenario.idle)
  = Js.Throw ("No trading path found from " ++ Scenario.key "GUSDC" ++ " to "
              ++ Scenario.key "GALA").
Proof.
  destruct (executeMultiHopTrade (Scenario.config true) emptyWorld
              (Scenario.key "GUSDC") (Scenario.key "GALA") 5 Scenario.idle)
    as [[r|e] s1] eqn:E; [vm_compute in E; discriminate E|].
  pose proof (batch_aborts_on_failure (Scenario.config true) emptyWorld
                {| BalanceManager.token := Scenario.holding "GUSDC" 50;
                   BalanceManager.targetToken := Scenario.key "GALA";
                   BalanceManager.amount := 5 |}
                (tl (BalanceManager.getTokensToTrade (Scenario.config true)
                       Scenario.starvedBalance))
                [] Scenario.idle s1 e eq_refl E) as H.
  vm_compute in E. injection E as <- _.
  transitivity (fst (runTrades (Scenario.config true) emptyWorld
     ({| BalanceManager.token := Scenario.holding "GUSDC" 50;
         BalanceManager.targetToken := Scenario.key "GALA";
         BalanceManager.amount := 5 |}
      :: tl (BalanceManager.getTokensToTrade (Scenario.config true)
               Scenario.starvedBalance)) [] Scenario.idle)).
  - vm_compute. reflexivity.
  - rewrite H. reflexivity.
Defined.

(** ** The order of a batch *)

Section Priority.

Variable config : BotConfig.

Lemma insert_toGala (x : BalanceManager.Trade) (l : list BalanceManager.Trade) :
  toGala config x = true -> Js.insert (byPriority config) x l = x :: l.
Proof.
  intros Hx. destruct l as [|y l]; cbn [Js.insert]; [reflexivity|].
  unfold byPriority. unfold toGala in Hx. rewrite Hx.
  destruct (String.eqb (BalanceManager.targetToken y) (galaTokenKey config));
    reflexivity.
Qed.

Lemma insert_notGala (x : BalanceManager.Trade) (gas rest : list BalanceManager.Trade) :
  toGala config x = false ->
  Forall (fun t => toGala config t = true) gas ->
  Forall (fun t => toGala config t = false) rest ->
  Js.insert (byPriority config) x (gas ++ rest) = gas ++ x :: rest.
Proof.
  intros Hx Hgas Hrest. unfold toGala in Hx.
  induction Hgas as [|y gas Hy _ IH]; cbn [app Js.insert].
  - destruct Hrest as [|y rest Hy _]; cbn [Js.insert]; [reflexivity|].
    unfold byPriority, toGala in *. rewrite Hx, Hy. reflexivity.
  - unfold byPriority at 1. unfold toGala in Hy. rewrite Hx, Hy. cbn [andb negb].
    change (Js.gt 1 0) with true. cbv iota. rewrite IH. reflexivity.
Qed.

Lemma gas_trades_first_aux (trades : list BalanceManager.Trade) :
  Js.sort (byPriority config) trades
  = List.filter (toGala config) trades
    ++ List.filter (fun t => negb (toGala config t)) trades.
Proof.
  induction trades as [|x l IH]; [reflexivity|].
  change (Js.sort (byPriority config) (x :: l))
    with (Js.insert (byPriority config) x (Js.sort (byPriority config) l)).
  rewrite IH. cbn [List.filter].
  destruct (toGala config x) eqn:Hx; cbn [negb].
  - apply insert_toGala. exact Hx.
  - apply insert_notGala; [exact Hx| |];
      apply List.Forall_forall; intros t Ht; apply filter_In in Ht;
      destruct Ht as [_ Ht]; [exact Ht | apply negb_true_iff; exact Ht].
Qed.

(** X17.  The sort of [executeTradesForPreferredToken] puts the trades
    into the gas token first and the others after them, and keeps the
    order that the trades had within each of the two groups; the trades
    into the gas token are then run first by the loop, and a batch with
    none of them is run in the order it came in. *)
Theorem gas_trades_first (trades : list BalanceManager.Trade) :
  Js.sort (byPriority config) trades
  = List.filter (toGala config) trades
    ++ List.filter (fun t => negb (toGala config t)) trades.
Proof. exact (gas_trades_first_aux trades). Qed.

(** X18.  The trades that [getTokensToTrade] plans are already in the
    order of execution: the sort of [executeTradesForPreferredToken]
    leaves them as they are, the refills of the gas token first. *)
Theorem planned_trades_keep_their_order (balance : BalanceManager.BalanceSummary) :
  Js.sort (byPriority config) (BalanceManager.getTokensToTrade config balance)
  = BalanceManager.getTokensToTrade config balance.
Proof.
  assert (Hall : forall target others,
             Forall (fun t => BalanceManager.targetToken t = target)
               (BalanceManager.tradesForOthers config target others)).
  { intros target others. induction others as [|tk rest IH];
      cbn [BalanceManager.tradesForOthers]; [constructor|].
    destruct (Js.gt _ 0); [constructor; [reflexivity | exact IH] | exact IH]. }
  assert (Hkeep : forall (f : BalanceManager.Trade -> bool) l,
             Forall (fun t => f t = true) l -> List.filter f l = l).
  { intros f l H. induction H as [|t l Ht _ IH]; cbn [List.filter]; [reflexivity|].
    rewrite Ht, IH. reflexivity. }
  assert (Hdrop : forall (f : BalanceManager.Trade -> bool) l,
             Forall (fun t => f t = false) l -> List.filter f l = []).
  { intros f l H. induction H as [|t l Ht _ IH]; cbn [List.filter]; [reflexivity|].
    rewrite Ht, IH. reflexivity. }
  rewrite gas_trades_first_aux.
  unfold BalanceManager.getTokensToTrade. cbv zeta.
  set (first := if BalanceManager.shouldMaintainGalaBalance config balance
                then BalanceManager.tradesForOthers config (galaTokenKey config)
                       (BalanceManager.otherTokens balance)
                else []).
  set (second := BalanceManager.tradesForOthers config (preferredTokenKey config)
                   (BalanceManager.otherTokens balance)).
  assert (Hfirst : Forall (fun t => toGala config t = true) first).
  { subst first. destruct (BalanceManager.shouldMaintainGalaBalance config balance);
      [|constructor].
    eapply Forall_impl; [apply Hall|]. cbn beta. intros t Ht.
    unfold toGala. rewrite Ht. apply String.eqb_refl. }
  destruct (String.eqb (preferredTokenKey config) (galaTokenKey config)) eqn:Epg.
  - rewrite andb_false_r. rewrite app_nil_r.
    assert (Hsecond : Forall (fun t => toGala config t = true) second).
    { subst second. eapply Forall_impl; [apply Hall|]. cbn beta. intros t Ht.
      unfold toGala. rewrite Ht. exact Epg. }
    rewrite (Hkeep (toGala config)) by (apply Forall_app; split; assumption).
    rewrite Hdrop; [apply app_nil_r|].
    apply Forall_app; split;
      (eapply Forall_impl; [eassumption|]); cbn beta; intros t Ht; rewrite Ht;
      reflexivity.
  - rewrite andb_true_r.
    set (third := if BalanceManager.canTradeExcessGala config balance then _ else _).
    assert (Hrest : Forall (fun t => toGala config t = false) (second ++ third)).
    { apply Forall_app. split.
      - subst second. eapply Forall_impl; [apply Hall|]. cbn beta. intros t Ht.
        unfold toGala. rewrite Ht. exact Epg.
      - subst third. destruct (BalanceManager.canTradeExcessGala config balance);
          [|constructor].
        destruct (Js.gt _ 0); [|constructor].
        constructor; [|constructor]. unfold toGala. cbn. exact Epg. }
    rewrite (List.filter_app (toGala config) first (second ++ third)).
    rewrite (List.filter_app (fun t => negb (toGala config t)) first (second ++ third)).
    rewrite (Hkeep (toGala config) first Hfirst).
    rewrite (Hdrop (toGala config) (second ++ third) Hrest).
    rewrite (Hdrop (fun t => negb (toGala config t)) first)
      by (eapply Forall_impl; [exact Hfirst|]; cbn beta; intros t Ht; rewrite Ht;
          reflexivity).
    rewrite (Hkeep (fun t => negb (toGala config t)) (second ++ third))
      by (eapply Forall_impl; [exact Hrest|]; cbn beta; intros t Ht; rewrite Ht;
          reflexivity).
    rewrite app_nil_r. reflexivity.
Qed.

End Priority.

Lemma choosePoolFee_most_liquid_witness :
  fst (choosePoolFee Scenario.calmWorld (Scenario.key "GUSDC") (Scenario.key "SILK")
         None Scenario.idle) = Js.Ok 3000%N.
Proof.
  destruct (choosePoolFee_most_liquid Scenario.calmWorld (Scenario.key "GUSDC")
              (Scenario.key "SILK") None Scenario.idle eq_refl)
    as (pools & s' & Hrun & H).
  vm_compute in Hrun. injection Hrun as <- <-.
  destruct H as [H _]. rewrite H. reflexivity.
Defined.

End TradeEffectsProps.

(** ** The minimum output and the quote *)

Module SlippageProps.
Import TradingStrategy TradeEffects Predicates.

(** The minimum output that goes with an expected output reads as a
    number between 0 and the expected output, for a slippage between 0
    and 100 percent. *)
Lemma minimumOutput_within (config : BotConfig) (expectedOutput : Q) :
  0 <= maxSlippage config <= 100 ->
  Double.round expectedOutput == expectedOutput -> 0 <= expectedOutput ->
  0 <= Double.parseFloat (minimumOutput config expectedOutput) <= expectedOutput.
Proof.
  intros Hslip Hnum Hpos.
  assert (H100 : Double.round 100 = 100) by (vm_compute; reflexivity).
  assert (H1 : Double.round 1 = 1) by (vm_compute; reflexivity).
  assert (H0 : Double.round 0 = 0) by (vm_compute; reflexivity).
  unfold minimumOutput. rewrite DoubleProps.toString_reads_back.
  set (factor := Double.sub 1 (Double.div (maxSlippage config) 100)).
  assert (Em : Double.round (Double.mul expectedOutput factor)
               = Double.mul expectedOutput factor)
    by apply DoubleProps.round_idempotent.
  rewrite Em. clear Em.
  assert (Hs : 0 <= Double.round (maxSlippage config) <= 100).
  { split.
    - apply DoubleProps.round_ge; [rewrite H0; reflexivity|apply Hslip].
    - apply DoubleProps.round_le; [rewrite H100; reflexivity|apply Hslip]. }
  assert (Hd : 0 <= Double.div (maxSlippage config) 100 <= 1).
  { unfold Double.div. rewrite H100. split.
    - apply DoubleProps.round_ge; [rewrite H0; reflexivity|].
      apply Qle_shift_div_l; lra.
    - apply DoubleProps.round_le; [rewrite H1; reflexivity|].
      apply Qle_shift_div_r; lra. }
  assert (Hf : 0 <= factor <= 1).
  { unfold factor, Double.sub. rewrite H1.
    assert (E : Double.round (Double.div (maxSlippage config) 100)
                = Double.div (maxSlippage config) 100)
      by apply DoubleProps.round_idempotent.
    rewrite E. split.
    - apply DoubleProps.round_ge; [rewrite H0; reflexivity|lra].
    - apply DoubleProps.round_le; [rewrite H1; reflexivity|lra]. }
  assert (Ef : Double.round factor = factor) by apply DoubleProps.round_idempotent.
  unfold Double.mul. rewrite Ef.
  assert (He : 0 <= Double.round expectedOutput) by (rewrite Hnum; exact Hpos).
  destruct Hf as [Hf0 Hf1].
  split.
  - apply DoubleProps.round_ge; [rewrite H0; reflexivity|].
    apply Qmult_le_0_compat; assumption.
  - apply (DoubleProps.round_le (Double.round expectedOutput * factor)
             expectedOutput Hnum).
    rewrite Hnum.
    assert (0 <= expectedOutput * (1 - factor)) by (apply Qmult_le_0_compat; lra).
    lra.
Qed.

Lemma slippageBounded_withinQuotes (config : BotConfig) (evs : list Event) :
  0 <= maxSlippage config <= 100 ->
  slippageBounded config evs -> withinQuotes evs.
Proof.
  intros Hslip Hb pre src dst fee exactIn amountOutMinimum wallet post Hevs.
  destruct (Hb _ _ _ _ _ _ _ _ Hevs) as (before & quote & out & socket & Hpre & _ & Hout & Hmin).
  exists before, quote, out, socket. split; [exact Hpre|]. split; [exact Hout|].
  rewrite Hmin. apply minimumOutput_within; [exact Hslip| |apply Qabs_nonneg].
  apply DoubleProps.round_abs.
Qed.

(** X19.  With a slippage between 0 and 100 percent, every submission
    of a swap, by [executeTrade] and by the batch that runs on top of
    it, asks for no more than was quoted: its [amountOutMinimum] reads
    as a number that is not negative and not above the output of the
    quote that precedes it, so that rounding never pushes the minimum
    above the quote. *)
Theorem submissions_within_quotes (config : BotConfig) (world : World) :
  0 <= maxSlippage config <= 100 ->
  (forall src dst amount fee s,
      exists evs,
        trace (snd (executeTrade config world src dst amount fee s)) = trace s ++ evs
        /\ withinQuotes evs)
  /\ (forall trades s,
        exists evs,
          trace (snd (executeTradesForPreferredToken config world trades s))
          = trace s ++ evs
          /\ withinQuotes evs).
Proof.
  intros Hslip. split.
  - intros src dst amount fee s.
    destruct (TradingStrategyProps.executeTrade_slippageBounded config world
                src dst amount fee s) as (evs & Htrace & Hb).
    exists evs. split; [exact Htrace|].
    apply (slippageBounded_withinQuotes config evs Hslip Hb).
  - intros trades s.
    destruct (TradingStrategyProps.batch_slippageBounded config world trades s)
      as (evs & Htrace & Hb).
    exists evs. split; [exact Htrace|].
    apply (slippageBounded_withinQuotes config evs Hslip Hb).
Qed.

Lemma submissions_within_quotes_witness :
  0 <= maxSlippage (Scenario.config true) <= 100
  /\ exists evs,
       trace (snd (executeTrade (Scenario.config true) (Scenario.quotingWorld 7)
                     (Scenario.key "GUSDC") (Scenario.key "SILK") 5 None
                     Scenario.idle))
       = trace Scenario.idle ++ evs
       /\ withinQuotes evs.
Proof.
  assert (Hslip : 0 <= maxSlippage (Scenario.config true) <= 100)
    by (split; vm_compute; discriminate).
  split; [exact Hslip|].
  apply (proj1 (submissions_within_quotes (Scenario.config true)
                  (Scenario.quotingWorld 7) Hslip)).
Defined.

End SlippageProps.

(** ** The reports on the history *)

Module TradeReportsProps.
Import TradingStrategy TradeReports TradeEffects.

(** X20.  [getTradeHistory(limit)] with a positive [limit] returns the
    last [limit] results of the history, all of them when there are
    fewer; without a limit, or with the limit 0, it returns the whole
    history; with a negative limit [-n] it returns the history without
    its first [n] results.  The [totalTrades] of the status, read off
    [getTradeHistory(10)], is the size of the history up to 10 and 10
    from there on. *)
Theorem getTradeHistory_recent (history : list TradeResult) :
  (forall n, (0 < n)%Z ->
     exists older,
       history = older ++ getTradeHistory history (Some n)
       /\ length (getTradeHistory history (Some n))
          = Nat.min (Z.to_nat n) (length history))
  /\ getTradeHistory history None = history
  /\ getTradeHistory history (Some 0%Z) = history
  /\ (forall n, (0 < n)%Z ->
        getTradeHistory history (Some (- n)%Z) = skipn (Z.to_nat n) history)
  /\ totalTrades history = Nat.min 10 (length history).
Proof.
  assert (Hpos : forall n, (0 < n)%Z ->
            getTradeHistory history (Some n)
            = skipn (length history - Z.to_nat n) history).
  { intros n Hn. unfold getTradeHistory, slice.
    destruct (Z.eqb_spec n 0) as [->|_]; [lia|]. cbv zeta.
    destruct (Z.ltb_spec (- n) 0) as [_|Hge]; [|lia].
    f_equal. lia. }
  split; [|split; [|split; [|split]]].
  - intros n Hn. rewrite (Hpos n Hn).
    exists (firstn (length history - Z.to_nat n) history).
    split; [symmetry; apply firstn_skipn|]. rewrite length_skipn. lia.
  - reflexivity.
  - reflexivity.
  - intros n Hn. unfold getTradeHistory, slice.
    destruct (Z.eqb_spec (- n) 0) as [E|_]; [lia|]. cbv zeta.
    destruct (Z.ltb_spec (- - n) 0) as [Hlt|_]; [lia|].
    rewrite Z.opp_involutive.
    destruct (Z.min_spec n (Z.of_nat (length history))) as [[Hle ->]|[Hle ->]];
      [reflexivity|].
    rewrite Nat2Z.id. rewrite !skipn_all2; [reflexivity|lia|lia].
  - unfold totalTrades. rewrite (Hpos 10%Z) by lia. rewrite length_skipn. lia.
Qed.

Lemma length_filter_le {A : Type} (f : A -> bool) (l : list A) :
  (length (List.filter f l) <= length l)%nat.
Proof.
  induction l as [|x l IH]; cbn [List.filter length]; [lia|].
  destruct (f x); cbn [length]; lia.
Qed.

Lemma length_filter_all {A : Type} (f : A -> bool) (l : list A) :
  length (List.filter f l) = length l <-> Forall (fun x => f x = true) l.
Proof.
  induction l as [|x l IH]; cbn [List.filter length].
  - split; [constructor | reflexivity].
  - destruct (f x) eqn:E; cbn [length].
    + split.
      * intros H. constructor; [exact E|]. apply IH. lia.
      * intros H. inversion H; subst. f_equal. apply IH. assumption.
    + pose proof (length_filter_le f l) as Hle. split; [lia|].
      intros H. inversion H; subst. congruence.
Qed.

(** A count is a multiple of [2^-1074]. *)
Lemma count_grid (n : nat) :
  inject_Z (Z.of_nat n)
  == inject_Z (Z.of_nat n * 2 ^ 1074) * Double.pow2 (-1074).
Proof.
  rewrite inject_Z_mult, <- (DoubleProps.pow2_nat 1074) by lia.
  rewrite <- Qmult_assoc, <- DoubleProps.pow2_add.
  change (Double.pow2 (1074 + -1074)) with 1. ring.
Qed.

(** X21.  [getSuccessRate] lies between 0 and 100; it is 0 for an empty
    history and for one without a success, and 100 for a history that
    is not empty and holds successes only. *)
Theorem getSuccessRate_bounds (history : list TradeResult) :
  0 <= getSuccessRate history <= 100
  /\ getSuccessRate [] = 0
  /\ (Forall (fun r => success r = false) history -> getSuccessRate history = 0)
  /\ (history <> [] -> Forall (fun r => success r = true) history ->
      getSuccessRate history = 100).
Proof.
  assert (H100 : Double.round 100 = 100) by (vm_compute; reflexivity).
  assert (H1 : Double.round 1 = 1) by (vm_compute; reflexivity).
  assert (H0 : Double.round 0 = 0) by (vm_compute; reflexivity).
  unfold getSuccessRate.
  destruct history as [|r rest]; cbn [length Nat.eqb].
  - split; [split; discriminate|]. split; [reflexivity|].
    split; [reflexivity|]. intros H. now elim H.
  - cbv zeta. set (h := r :: rest).
    change (S (length rest)) with (length h).
    pose proof (length_filter_le success h) as Hle.
    set (c := inject_Z (Z.of_nat (length (List.filter success h)))).
    set (n := inject_Z (Z.of_nat (length h))).
    assert (Hn : 0 < n).
    { subst n. change 0 with (inject_Z 0). rewrite <- Zlt_Qlt. subst h. cbn [length]. lia. }
    assert (Hc : 0 <= c).
    { subst c. change 0 with (inject_Z 0). rewrite <- Zle_Qle. lia. }
    assert (Hcn : c <= n) by (subst c n; rewrite <- Zle_Qle; lia).
    assert (Hrn : 0 < Double.round n).
    { apply (DoubleProps.round_pos n _ (count_grid _) Hn). }
    pose proof (DoubleProps.round_nonneg c Hc) as Hrc.
    pose proof (DoubleProps.round_monotone c n Hcn) as Hrcn.
    assert (Hq : 0 <= Double.round c / Double.round n <= 1).
    { split.
      - apply Qle_shift_div_l; [exact Hrn|lra].
      - apply Qle_shift_div_r; [exact Hrn|lra]. }
    assert (Hd : 0 <= Double.div c n <= 1).
    { unfold Double.div. split.
      - apply DoubleProps.round_ge; [rewrite H0; reflexivity|apply Hq].
      - apply DoubleProps.round_le; [rewrite H1; reflexivity|apply Hq]. }
    split; [|split; [reflexivity|split]].
    + unfold Double.mul. rewrite H100.
      assert (Hdd : Double.round (Double.div c n) = Double.div c n)
        by apply DoubleProps.round_idempotent.
      rewrite Hdd. split.
      * apply DoubleProps.round_ge; [rewrite H0; reflexivity|nra].
      * apply DoubleProps.round_le; [rewrite H100; reflexivity|nra].
    + intros Hnone.
      assert (Hz : length (List.filter success h) = 0%nat).
      { clear -Hnone. induction Hnone as [|x l Hx _ IH]; [reflexivity|].
        cbn [List.filter]. rewrite Hx. exact IH. }
      subst c. rewrite Hz. vm_compute Z.of_nat. unfold Double.div.
      rewrite (DoubleProps.round_comp (Double.round (inject_Z 0) / Double.round n) 0).
      * vm_compute. reflexivity.
      * change (Double.round (inject_Z 0)) with (Double.round 0). rewrite H0.
        unfold Qdiv. ring.
    + intros _ Hall. apply length_filter_all in Hall.
      subst c. rewrite Hall. fold n. unfold Double.div.
      rewrite (DoubleProps.round_comp (Double.round n / Double.round n) 1).
      * vm_compute. reflexivity.
      * field. lra.
Qed.

End TradeReportsProps.

(** ** The token registry *)

Module TokenRegistryProps.
Import TokenRegistry.

(** X22.  A path of [findTradingPaths] is the direct one, from the
    source to the target token, or goes through one of GALA, GUSDC and
    GUSDT, other than the source and the target; every hop of a path is
    a pair that [hasPotentialPair] accepts; there are at most four
    paths and the direct one, if any, comes first. *)
Theorem findTradingPaths_routes (knownPairs : gset string)
    (fromTokenKey toTokenKey : string) (maxHops : Q) :
  let paths := findTradingPaths knownPairs fromTokenKey toTokenKey maxHops in
  Forall (fun p =>
            (p = [fromTokenKey; toTokenKey]
             /\ hasPotentialPair knownPairs fromTokenKey toTokenKey = true)
            \/ exists mid,
                 p = [fromTokenKey; mid; toTokenKey]
                 /\ In mid intermediateTokens
                 /\ mid <> fromTokenKey /\ mid <> toTokenKey
                 /\ hasPotentialPair knownPairs fromTokenKey mid = true
                 /\ hasPotentialPair knownPairs mid toTokenKey = true)
    paths
  /\ (length paths <= 4)%nat
  /\ (In [fromTokenKey; toTokenKey] paths ->
      head paths = Some [fromTokenKey; toTokenKey]).
Proof.
  cbv zeta. unfold findTradingPaths.
  split; [|split].
  - apply Forall_app. split.
    + destruct (hasPotentialPair knownPairs fromTokenKey toTokenKey) eqn:E;
        repeat constructor.
    + destruct (Js.ge maxHops 2); [|constructor].
      apply List.Forall_forall. intros p Hp. apply in_flat_map in Hp.
      destruct Hp as (mid & Hmid & Hp).
      destruct (String.eqb_spec mid fromTokenKey); cbn [negb andb] in Hp; [destruct Hp|].
      destruct (String.eqb_spec mid toTokenKey); cbn [negb andb] in Hp; [destruct Hp|].
      destruct (hasPotentialPair knownPairs fromTokenKey mid) eqn:E1;
        cbn [andb] in Hp; [|destruct Hp].
      destruct (hasPotentialPair knownPairs mid toTokenKey) eqn:E2; [|destruct Hp].
      destruct Hp as [<-|[]]. right. exists mid. auto 10.
  - rewrite length_app.
    assert (H1 : (length (if hasPotentialPair knownPairs fromTokenKey toTokenKey
                          then [[fromTokenKey; toTokenKey]] else []) <= 1)%nat)
      by (destruct (hasPotentialPair _ _ _); cbn; lia).
    assert (H2 : forall f : string -> list (list string),
               (forall t, length (f t) <= 1)%nat ->
               (length (flat_map f intermediateTokens) <= 3)%nat).
    { intros f Hf. unfold intermediateTokens. cbn [flat_map].
      rewrite !length_app. cbn [length].
      pose proof (Hf "GALA|Unit|none|none"%string).
      pose proof (Hf "GUSDC|Unit|none|none"%string).
      pose proof (Hf "GUSDT|Unit|none|none"%string). lia. }
    destruct (Js.ge maxHops 2); [|cbn [length]; lia].
    match goal with
    | |- (_ + length (flat_map ?f _) <= _)%nat =>
        assert (H3 := H2 f)
    end.
    cbv beta in H3.
    assert (H4 : forall t,
               (length
                  (if negb (String.eqb t fromTokenKey) && negb (String.eqb t toTokenKey)
                   then
                     if hasPotentialPair knownPairs fromTokenKey t
                        && hasPotentialPair knownPairs t toTokenKey
                     then [[fromTokenKey; t; toTokenKey]]
                     else []
                   else []) <= 1)%nat).
    { intros t. destruct (_ && _)%bool; [|cbn; lia].
      destruct (_ && _)%bool; cbn; lia. }
    specialize (H3 H4). lia.
  - intros Hin. destruct (hasPotentialPair knownPairs fromTokenKey toTokenKey);
      [reflexivity|].
    cbn [app] in Hin. exfalso.
    destruct (Js.ge maxHops 2); [|destruct Hin].
    apply in_flat_map in Hin. destruct Hin as (mid & _ & Hin).
    destruct (_ && _)%bool; [|destruct Hin].
    destruct (_ && _)%bool; [|destruct Hin].
    destruct Hin as [Hin|[]]. discriminate Hin.
Qed.


(** X23.  [hasPotentialPair] does not depend on the order of the two
    tokens. *)
Theorem hasPotentialPair_sym (knownPairs : gset string) (token0 token1 : string) :
  hasPotentialPair knownPairs token0 token1 = hasPotentialPair knownPairs token1 token0.
Proof.
  unfold hasPotentialPair. cbv zeta.
  cbn [existsb].
  rewrite !(orb_comm (bool_decide (pairKey token0 token1 _ ∈ knownPairs))
                     (bool_decide (pairKey token1 token0 _ ∈ knownPairs))).
  rewrite (orb_comm (String.eqb token0 _) (String.eqb token1 _)).
  rewrite (orb_comm (includes _ token0 && includes _ token1)%bool).
  reflexivity.
Qed.

Lemma hasPotentialPair_gala_l (knownPairs : gset string) (t : string) :
  hasPotentialPair knownPairs "GALA|Unit|none|none" t = true.
Proof.
  unfold hasPotentialPair. cbv zeta. destruct (existsb _ _); reflexivity.
Qed.

Lemma hasPotentialPair_gala_r (knownPairs : gset string) (t : string) :
  hasPotentialPair knownPairs t "GALA|Unit|none|none" = true.
Proof.
  unfold hasPotentialPair. cbv zeta. destruct (existsb _ _); [reflexivity|].
  rewrite String.eqb_refl, orb_true_r. reflexivity.
Qed.

(** The registry always offers a route when an intermediate token is
    allowed: the direct one when the source or the target is GALA, the
    one through GALA otherwise. *)
Lemma findTradingPaths_never_empty (knownPairs : gset string)
    (fromTokenKey toTokenKey : string) (maxHops : Q) :
  2 <= maxHops ->
  findTradingPaths knownPairs fromTokenKey toTokenKey maxHops <> [].
Proof.
  intros Hmax. unfold findTradingPaths.
  replace (Js.ge maxHops 2) with true by (symmetry; apply ge_true; exact Hmax).
  unfold intermediateTokens. cbn [flat_map].
  destruct (String.eqb_spec "GALA|Unit|none|none" fromTokenKey) as [<-|Hf].
  { rewrite hasPotentialPair_gala_l. discriminate. }
  destruct (String.eqb_spec "GALA|Unit|none|none" toTokenKey) as [<-|Ht].
  { rewrite hasPotentialPair_gala_r. discriminate. }
  cbn [negb andb]. rewrite hasPotentialPair_gala_l, hasPotentialPair_gala_r.
  cbn [andb]. destruct (hasPotentialPair knownPairs fromTokenKey toTokenKey);
    discriminate.
Qed.

(** X24.  [getBestIntermediateToken] is the middle token of the first
    route with an intermediate token that [findTradingPaths] lists for
    the pair with [maxHops = 2], and [null] when it lists none. *)
Theorem getBestIntermediateToken_first_route (knownPairs : gset string)
    (fromTokenKey toTokenKey : string) :
  getBestIntermediateToken knownPairs fromTokenKey toTokenKey
  = firstIntermediate (findTradingPaths knownPairs fromTokenKey toTokenKey 2).
Proof.
  unfold getBestIntermediateToken, findTradingPaths, firstIntermediate.
  cbv zeta. change (Js.ge 2 2) with true. cbv iota.
  unfold intermediateTokens. cbn [flat_map]. rewrite app_nil_r.
  rewrite !(String.eqb_sym fromTokenKey), !(String.eqb_sym toTokenKey).
  destruct (hasPotentialPair knownPairs fromTokenKey toTokenKey);
    destruct (negb (String.eqb "GALA|Unit|none|none" fromTokenKey)
              && negb (String.eqb "GALA|Unit|none|none" toTokenKey))%bool;
    destruct (negb (String.eqb "GUSDC|Unit|none|none" fromTokenKey)
              && negb (String.eqb "GUSDC|Unit|none|none" toTokenKey))%bool;
    destruct (negb (String.eqb "GUSDT|Unit|none|none" fromTokenKey)
              && negb (String.eqb "GUSDT|Unit|none|none" toTokenKey))%bool;
    cbn [andb];
    try destruct (hasPotentialPair knownPairs fromTokenKey "GALA|Unit|none|none"
                  && hasPotentialPair knownPairs "GALA|Unit|none|none" toTokenKey)%bool;
    try destruct (hasPotentialPair knownPairs fromTokenKey "GUSDC|Unit|none|none"
                  && hasPotentialPair knownPairs "GUSDC|Unit|none|none" toTokenKey)%bool;
    try destruct (hasPotentialPair knownPairs fromTokenKey "GUSDT|Unit|none|none"
                  && hasPotentialPair knownPairs "GUSDT|Unit|none|none" toTokenKey)%bool;
    reflexivity.
Qed.

Lemma split_bar_nonempty (s : string) : (1 <= length (OfflineQuote.split_bar s))%nat.
Proof.
  induction s as [|c r IH]; cbn [OfflineQuote.split_bar length]; [lia|].
  destruct (Ascii.eqb c "|"); [cbn [length]; lia|].
  destruct (OfflineQuote.split_bar r); cbn [length] in *; lia.
Qed.

Lemma split_bar_join (a b : string) :
  length (OfflineQuote.split_bar (a ++ "|" ++ b))
  = (length (OfflineQuote.split_bar a) + length (OfflineQuote.split_bar b))%nat.
Proof.
  induction a as [|c r IH].
  - reflexivity.
  - change ((String c r ++ "|" ++ b)%string) with (String c (r ++ "|" ++ b)).
    cbn [OfflineQuote.split_bar].
    destruct (Ascii.eqb c "|"); [cbn [length]; rewrite IH; reflexivity|].
    pose proof (split_bar_nonempty (r ++ "|" ++ b)) as H1.
    pose proof (split_bar_nonempty r) as H2.
    destruct (OfflineQuote.split_bar (r ++ "|" ++ b)),
             (OfflineQuote.split_bar r); cbn [length] in *; lia.
Qed.

Lemma pairKey_parts (token0 token1 : string) (fee : N) :
  (length (OfflineQuote.split_bar token0) + length (OfflineQuote.split_bar token1)
   < length (OfflineQuote.split_bar (pairKey token0 token1 fee)))%nat.
Proof.
  unfold pairKey. rewrite !split_bar_join.
  pose proof (split_bar_nonempty (string_of_N fee)). lia.
Qed.

Lemma parseTokenKey_parts (tokenKey : string) (parts : list string) :
  OfflineQuote.parseTokenKey tokenKey = Js.Ok parts ->
  length (OfflineQuote.split_bar tokenKey) = 4%nat.
Proof.
  unfold OfflineQuote.parseTokenKey.
  destruct (Nat.eqb_spec (length (OfflineQuote.split_bar tokenKey)) 4);
    cbn [negb]; [auto | discriminate].
Qed.

Lemma initialPairs_parts (pair : string) :
  pair ∈ initialPairs -> length (OfflineQuote.split_bar pair) = 3%nat.
Proof.
  unfold initialPairs. rewrite elem_of_list_to_set, !elem_of_cons, elem_of_nil.
  intros [->|[->|[->|[->|[->|[]]]]]]; reflexivity.
Qed.

(** X25.  For two token keys of the four parts that the rest of the
    program requires, no pair key that [hasPotentialPair] looks up is
    one of the pairs that [initializeKnownPairs] enters, which are
    written with symbols: with the table as initialised
    [hasPotentialPair] answers as it does with an empty table. *)
Theorem initial_pairs_never_match (token0 token1 : string) (parts0 parts1 : list string) :
  OfflineQuote.parseTokenKey token0 = Js.Ok parts0 ->
  OfflineQuote.parseTokenKey token1 = Js.Ok parts1 ->
  (forall fee, pairKey token0 token1 fee ∉ initialPairs)
  /\ hasPotentialPair initialPairs token0 token1 = hasPotentialPair ∅ token0 token1.
Proof.
  intros H0 H1. apply parseTokenKey_parts in H0, H1.
  assert (Hno : forall a b fee,
             length (OfflineQuote.split_bar a) = 4%nat ->
             length (OfflineQuote.split_bar b) = 4%nat ->
             pairKey a b fee ∉ initialPairs).
  { intros a b fee Ha Hb Hin. apply initialPairs_parts in Hin.
    pose proof (pairKey_parts a b fee). lia. }
  split; [intros fee; apply Hno; assumption|].
  unfold hasPotentialPair. cbv zeta.
  assert (E : forall kp : gset string,
             (forall fee, pairKey token0 token1 fee ∉ kp) ->
             (forall fee, pairKey token1 token0 fee ∉ kp) ->
             existsb (fun fee =>
                        bool_decide (pairKey token0 token1 fee ∈ kp)
                        || bool_decide (pairKey token1 token0 fee ∈ kp))
               [500; 3000; 10000]%N = false).
  { intros kp Ha Hb. cbn [existsb].
    rewrite !bool_decide_eq_false_2 by auto. reflexivity. }
  rewrite (E initialPairs) by (intros fee; apply Hno; assumption).
  rewrite (E ∅) by (intros fee; apply not_elem_of_empty).
  reflexivity.
Qed.

Lemma initial_pairs_never_match_witness :
  hasPotentialPair initialPairs "GUSDC|Unit|none|none" "GUSDT|Unit|none|none" = false.
Proof.
  destruct (initial_pairs_never_match "GUSDC|Unit|none|none" "GUSDT|Unit|none|none"
              ["GUSDC"; "Unit"; "none"; "none"]%string
              ["GUSDT"; "Unit"; "none"; "none"]%string eq_refl eq_refl) as [_ H].
  rewrite H. reflexivity.
Defined.

(** X26.  With the routes of the registry, [executeMultiHopTrade]
    never fails for want of a route: the registry lists at least one
    path for every pair, so that the only error it throws is that all
    the paths failed. *)
Theorem multi_hop_error_with_registry (config : BotConfig) (world : TradingStrategy.World)
    (knownPairs : gset string) (src dst : string) (amount : Q)
    (s s' : TradingStrategy.State) (e : string) :
  (forall a b,
      TradingStrategy.findTradingPaths world a b
      = findTradingPaths knownPairs a b 2) ->
  TradingStrategy.executeMultiHopTrade config world src dst amount s
  = (Js.Throw e, s') ->
  e = ("All trading paths failed for " ++ src ++ " -> " ++ dst)%string.
Proof.
  intros Hreg H. unfold TradingStrategy.executeMultiHopTrade in H.
  unfold TradingStrategy.bind at 1, TradingStrategy.attempt in H.
  destruct (TradingStrategy.executeTrade config world src dst amount None s)
    as [direct s1].
  assert (Hpaths : forall paths s0,
             TradingStrategy.tryPaths config world src dst amount paths s0
             = (Js.Throw e, s') ->
             e = ("All trading paths failed for " ++ src ++ " -> " ++ dst)%string).
  { induction paths as [|path rest IH]; intros s0 H0; cbn [TradingStrategy.tryPaths] in H0.
    - unfold TradingStrategy.throw in H0. injection H0 as <- _. reflexivity.
    - unfold TradingStrategy.bind at 1, TradingStrategy.attempt in H0.
      destruct (TradingStrategy.tryPath config world src dst amount path s0)
        as [[[combined|]|e0] s2]; try exact (IH _ H0).
      discriminate H0. }
  assert (Hr : TradingStrategy.tryRegistryPaths config world src dst amount s1
               = (Js.Throw e, s') ->
               e = ("All trading paths failed for " ++ src ++ " -> " ++ dst)%string).
  { unfold TradingStrategy.tryRegistryPaths. rewrite Hreg.
    pose proof (findTradingPaths_never_empty knownPairs src dst 2) as Hne.
    destruct (findTradingPaths knownPairs src dst 2) as [|path rest].
    - exfalso. apply Hne; [discriminate | reflexivity].
    - apply Hpaths. }
  destruct direct as [directResult|e0]; [|exact (Hr H)].
  destruct (TradingStrategy.success directResult); [discriminate H | exact (Hr H)].
Qed.

Lemma multi_hop_error_with_registry_witness :
  fst (TradingStrategy.executeMultiHopTrade (Scenario.config true)
         (routedWorld initialPairs) (Scenario.key "GUSDC") (Scenario.key "SILK") 5
         Scenario.idle)
  = Js.Throw ("All trading paths failed for " ++ Scenario.key "GUSDC" ++ " -> "
              ++ Scenario.key "SILK").
Proof.
  destruct (TradingStrategy.executeMultiHopTrade (Scenario.config true)
              (routedWorld initialPairs) (Scenario.key "GUSDC") (Scenario.key "SILK")
              5 Scenario.idle) as [[r|e] s'] eqn:E.
  - vm_compute in E. discriminate E.
  - cbn [fst]. f_equal.
    exact (multi_hop_error_with_registry _ (routedWorld initialPairs) initialPairs
             _ _ _ _ _ _ (fun a b => eq_refl) E).
Defined.

End TokenRegistryProps.

(** ** Balance summaries and token keys *)

Module BalanceShapeProps.
Import BalanceManager BalanceShape.

Lemma last_cons_default {A : Type} (x d : A) (l : list A) :
  List.last (x :: l) d = List.last l x.
Proof.
  revert x d. induction l as [|y l IH]; intros x d; [reflexivity|].
  change (List.last (x :: y :: l) d) with (List.last (y :: l) d).
  rewrite !IH. reflexivity.
Qed.

Lemma fold_processToken (config : BotConfig) (l : list AssetToken) :
  forall acc,
    fold_left (processToken config) l acc
    = {| acc_preferred :=
           List.last (map asset_quantity
                        (List.filter (hasKey (preferredTokenKey config)) l))
             (acc_preferred acc);
         acc_gala :=
           List.last (map asset_quantity
                        (List.filter (hasKey (galaTokenKey config)) l))
             (acc_gala acc);
         acc_others :=
           acc_others acc
           ++ map asOther
                (List.filter (fun a => negb (hasKey (preferredTokenKey config) a)
                                       && negb (hasKey (galaTokenKey config) a)) l) |}.
Proof.
  induction l as [|a l IH]; intros acc; cbn [fold_left List.filter map].
  - rewrite app_nil_r. destruct acc; reflexivity.
  - rewrite IH. unfold processToken. cbv zeta.
    change (String.eqb (constructTokenKey a) (preferredTokenKey config))
      with (hasKey (preferredTokenKey config) a).
    change (String.eqb (constructTokenKey a) (galaTokenKey config))
      with (hasKey (galaTokenKey config) a).
    destruct (hasKey (preferredTokenKey config) a) eqn:Ep;
      destruct (hasKey (galaTokenKey config) a) eqn:Eg;
      cbn [negb andb map acc_preferred acc_gala acc_others];
      rewrite ?last_cons_default, <- ?app_assoc; reflexivity.
Qed.

(** X27.  The summary of [getBalances] holds, as the balance of the
    preferred token and as that of the gas token, the quantity of the
    last listed asset with that key (the quantities of several assets
    with one key are not added up) and 0 when no asset has the key; its
    [otherTokens] are the assets with neither key, in the order of the
    listing; [totalTokens] is the count that the gateway reports. *)
Theorem getBalances_summary (config : BotConfig) (assets : UserAssets) :
  getBalances config (Js.Ok assets)
  = Js.Ok
      {| preferredTokenBalance := lastQuantity (preferredTokenKey config) (tokens assets);
         galaTokenBalance := lastQuantity (galaTokenKey config) (tokens assets);
         otherTokens :=
           map asOther
             (List.filter (fun a => negb (hasKey (preferredTokenKey config) a)
                                    && negb (hasKey (galaTokenKey config) a))
                (tokens assets));
         totalTokens := count assets |}.
Proof.
  unfold getBalances, processTokens. rewrite fold_processToken. reflexivity.
Qed.

Lemma split_bar_noBar (s : string) :
  noBar s = true -> OfflineQuote.split_bar s = [s].
Proof.
  unfold noBar. induction s as [|c r IH]; cbn [list_ascii_of_string forallb];
    [reflexivity|].
  intros H. apply andb_prop in H. destruct H as [Hc Hr].
  cbn [OfflineQuote.split_bar]. apply negb_true_iff in Hc. rewrite Hc, (IH Hr).
  reflexivity.
Qed.

Lemma split_bar_cons (a b : string) :
  noBar a = true ->
  OfflineQuote.split_bar (a ++ "|" ++ b) = a :: OfflineQuote.split_bar b.
Proof.
  unfold noBar. induction a as [|c r IH]; cbn [list_ascii_of_string forallb];
    [reflexivity|].
  intros H. apply andb_prop in H. destruct H as [Hc Hr].
  change ((String c r ++ "|" ++ b)%string) with (String c (r ++ "|" ++ b)).
  cbn [OfflineQuote.split_bar]. apply negb_true_iff in Hc. rewrite Hc, (IH Hr).
  reflexivity.
Qed.

Lemma or_str_noBar (o : option string) (d : string) :
  barFree o = true -> noBar d = true -> d <> ""%string ->
  noBar (Js.or_str o d) = true /\ Js.or_str o d <> ""%string.
Proof.
  intros Ho Hd Hne. unfold Js.or_str. destruct o as [s|]; [|auto].
  destruct (String.eqb_spec s ""); auto.
Qed.

(** X28.  When no field of an asset has a ["|"], the token key that
    [constructTokenKey] builds for it has exactly four parts, none of
    them empty, and [parseTokenKey] of the quote engine and of the pool
    manager accepts it and gives these four parts back. *)
Theorem constructTokenKey_parses (token : AssetToken) :
  barFreeAsset token = true ->
  exists collection category type additionalKey,
    constructTokenKey token
    = (collection ++ "|" ++ category ++ "|" ++ type ++ "|" ++ additionalKey)%string
    /\ OfflineQuote.parseTokenKey (constructTokenKey token)
       = Js.Ok [collection; category; type; additionalKey]
    /\ collection <> ""%string /\ category <> ""%string
    /\ type <> ""%string /\ additionalKey <> ""%string.
Proof.
  unfold barFreeAsset. intros H.
  apply andb_prop in H. destruct H as [H Hclass].
  apply andb_prop in H. destruct H as [H Hkey].
  apply andb_prop in H. destruct H as [Hsym Hflat].
  unfold constructTokenKey.
  set (cls := match asset_tokenClassKey token with
              | Some c => c
              | None => match asset_tokenClass token with
                        | Some c => c
                        | None => asset_flat token
                        end
              end).
  assert (Hcls : barFreeClass cls = true).
  { subst cls. destruct (asset_tokenClassKey token); [exact Hkey|].
    destruct (asset_tokenClass token); [exact Hclass | exact Hflat]. }
  unfold barFreeClass in Hcls.
  apply andb_prop in Hcls. destruct Hcls as [Hcls Hak].
  apply andb_prop in Hcls. destruct Hcls as [Hcls Hty].
  apply andb_prop in Hcls. destruct Hcls as [Hco Hca].
  cbv zeta.
  destruct (or_str_noBar (asset_symbol token) "unknown" Hsym eq_refl)
    as [Hs1 Hs2]; [discriminate|].
  destruct (or_str_noBar (BalanceManager.collection cls)
              (Js.or_str (asset_symbol token) "unknown") Hco Hs1 Hs2) as [Hc1 Hc2].
  destruct (or_str_noBar (BalanceManager.category cls) "Unit" Hca eq_refl)
    as [Hb1 Hb2]; [discriminate|].
  destruct (or_str_noBar (BalanceManager.type cls) "none" Hty eq_refl)
    as [Ht1 Ht2]; [discriminate|].
  destruct (or_str_noBar (BalanceManager.additionalKey cls) "none" Hak eq_refl)
    as [Ha1 Ha2]; [discriminate|].
  eexists _, _, _, _. split; [reflexivity|]. split; [|auto].
  unfold OfflineQuote.parseTokenKey.
  rewrite (split_bar_cons _ _ Hc1), (split_bar_cons _ _ Hb1),
    (split_bar_cons _ _ Ht1), (split_bar_noBar _ Ha1).
  reflexivity.
Qed.

Lemma constructTokenKey_parses_witness :
  OfflineQuote.parseTokenKey (constructTokenKey (Scenario.asset "GUSDC" 50))
  = Js.Ok ["GUSDC"; "Unit"; "none"; "none"]%string.
Proof.
  destruct (constructTokenKey_parses (Scenario.asset "GUSDC" 50) eq_refl)
    as (c & cat & ty & ak & _ & H & _).
  rewrite H. vm_compute in H. injection H as <- <- <- <-. reflexivity.
Defined.

End BalanceShapeProps.
